(** * MoonTV [src/lib/downstream.ts]: search and detail lookups

    A shallow embedding of the downstream module: the string and regular
    expression primitives it relies on, the item normaliser, the search
    orchestrator and the detail resolver, followed by the properties of
    the module's specification. *)

From Stdlib Require Import String Ascii ZArith NArith List Lia DecimalString.
From Stdlib Require Import QArith Qround Qabs.
From stdpp Require Import list sorting.

Set Default Proof Using "Type".
Local Open Scope N_scope.

(** ** JavaScript strings

    A JavaScript string is a sequence of UTF-16 code units; regular
    expressions without the [u] flag, [split], [indexOf], [substring] and
    [trim] all work on code units. *)

Definition jsstring := list N.

Definition ch (a : ascii) : N := N_of_ascii a.

Definition str (s : string) : jsstring := map ch (list_ascii_of_string s).

Definition jsstring_eqb (a b : jsstring) : bool :=
  bool_decide (a = b).

(** [String.prototype.startsWith]. *)
Fixpoint startsWith (pre s : jsstring) : bool :=
  match pre, s with
  | [], _ => true
  | p :: pre', c :: s' => (p =? c) && startsWith pre' s'
  | _ :: _, [] => false
  end.

(** Suffix test; not used by the module, only by its specification. *)
Definition endsWith (suf s : jsstring) : bool :=
  startsWith (rev suf) (rev s).

(** [String.prototype.indexOf] for a one-unit needle: [-1] when absent. *)
Fixpoint indexOf (c : N) (s : jsstring) : Z :=
  match s with
  | [] => (-1)%Z
  | x :: t => if x =? c then 0%Z
              else let i := indexOf c t in
                   if (i <? 0)%Z then (-1)%Z else (i + 1)%Z
  end.

(** [String.prototype.substring(start, end)]: both indices are clamped to
    [0 .. length] and swapped when out of order; a missing [end] is the
    length. *)
Definition substring (s : jsstring) (start : Z) (stop : option Z) : jsstring :=
  let len := Z.of_nat (length s) in
  let clamp i := Z.min (Z.max i 0) len in
  let a := clamp start in
  let b := match stop with Some e => clamp e | None => len end in
  let from := Z.to_nat (Z.min a b) in
  let to := Z.to_nat (Z.max a b) in
  take (to - from)%nat (drop from s).

(** White space and line terminators: what [\s] matches and [trim]
    removes. *)
Definition is_space (c : N) : bool :=
  ((9 <=? c) && (c <=? 13)) || (c =? 32) || (c =? 160) || (c =? 5760)
  || ((8192 <=? c) && (c <=? 8202)) || (c =? 8232) || (c =? 8233)
  || (c =? 8239) || (c =? 8287) || (c =? 12288) || (c =? 65279).

Fixpoint trimStart (s : jsstring) : jsstring :=
  match s with
  | c :: t => if is_space c then trimStart t else s
  | [] => []
  end.

Definition trim (s : jsstring) : jsstring :=
  rev (trimStart (rev (trimStart s))).

(** [String.prototype.split] with a non-empty separator: after a
    separator has been found at a position, its [skip] remaining units
    are passed over. *)
Fixpoint split_go (sep : jsstring) (skip : nat) (cur : jsstring)
    (s : jsstring) : list jsstring :=
  match s with
  | [] => [rev cur]
  | c :: t =>
      match skip with
      | S k => split_go sep k cur t
      | O => if startsWith sep s
             then rev cur :: split_go sep (length sep - 1) [] t
             else split_go sep 0 (c :: cur) t
      end
  end.

Definition split (sep s : jsstring) : list jsstring := split_go sep 0 [] s.

(** [Number.prototype.toString] on a non-negative integer. *)
Definition N_toString (n : N) : jsstring :=
  str (NilZero.string_of_uint (N.to_uint n)).

(** [String.prototype.replace] with a string pattern: only the first
    occurrence is replaced.  The replacements used by the module (an
    encoded URI component, a decimal numeral) contain no dollar sign, so
    the special replacement patterns never arise. *)
Fixpoint replace_first (pat rep s : jsstring) : jsstring :=
  if startsWith pat s then rep ++ drop (length pat) s
  else match s with
       | [] => []
       | c :: t => c :: replace_first pat rep t
       end.

(** ** Regular expressions

    The patterns of the module are concatenations of literals, character
    classes and quantified character classes.  [parse r s] lists the ways
    [r] can match a prefix of [s], in the priority order of a backtracking
    matcher: each entry is the matched text and the remaining input. *)

Inductive greed := Greedy | Lazy.

Inductive regex :=
| Lit (w : jsstring)
| Cls (p : N -> bool)
| Rep (p : N -> bool) (lo : nat) (hi : option nat) (g : greed)
| Seq (r1 r2 : regex).

Declare Scope regex_scope.
Delimit Scope regex_scope with re.
Bind Scope regex_scope with regex.
Infix "·" := Seq (at level 41, right associativity) : regex_scope.

Definition hi_zero (hi : option nat) : bool :=
  match hi with Some O => true | _ => false end.

Fixpoint parse_rep (p : N -> bool) (g : greed) (lo : nat) (hi : option nat)
    (s : jsstring) : list (jsstring * jsstring) :=
  let stop := match lo with O => [([], s)] | S _ => [] end in
  let more :=
    match s with
    | c :: t =>
        if p c && negb (hi_zero hi)
        then map (fun mr => (c :: fst mr, snd mr))
                 (parse_rep p g (pred lo) (option_map pred hi) t)
        else []
    | [] => []
    end in
  match g with
  | Greedy => more ++ stop
  | Lazy => stop ++ more
  end.

Fixpoint parse (r : regex) (s : jsstring) : list (jsstring * jsstring) :=
  match r with
  | Lit w => if startsWith w s then [(w, drop (length w) s)] else []
  | Cls p => match s with
             | c :: t => if p c then [([c], t)] else []
             | [] => []
             end
  | Rep p lo hi g => parse_rep p g lo hi s
  | Seq r1 r2 =>
      flat_map (fun mr1 =>
                  map (fun mr2 => (fst mr1 ++ fst mr2, snd mr2))
                      (parse r2 (snd mr1)))
               (parse r1 s)
  end.

(** The match found at the current position, if any. *)
Definition match_here (r : regex) (s : jsstring) : option jsstring :=
  match parse r s with
  | (m, _) :: _ => Some m
  | [] => None
  end.

(** [s.match(r)] without the [g] flag, element [0]: the leftmost match. *)
Fixpoint match_first (r : regex) (s : jsstring) : option jsstring :=
  match match_here r s with
  | Some m => Some m
  | None => match s with
            | [] => None
            | _ :: t => match_first r t
            end
  end.

(** [s.match(r)] with the [g] flag: all matches, left to right, never
    overlapping; [skip] counts the units of the previous match still to be
    passed over, and an empty match advances by one unit. *)
Fixpoint match_all_go (r : regex) (skip : nat) (s : jsstring)
    : list jsstring :=
  match skip with
  | S k => match s with
           | [] => []
           | _ :: t => match_all_go r k t
           end
  | O =>
      match match_here r s with
      | Some m => m :: match s with
                       | [] => []
                       | _ :: t => match_all_go r (pred (length m)) t
                       end
      | None => match s with
                | [] => []
                | _ :: t => match_all_go r 0 t
                end
      end
  end.

Definition match_all (r : regex) (s : jsstring) : list jsstring :=
  match_all_go r 0 s.

(** [s.replace(r, rep)] with the [g] flag. *)
Fixpoint replace_all_go (r : regex) (rep : jsstring) (skip : nat)
    (s : jsstring) : jsstring :=
  match skip with
  | S k => match s with
           | [] => []
           | _ :: t => replace_all_go r rep k t
           end
  | O =>
      match match_here r s with
      | Some m =>
          rep ++ match s with
                 | [] => []
                 | c :: t =>
                     match m with
                     | [] => c :: replace_all_go r rep 0 t
                     | _ :: _ => replace_all_go r rep (pred (length m)) t
                     end
                 end
      | None => match s with
                | [] => []
                | c :: t => c :: replace_all_go r rep 0 t
                end
      end
  end.

Definition replace_all (r : regex) (rep s : jsstring) : jsstring :=
  replace_all_go r rep 0 s.

(** [s.replace(/^r/, rep)]: the pattern is anchored at the start. *)
Definition replace_anchored (r : regex) (rep s : jsstring) : jsstring :=
  match parse r s with
  | (m, rest) :: _ => rep ++ rest
  | [] => s
  end.

(** [s.match(/pre(cap)post/)], element [1]: the text of the capture group
    of the leftmost match. *)
Definition group_here (pre cap post : regex) (s : jsstring)
    : option jsstring :=
  head (flat_map (fun mr1 =>
          flat_map (fun mr2 =>
                      map (fun _ => fst mr2) (parse post (snd mr2)))
                   (parse cap (snd mr1)))
        (parse pre s)).

Fixpoint match_group (pre cap post : regex) (s : jsstring)
    : option jsstring :=
  match group_here pre cap post s with
  | Some m => Some m
  | None => match s with
            | [] => None
            | _ :: t => match_group pre cap post t
            end
  end.

(** ** The patterns of the module *)

Definition dquote : N := 34.
Definition squote : N := 39.

(** [\d] *)
Definition is_digit (c : N) : bool := (48 <=? c) && (c <=? 57).

(** The class of the stream and cover patterns: any unit but a double
    quote, a single quote or white space; written [Q] below. *)
Definition url_unit (c : N) : bool :=
  negb ((c =? dquote) || (c =? squote) || is_space c).

(** [a-f0-9] *)
Definition is_hex_lower (c : N) : bool :=
  ((97 <=? c) && (c <=? 102)) || is_digit c.

Definition is_quote (c : N) : bool := (c =? dquote) || (c =? squote).

Definition any_unit (c : N) : bool := is_space c || negb (is_space c).

Definition plus_lazy (p : N -> bool) : regex := Rep p 1 None Lazy.
Definition plus (p : N -> bool) : regex := Rep p 1 None Greedy.
Definition star (p : N -> bool) : regex := Rep p 0 None Greedy.
Definition star_lazy (p : N -> bool) : regex := Rep p 0 None Lazy.
Definition opt (p : N -> bool) : regex := Rep p 0 (Some 1%nat) Greedy.
Definition times (n : nat) (p : N -> bool) : regex := Rep p n (Some n) Greedy.

(** The body shared by the stream patterns: [https?:\/\/Q+?\.m3u8]. *)
Definition m3u8_url : regex :=
  (Lit (str "http") · opt (N.eqb (ch "s")) · Lit (str "://")
   · plus_lazy url_unit · Lit (str ".m3u8"))%re.

(** [m3u8Regex] of [transformApiSearchItem] and [generalPattern] of
    [handleSpecialSourceDetail]: [\$(https?:\/\/Q+?\.m3u8)]. *)
Definition m3u8Regex : regex := (Lit (str "$") · m3u8_url)%re.
Definition generalPattern : regex := (Lit (str "$") · m3u8_url)%re.

(** [M3U8_PATTERN]: [(https?:\/\/Q+?\.m3u8)]. *)
Definition M3U8_PATTERN : regex := m3u8_url.

(** [ffzyPattern]:
    [\$(https?:\/\/Q+?\/\d{8}\/\d+_[a-f0-9]+\/index\.m3u8)]. *)
Definition ffzyPattern : regex :=
  (Lit (str "$") · Lit (str "http") · opt (N.eqb (ch "s")) · Lit (str "://")
   · plus_lazy url_unit · Lit (str "/") · times 8 is_digit · Lit (str "/")
   · plus is_digit · Lit (str "_") · plus is_hex_lower
   · Lit (str "/index.m3u8"))%re.

(** [\s+] and [\d{4}]. *)
Definition spaces : regex := plus is_space.
Definition four_digits : regex := times 4 is_digit.

(** ** Data model *)

(** [ApiSite] of [@/lib/config], as far as the module reads it. *)
Module ApiSite.
Record t := mk {
  key : jsstring;
  api : jsstring;
  name : jsstring;
  detail : option jsstring
}.
End ApiSite.

Module ApiSearchItem.
Record t := mk {
  vod_id : jsstring;
  vod_name : jsstring;
  vod_pic : jsstring;
  vod_remarks : option jsstring;
  vod_play_url : option jsstring;
  vod_class : option jsstring;
  vod_year : option jsstring;
  vod_content : option jsstring;
  vod_douban_id : option Z;
  type_name : option jsstring
}.
End ApiSearchItem.

(** [SearchResult] of [@/lib/types], with the fields the module fills. *)
Module SearchResult.
Record t := mk {
  id : jsstring;
  title : jsstring;
  poster : jsstring;
  episodes : list jsstring;
  source : jsstring;
  source_name : jsstring;
  class : option jsstring;
  year : jsstring;
  desc : jsstring;
  type_name : option jsstring;
  douban_id : option Z
}.
End SearchResult.

(** A string or [undefined] used as a condition: true unless it is
    missing or empty. *)
Definition truthy (o : option jsstring) : bool :=
  match o with
  | Some (_ :: _) => true
  | _ => false
  end.

(** [Array.from(new Set(l))]: a [Set] keeps the first insertion of each
    value, in insertion order; [seen] is the set built so far. *)
Fixpoint set_go (seen : list jsstring) (l : list jsstring) : list jsstring :=
  match l with
  | [] => []
  | x :: t => if existsb (jsstring_eqb x) seen then set_go seen t
              else x :: set_go (x :: seen) t
  end.

Definition Array_from_Set (l : list jsstring) : list jsstring := set_go [] l.

(** The callback mapped over the distinct matches (lines 35-39 and
    252-256): drop the leading dollar, cut at the first parenthesis. *)
Definition strip_link (link : jsstring) : jsstring :=
  let link := substring link 1 None in
  let parenIndex := indexOf (ch "(") link in
  if (parenIndex >? 0)%Z then substring link 0 (Some parenIndex) else link.

(** The [forEach] of lines 27-32: a group replaces the current choice
    only when it has strictly more matches. *)
Definition pick_episodes (groups : list jsstring) : list jsstring :=
  fold_left (fun episodes url =>
               let matches := match_all m3u8Regex url in
               if (length episodes <? length matches)%nat
               then matches else episodes)
            groups [].

(** Lines 22-39 of [transformApiSearchItem]. *)
Definition item_episodes (item : ApiSearchItem.t) : list jsstring :=
  let episodes :=
    if truthy (ApiSearchItem.vod_play_url item)
    then pick_episodes
           (split (str "$$$") (default [] (ApiSearchItem.vod_play_url item)))
    else [] in
  map strip_link (Array_from_Set episodes).

(** [vod_name.trim().replace(/\s+/g, ' ')]. *)
Definition normalize_title (vod_name : jsstring) : jsstring :=
  replace_all spaces (str " ") (trim vod_name).

(** [vod_year ? vod_year.match(/\d{4}/)?.[0] || '' : 'unknown']. *)
Definition normalize_year (vod_year : option jsstring) : jsstring :=
  if truthy vod_year
  then default [] (match_first four_digits (default [] vod_year))
  else str "unknown".

(** [x || ''] on a string that may be missing. *)
Definition or_empty (o : option jsstring) : jsstring := default [] o.

Section Normalizer.

(** [cleanHtmlTags] of [@/lib/utils] is outside this module; the detail
    resolver may pass it [undefined]. *)
Variable cleanHtmlTags : option jsstring -> jsstring.

Definition transformApiSearchItem (item : ApiSearchItem.t)
    (apiSite : ApiSite.t) : SearchResult.t :=
  {| SearchResult.id := ApiSearchItem.vod_id item;
     SearchResult.title := normalize_title (ApiSearchItem.vod_name item);
     SearchResult.poster := ApiSearchItem.vod_pic item;
     SearchResult.episodes := item_episodes item;
     SearchResult.source := ApiSite.key apiSite;
     SearchResult.source_name := ApiSite.name apiSite;
     SearchResult.class := ApiSearchItem.vod_class item;
     SearchResult.year := normalize_year (ApiSearchItem.vod_year item);
     SearchResult.desc :=
       cleanHtmlTags (Some (or_empty (ApiSearchItem.vod_content item)));
     SearchResult.type_name := ApiSearchItem.type_name item;
     SearchResult.douban_id := ApiSearchItem.vod_douban_id item |}.

End Normalizer.

Local Close Scope N_scope.

(** ** Effects: exceptions and the trace of requests

    An asynchronous function either returns a value or throws (its
    promise is rejected); along the way it issues fetch requests, recorded
    in order of issue. *)

Inductive exn :=
| TypeError     (* a failed [fetch]; a property read on [null] *)
| AbortError    (* what [fetch] rejects with when its signal aborts *)
| SyntaxError   (* what [response.json()] rejects with *)
| URIError      (* what [encodeURIComponent] throws *)
| Error (message : jsstring).   (* [new Error(message)] *)

Inductive result (A : Type) :=
| Ok (a : A)
| Throw (e : exn).
Arguments Ok {A} a.
Arguments Throw {A} e.

Definition headers := list (jsstring * jsstring).

(** The arguments of one [fetch] call; [timeout] is the delay in
    milliseconds after which the call's own [AbortController] aborts it,
    [None] when the call passes no signal. *)
Module Request.
Record t := mk {
  url : jsstring;
  hdrs : headers;
  timeout : option N
}.
End Request.

(** ** Numbers and JSON values

    A JavaScript number is a binary64 value: not a number, an infinity,
    or a finite value.  The module only tests, compares and takes the
    minimum of numbers, so a finite number is kept as the rational it
    denotes, and the two zeros are one. *)

Inductive number :=
| NaN
| Infinity (negative : bool)
| Finite (q : Q).

Definition of_Z (z : Z) : number := Finite (inject_Z z).

(** [x <= y]: false as soon as one side is [NaN]. *)
Definition num_le (x y : number) : bool :=
  match x, y with
  | NaN, _ | _, NaN => false
  | Infinity true, _ => true
  | _, Infinity false => true
  | Infinity false, _ => false
  | _, Infinity true => false
  | Finite p, Finite q => Qle_bool p q
  end.

(** [Math.min] of two numbers. *)
Definition Math_min (x y : number) : number :=
  match x, y with
  | NaN, _ | _, NaN => NaN
  | _, _ => if num_le x y then x else y
  end.

Definition pow2 (k : Z) : Q :=
  if (0 <=? k)%Z then inject_Z (2 ^ k) else Qmake 1 (Z.to_pos (2 ^ (- k))).

Definition pow10 (k : Z) : Q :=
  if (0 <=? k)%Z then inject_Z (10 ^ k) else Qmake 1 (Z.to_pos (10 ^ (- k))).

(** The binary exponent of a positive rational [a]: the [k] with
    [2^k <= a < 2^(k+1)]. *)
Definition binary_exponent (a : Q) : Z :=
  let k := (Z.log2 (Qnum a) - Z.log2 (Zpos (Qden a)))%Z in
  if Qle_bool (pow2 k) a then k else (k - 1)%Z.

(** The binary64 value nearest to a rational, ties going to the even
    significand: 53 significant bits, exponents down to [-1074], and an
    infinity from [2^1024] on. *)
Definition round_binary64 (q : Q) : number :=
  if Qeq_bool q 0 then Finite 0
  else
    let a := Qabs q in
    let u := Z.max (binary_exponent a - 52) (-1074) in
    let s := (a / pow2 u)%Q in
    let m0 := Qfloor s in
    let m := match (s - inject_Z m0 ?= 1 # 2)%Q with
             | Gt => (m0 + 1)%Z
             | Lt => m0
             | Eq => if Z.even m0 then m0 else (m0 + 1)%Z
             end in
    let v := Qred (inject_Z m * pow2 u) in
    if Qle_bool (pow2 1024) v then Infinity (negb (Qle_bool 0 q))
    else Finite (if Qle_bool 0 q then v else Qopp v).

(** *** Strings read as numbers

    [StringToNumber]: white space around the literal is dropped; the
    empty string is [0]; a literal is [Infinity] with an optional sign,
    an unsigned integer in base 16, 8 or 2 after [0x], [0o] or [0b], or
    an optionally signed decimal literal with an optional fraction and
    exponent; anything else is [NaN]. *)

Fixpoint span (p : N -> bool) (s : jsstring) : jsstring * jsstring :=
  match s with
  | c :: t => if p c then let (a, b) := span p t in (c :: a, b) else ([], s)
  | [] => ([], [])
  end.

Definition digit_of (radix : Z) (c : N) : option Z :=
  let v := (if ((48 <=? c) && (c <=? 57))%N then Z.of_N c - 48
            else if ((97 <=? c) && (c <=? 122))%N then Z.of_N c - 87
            else if ((65 <=? c) && (c <=? 90))%N then Z.of_N c - 55
            else -1)%Z in
  if ((0 <=? v) && (v <? radix))%Z then Some v else None.

Fixpoint radix_value (radix acc : Z) (s : jsstring) : option Z :=
  match s with
  | [] => Some acc
  | c :: t => match digit_of radix c with
              | Some v => radix_value radix (acc * radix + v)%Z t
              | None => None
              end
  end.

(** One or more digits of the radix, and nothing else. *)
Definition integer_literal (radix : Z) (s : jsstring) : option Z :=
  match s with
  | [] => None
  | _ :: _ => radix_value radix 0 s
  end.

(** An optional sign: whether it is a minus, and what follows. *)
Definition signed (s : jsstring) : bool * jsstring :=
  match s with
  | c :: t => if (c =? ch "+")%N then (false, t)
              else if (c =? ch "-")%N then (true, t)
              else (false, s)
  | [] => (false, [])
  end.

Definition nondecimal_literal (s : jsstring) : option Z :=
  match s with
  | z :: x :: digits =>
      if (z =? ch "0")%N then
        if ((x =? ch "x") || (x =? ch "X"))%N then integer_literal 16 digits
        else if ((x =? ch "o") || (x =? ch "O"))%N then integer_literal 8 digits
        else if ((x =? ch "b") || (x =? ch "B"))%N then integer_literal 2 digits
        else None
      else None
  | _ => None
  end.

(** An unsigned decimal literal [d.dEx], [.dEx] or [dEx]: its digits as
    an integer and the power of ten that scales them. *)
Definition unsigned_decimal (s : jsstring) : option (Z * Z) :=
  let (d1, r1) := span is_digit s in
  let (d2, r2) := match r1 with
                  | c :: r => if (c =? ch ".")%N then span is_digit r
                              else ([], r1)
                  | [] => ([], [])
                  end in
  match radix_value 10 0 (d1 ++ d2), d1 ++ d2 with
  | Some m, _ :: _ =>
      let k := (- Z.of_nat (length d2))%Z in
      match r2 with
      | [] => Some (m, k)
      | c :: r3 =>
          if ((c =? ch "e") || (c =? ch "E"))%N then
            let (negative, r4) := signed r3 in
            match integer_literal 10 r4 with
            | Some x => Some (m, if negative then (k - x)%Z else (k + x)%Z)
            | None => None
            end
          else None
      end
  | _, _ => None
  end.

Definition StringToNumber (s : jsstring) : number :=
  match trim s with
  | [] => Finite 0
  | t =>
      match nondecimal_literal t with
      | Some z => round_binary64 (inject_Z z)
      | None =>
          let (negative, u) := signed t in
          if jsstring_eqb u (str "Infinity") then Infinity negative
          else match unsigned_decimal u with
               | Some (m, k) =>
                   round_binary64
                     (inject_Z (if negative then - m else m) * pow10 k)
               | None => NaN
               end
      end
  end.

(** *** JSON values

    What [response.json()] can hold in a field. *)
#[warnings="-register-all"] Inductive jsval :=
| VNull
| VBool (b : bool)
| VNum (x : number)
| VStr (s : jsstring)
| VArr (elements : list jsval)
| VObj (properties : list (jsstring * jsval)).

(** A JSON value used as a condition. *)
Definition truthy_val (v : jsval) : bool :=
  match v with
  | VNull => false
  | VBool b => b
  | VNum NaN => false
  | VNum (Infinity _) => true
  | VNum (Finite q) => negb (Qeq_bool q 0)
  | VStr s => negb (length s =? 0)%nat
  | VArr _ | VObj _ => true
  end.

Definition has_own (key : jsstring) (properties : list (jsstring * jsval))
    : bool :=
  existsb (fun kv => jsstring_eqb (fst kv) key) properties.

(** Whether the conversion of a value to a string throws.  An object
    made by [JSON.parse] converts through [Object.prototype.toString]
    unless it has a property [toString] of its own, which is no function:
    then the conversion finds no method that returns a primitive and
    throws a [TypeError].  An array converts its elements. *)
Fixpoint toString_throws (v : jsval) : bool :=
  match v with
  | VObj properties => has_own (str "toString") properties
  | VArr elements => existsb toString_throws elements
  | _ => false
  end.

(** [ToNumber], the conversion [Math.min] applies to its arguments.  An
    object reads as the string [[object Object]], hence [NaN]; an array
    reads as its elements joined by commas: the empty array is the empty
    string, hence [0], an array of one element reads as that element
    converted to a string ([null] as the empty string, a number as the
    numeral that reads back as the same number), and a longer array
    holds a comma, hence [NaN]. *)
Fixpoint ToNumber (v : jsval) : result number :=
  match v with
  | VNull => Ok (Finite 0)
  | VBool b => Ok (if b then of_Z 1 else of_Z 0)
  | VNum x => Ok x
  | VStr s => Ok (StringToNumber s)
  | VObj properties =>
      if has_own (str "toString") properties then Throw TypeError else Ok NaN
  | VArr [] => Ok (Finite 0)
  | VArr [VBool _] => Ok NaN
  | VArr [e] => ToNumber e
  | VArr elements =>
      if existsb toString_throws elements then Throw TypeError else Ok NaN
  end.

(** An element of the [list] of a payload: an object with the fields of
    [ApiSearchItem], each of the type the interface declares, or
    [null]. *)
Inductive list_item :=
| Item (item : ApiSearchItem.t)
| NullItem.

(** A parsed JSON body, as far as the module inspects it.  [JNull] is
    [null]; in [JData] the field [list] is [None] when it is missing or
    not an array, and [pagecount] is [None] when it is missing.  A body
    that is no object at all reads as [JData None None]. *)
Inductive json :=
| JNull
| JData (list_ : option (list list_item)) (pagecount : option jsval).

Module Response.
Record t := mk {
  status : N;
  text : jsstring;
  json_ : option json    (* [None]: the body is not JSON *)
}.
Definition ok (r : t) : bool := ((200 <=? status r) && (status r <=? 299))%N.
End Response.

(** What can become of a [fetch] call: it rejects with a [TypeError] on
    a network failure, with an [AbortError] when its signal aborts it,
    or it resolves with a response, whatever the status. *)
Inductive outcome :=
| NetworkFailure
| Aborted
| Resolves (r : Response.t).

Definition M (A : Type) : Type := list Request.t * result A.

Definition ret {A} (a : A) : M A := ([], Ok a).
Definition throw {A} (e : exn) : M A := ([], Throw e).

Definition bind {A B} (m : M A) (k : A -> M B) : M B :=
  match m with
  | (tr, Ok a) => let (tr', r) := k a in (tr ++ tr', r)
  | (tr, Throw e) => (tr, Throw e)
  end.

(** [try { body } catch (error) { handler }] *)
Definition try_catch {A} (body : M A) (handler : exn -> M A) : M A :=
  match body with
  | (tr, Throw e) => let (tr', r) := handler e in (tr ++ tr', r)
  | (tr, Ok a) => (tr, Ok a)
  end.

Definition lift {A} (r : result A) : M A := ([], r).

(** [Array.prototype.map] with a callback that may throw: the first
    element on which it throws ends the map. *)
Fixpoint Array_map {A B} (f : A -> result B) (l : list A) : result (list B) :=
  match l with
  | [] => Ok []
  | x :: t =>
      match f x with
      | Throw e => Throw e
      | Ok y => match Array_map f t with
                | Throw e => Throw e
                | Ok ys => Ok (y :: ys)
                end
      end
  end.

Declare Scope js_scope.
Delimit Scope js_scope with js.
Notation "x <- m ;; k" := (bind m (fun x => k))
  (at level 100, m at next level, right associativity) : js_scope.
Local Open Scope js_scope.

(** [await response.json()] *)
Definition json_of (r : Response.t) : M json :=
  match Response.json_ r with
  | Some d => ret d
  | None => throw SyntaxError
  end.

(** *** [encodeURIComponent] *)

Definition is_uri_unreserved (c : N) : bool :=
  (((65 <=? c) && (c <=? 90)) || ((97 <=? c) && (c <=? 122))
   || ((48 <=? c) && (c <=? 57))
   || existsb (N.eqb c) (str "-_.!~*'()"))%N.

Definition is_high_surrogate (c : N) : bool :=
  ((0xD800 <=? c) && (c <=? 0xDBFF))%N.
Definition is_low_surrogate (c : N) : bool :=
  ((0xDC00 <=? c) && (c <=? 0xDFFF))%N.

Definition hex_digit (n : N) : N :=
  (if n <? 10 then 48 + n else 55 + n)%N.

Definition percent (b : N) : jsstring :=
  [ch "%"; hex_digit (b / 16); hex_digit (b mod 16)]%N.

Definition utf8 (cp : N) : list N :=
  (if cp <? 0x80 then [cp]
   else if cp <? 0x800 then [0xC0 + cp / 64; 0x80 + cp mod 64]
   else if cp <? 0x10000
        then [0xE0 + cp / 4096; 0x80 + (cp / 64) mod 64; 0x80 + cp mod 64]
        else [0xF0 + cp / 262144; 0x80 + (cp / 4096) mod 64;
              0x80 + (cp / 64) mod 64; 0x80 + cp mod 64])%N.

Definition escape (cp : N) : jsstring := concat (map percent (utf8 cp)).

Definition result_map {A B} (f : A -> B) (r : result A) : result B :=
  match r with
  | Ok a => Ok (f a)
  | Throw e => Throw e
  end.

(** Unreserved units are kept, every other code point is written as the
    percent-escapes of its UTF-8 bytes, and a surrogate without its
    partner throws. *)
Fixpoint encodeURIComponent (s : jsstring) : result jsstring :=
  match s with
  | [] => Ok []
  | c :: t =>
      if is_uri_unreserved c then result_map (cons c) (encodeURIComponent t)
      else if is_low_surrogate c then Throw URIError
      else if is_high_surrogate c then
        match t with
        | d :: t' =>
            if is_low_surrogate d
            then result_map
                   (app (escape (0x10000 + (c - 0xD800) * 0x400
                                 + (d - 0xDC00))%N))
                   (encodeURIComponent t')
            else Throw URIError
        | [] => Throw URIError
        end
      else result_map (app (escape c)) (encodeURIComponent t)
  end.

(** *** [Promise.all]

    The promises settle in some order, here by increasing [delay] of
    their index; a fulfilled promise stores its value in the slot of its
    index, the first rejection rejects the join, and the join fulfils with
    the slots once every promise has settled.  The requests of the
    promises were issued when the promises were created, in list order. *)

Inductive join (A : Type) :=
| Waiting (slots : list (option A))
| Rejected (e : exn).
Arguments Waiting {A} slots.
Arguments Rejected {A} e.

Definition settles_before (delay : nat -> nat) (i j : nat) : Prop :=
  delay i <= delay j.

#[global] Instance settles_before_dec (delay : nat -> nat) :
  RelDecision (settles_before delay).
Proof. intros i j. unfold settles_before. apply _. Defined.

Definition settle_order (delay : nat -> nat) (n : nat) : list nat :=
  merge_sort (settles_before delay) (seq 0 n).

Definition settle {A} (results : list (result A)) (st : join A) (i : nat)
    : join A :=
  match st with
  | Rejected e => Rejected e
  | Waiting slots =>
      match results !! i with
      | Some (Ok v) => Waiting (<[i := Some v]> slots)
      | Some (Throw e) => Rejected e
      | None => Waiting slots
      end
  end.

Definition Promise_all {A} (delay : nat -> nat) (promises : list (M A))
    : M (list A) :=
  let results := map snd promises in
  let n := length promises in
  (concat (map fst promises),
   match foldl (settle results) (Waiting (replicate n None))
               (settle_order delay n) with
   | Waiting slots => Ok (omap id slots)
   | Rejected e => Throw e
   end).

(** ** Configuration *)

(** [API_CONFIG] of [@/lib/config], as far as the module reads it. *)
Module ApiConfig.
Record t := mk {
  search_path : jsstring;
  search_pagePath : jsstring;
  search_headers : headers;
  detail_path : jsstring;
  detail_headers : headers
}.
End ApiConfig.

(** The messages of the two errors thrown by [getDetailFromApi] and of
    the one thrown by [handleSpecialSourceDetail], in code units. *)
Definition msg_detail_request_failed : jsstring :=
  [0x8be6; 0x60c5; 0x8bf7; 0x6c42; 0x5931; 0x8d25; 0x3a; 0x20]%N.
Definition msg_detail_invalid : jsstring :=
  [0x83b7; 0x53d6; 0x5230; 0x7684; 0x8be6; 0x60c5; 0x5185; 0x5bb9;
   0x65e0; 0x6548]%N.
Definition msg_page_request_failed : jsstring :=
  [0x8be6; 0x60c5; 0x9875; 0x8bf7; 0x6c42; 0x5931; 0x8d25; 0x3a; 0x20]%N.

(** The patterns of the fields scraped from a detail page, each split at
    its capture group:
    [<h1[^>]*>([^<]+)<\/h1>], [<div[^>]*class=QsketchQ[^>]*>([\s\S]*?)<\/div>]
    with [Q] a double or single quote, [(https?:\/\/Q+?\.jpg)] with the
    class [Q] of the stream patterns, and [>(\d{4})<]. *)
Definition not_gt (c : N) : bool := negb (c =? ch ">")%N.
Definition not_lt (c : N) : bool := negb (c =? ch "<")%N.

Definition title_pre : regex := (Lit (str "<h1") · star not_gt · Lit (str ">"))%re.
Definition title_cap : regex := plus not_lt.
Definition title_post : regex := Lit (str "</h1>").

Definition desc_pre : regex :=
  (Lit (str "<div") · star not_gt · Lit (str "class=") · Cls is_quote
   · Lit (str "sketch") · Cls is_quote · star not_gt · Lit (str ">"))%re.
Definition desc_cap : regex := star_lazy any_unit.
Definition desc_post : regex := Lit (str "</div>").

Definition coverPattern : regex :=
  (Lit (str "http") · opt (N.eqb (ch "s")) · Lit (str "://")
   · plus_lazy url_unit · Lit (str ".jpg"))%re.

(** ** The module *)

(** Lines 179-194 of [getDetailFromApi]: the entries of the first play
    source, each reduced to what follows its first dollar, kept when it
    starts with a scheme. *)
Definition structured_episodes (vod_play_url : option jsstring)
    : list jsstring :=
  if truthy vod_play_url then
    let playSources := split (str "$$$") (default [] vod_play_url) in
    match playSources with
    | mainSource :: _ =>
        let episodeList := split (str "#") mainSource in
        List.filter (fun url : jsstring =>
                       truthy (Some url)
                       && (startsWith (str "http://") url
                           || startsWith (str "https://") url))
               (map (fun ep =>
                       let parts := split (str "$") ep in
                       if (1 <? length parts)%nat then nth 1 parts [] else [])
                    episodeList)
    | [] => []
    end
  else [].

(** Lines 196-199: the scan of the content field. *)
Definition content_episodes (vod_content : jsstring) : list jsstring :=
  let matches := match_all M3U8_PATTERN vod_content in
  map (fun link => replace_anchored (Lit (str "$")) [] link) matches.

(** Lines 177-199. *)
Definition detail_episodes (videoDetail : ApiSearchItem.t) : list jsstring :=
  let episodes := structured_episodes (ApiSearchItem.vod_play_url videoDetail) in
  if (length episodes =? 0)%nat && truthy (ApiSearchItem.vod_content videoDetail)
  then content_episodes (default [] (ApiSearchItem.vod_content videoDetail))
  else episodes.

(** Lines 239-250 of [handleSpecialSourceDetail]: the stricter pattern
    for the source [ffzy], the general one when that finds nothing. *)
Definition scrape_matches (apiSite : ApiSite.t) (html : jsstring)
    : list jsstring :=
  let matches :=
    if jsstring_eqb (ApiSite.key apiSite) (str "ffzy")
    then match_all ffzyPattern html else [] in
  if (length matches =? 0)%nat then match_all generalPattern html
  else matches.

(** Lines 239-256. *)
Definition scrape_episodes (apiSite : ApiSite.t) (html : jsstring)
    : list jsstring :=
  map strip_link (Array_from_Set (scrape_matches apiSite html)).

Section Downstream.

Variable cleanHtmlTags : option jsstring -> jsstring.
Variable API_CONFIG : ApiConfig.t.
Variable MAX_SEARCH_PAGES : Z.

(** What the network answers to each request. *)
Variable network : Request.t -> outcome.

(** The time each additional page of a search takes to settle. *)
Variable delay : nat -> nat.

Definition fetch (req : Request.t) : M Response.t :=
  ([req], match network req with
          | NetworkFailure => Throw TypeError
          | Aborted => Throw AbortError
          | Resolves r => Ok r
          end).

(** The normaliser applied to an element of [list]: on [null] its first
    property read (line 24) throws a [TypeError]. *)
Definition normalize_item (apiSite : ApiSite.t) (element : list_item)
    : result SearchResult.t :=
  match element with
  | Item item => Ok (transformApiSearchItem cleanHtmlTags item apiSite)
  | NullItem => Throw TypeError
  end.

Definition fetchSearchResults (url : jsstring) (apiSite : ApiSite.t)
    : M (list SearchResult.t) :=
  try_catch
    (response <- fetch (Request.mk url (ApiConfig.search_headers API_CONFIG)
                          (Some 8000%N)) ;;
     if negb (Response.ok response) then ret []
     else
       data <- json_of response ;;
       match data with
       | JNull | JData None _ | JData (Some []) _ => ret []
       | JData (Some list_) _ => lift (Array_map (normalize_item apiSite) list_)
       end)
    (fun error => ret []).

(** The pages of the loop [for (page = 2; page <= pagesToFetch; page++)]:
    the integers from 2 that are at most [pagesToFetch]; none when it is
    [NaN].  The bound is the minimum of a number and the finite
    [MAX_SEARCH_PAGES], hence never [+Infinity]. *)
Definition additional_pages (pagesToFetch : number) : list Z :=
  match pagesToFetch with
  | Finite q => map (fun k => Z.of_nat k) (seq 2 (Z.to_nat (Qfloor q - 1)))
  | _ => []
  end.

Definition pageUrl (apiBaseUrl query : jsstring) (page : Z) : jsstring :=
  replace_first (str "{page}") (N_toString (Z.to_N page))
    (replace_first (str "{query}") query
       (apiBaseUrl ++ ApiConfig.search_pagePath API_CONFIG)).

(** [data.pagecount || 1] *)
Definition pagecount_or_1 (pagecount : option jsval) : jsval :=
  match pagecount with
  | Some v => if truthy_val v then v else VNum (of_Z 1)
  | None => VNum (of_Z 1)
  end.

Definition searchFromApi (apiSite : ApiSite.t) (query : jsstring)
    : M (list SearchResult.t) :=
  let apiBaseUrl := ApiSite.api apiSite in
  encoded <- lift (encodeURIComponent query) ;;
  let initialUrl :=
    apiBaseUrl ++ ApiConfig.search_path API_CONFIG ++ encoded in
  try_catch
    (initialResults <- fetchSearchResults initialUrl apiSite ;;
     if (length initialResults =? 0)%nat then ret []
     else
       response <- fetch (Request.mk initialUrl
                            (ApiConfig.search_headers API_CONFIG) None) ;;
       data <- json_of response ;;
       pageCount <- match data with
                    | JNull => throw TypeError
                    | JData _ pagecount => ret (pagecount_or_1 pagecount)
                    end ;;
       count <- lift (ToNumber pageCount) ;;
       let pagesToFetch := Math_min count (of_Z MAX_SEARCH_PAGES) in
       if num_le pagesToFetch (of_Z 1) then ret initialResults
       else
         let pagePromises :=
           map (fun page =>
                  fetchSearchResults (pageUrl apiBaseUrl encoded page) apiSite)
               (additional_pages pagesToFetch) in
         additionalResults <- Promise_all delay pagePromises ;;
         ret (initialResults ++ concat additionalResults))
    (fun error => ret []).

Definition handleSpecialSourceDetail (id : jsstring) (apiSite : ApiSite.t)
    : M SearchResult.t :=
  let detailUrl :=
    default [] (ApiSite.detail apiSite)
    ++ str "/index.php/vod/detail/id/" ++ id ++ str ".html" in
  response <- fetch (Request.mk detailUrl
                       (ApiConfig.detail_headers API_CONFIG)
                       (Some 10000%N)) ;;
  if negb (Response.ok response)
  then throw (Error (msg_page_request_failed
                       ++ N_toString (Response.status response)))
  else
    let html := Response.text response in
    let matches := scrape_episodes apiSite html in
    let titleText :=
      match match_group title_pre title_cap title_post html with
      | Some t => trim t
      | None => []
      end in
    let descText :=
      match match_group desc_pre desc_cap desc_post html with
      | Some d => cleanHtmlTags (Some d)
      | None => []
      end in
    let coverUrl :=
      match match_all coverPattern html with
      | c :: _ => trim c
      | [] => []
      end in
    let yearText :=
      match match_group (Lit (str ">")) four_digits (Lit (str "<")) html with
      | Some y => y
      | None => str "unknown"
      end in
    ret {| SearchResult.id := id;
           SearchResult.title := titleText;
           SearchResult.poster := coverUrl;
           SearchResult.episodes := matches;
           SearchResult.source := ApiSite.key apiSite;
           SearchResult.source_name := ApiSite.name apiSite;
           SearchResult.class := Some [];
           SearchResult.year := yearText;
           SearchResult.desc := descText;
           SearchResult.type_name := Some [];
           SearchResult.douban_id := Some 0%Z |}.

(** The JSON branch of [getDetailFromApi], lines 149-215. *)
Definition getDetailFromJson (apiSite : ApiSite.t) (id : jsstring)
    : M SearchResult.t :=
  let detailUrl :=
    ApiSite.api apiSite ++ ApiConfig.detail_path API_CONFIG ++ id in
  response <- fetch (Request.mk detailUrl
                       (ApiConfig.detail_headers API_CONFIG)
                       (Some 10000%N)) ;;
  if negb (Response.ok response)
  then throw (Error (msg_detail_request_failed
                       ++ N_toString (Response.status response)))
  else
    data <- json_of response ;;
    match data with
    | JNull | JData None _ | JData (Some []) _ =>
        throw (Error msg_detail_invalid)
    | JData (Some (NullItem :: _)) _ => throw TypeError
    | JData (Some (Item videoDetail :: _)) _ =>
        ret {| SearchResult.id := id;
               SearchResult.title := ApiSearchItem.vod_name videoDetail;
               SearchResult.poster := ApiSearchItem.vod_pic videoDetail;
               SearchResult.episodes := detail_episodes videoDetail;
               SearchResult.source := ApiSite.key apiSite;
               SearchResult.source_name := ApiSite.name apiSite;
               SearchResult.class := ApiSearchItem.vod_class videoDetail;
               SearchResult.year :=
                 normalize_year (ApiSearchItem.vod_year videoDetail);
               SearchResult.desc :=
                 cleanHtmlTags (ApiSearchItem.vod_content videoDetail);
               SearchResult.type_name := ApiSearchItem.type_name videoDetail;
               SearchResult.douban_id :=
                 ApiSearchItem.vod_douban_id videoDetail |}
    end.

Definition getDetailFromApi (apiSite : ApiSite.t) (id : jsstring)
    : M SearchResult.t :=
  if truthy (ApiSite.detail apiSite)
  then handleSpecialSourceDetail id apiSite
  else getDetailFromJson apiSite id.

End Downstream.

(** ** Vocabulary of the specification *)

(** The texts a pattern can match. *)
Fixpoint lang (r : regex) (m : jsstring) : Prop :=
  match r with
  | Lit w => m = w
  | Cls p => exists c, m = [c] /\ p c = true
  | Rep p lo hi _ =>
      Forall (fun c => p c = true) m /\ lo <= length m
      /\ (forall h, hi = Some h -> length m <= h)
  | Seq r1 r2 => exists m1 m2, m = m1 ++ m2 /\ lang r1 m1 /\ lang r2 m2
  end.


(** An absolute [http(s)] URL, as the filter of [getDetailFromApi]
    tests it. *)
Definition is_http_url (u : jsstring) : bool :=
  startsWith (str "http://") u || startsWith (str "https://") u.

(** A URL ending in the stream-manifest extension. *)
Definition is_m3u8 (u : jsstring) : bool := endsWith (str ".m3u8") u.

(** The invariant the specification states for [episodes]. *)
Definition episodes_invariant (l : list jsstring) : Prop :=
  NoDup l /\ Forall (fun u => is_http_url u = true /\ is_m3u8 u = true) l.

(** A match of one of the dollar-prefixed stream patterns. *)
Definition dollar_url (m : jsstring) : Prop :=
  exists u, m = ch "$" :: u /\ is_http_url u = true /\ is_m3u8 u = true.

(** Deduplication by exact string equality that preserves first-seen
    order: an element is kept, and its later occurrences are dropped. *)
Fixpoint first_seen (l : list jsstring) : list jsstring :=
  match l with
  | [] => []
  | x :: t => x :: List.filter (fun y => negb (jsstring_eqb y x)) (first_seen t)
  end.

(** The group with the greatest number of matches, ties keeping the
    first such group; no match at all when there is no group. *)
Definition richest (groups : list (list jsstring)) : list jsstring :=
  let most := max_list (map length groups) in
  default [] (List.find (fun g => length g =? most) groups).

(** Delimited-list extraction in the words of the specification: split
    on the triple dollar, take the richest group, strip the dollar and
    trim the suffix of each match, then deduplicate. *)
Definition spec_delimited_episodes (vod_play_url : jsstring) : list jsstring :=
  first_seen
    (map strip_link
       (richest (map (match_all m3u8Regex) (split (str "$$$") vod_play_url)))).

(** The matches delimited-list extraction selects: those of the richest
    group of the play list. *)
Definition selected_matches (vod_play_url : jsstring) : list jsstring :=
  richest (map (match_all m3u8Regex) (split (str "$$$") vod_play_url)).

(** No parenthesis in any of the matches. *)
Definition no_paren (matches : list jsstring) : Prop :=
  Forall (fun m => ~ In (ch "(") m) matches.

(** ** Sample inputs *)

Definition sample_site : ApiSite.t :=
  ApiSite.mk (str "demo") (str "http://api.test") (str "Demo") None.

Definition sample_scrape_site : ApiSite.t :=
  ApiSite.mk (str "ffzy") (str "http://api.test") (str "FF")
             (Some (str "http://ffzy.test")).

Definition sample_config : ApiConfig.t :=
  ApiConfig.mk (str "?ac=videolist&wd=")
               (str "?ac=videolist&wd={query}&pg={page}") []
               (str "?ac=videolist&ids=") [].

Definition sample_clean (o : option jsstring) : jsstring := default [] o.

(** An item with the given name, play list, year and content. *)
Definition sample_item (vod_name : string) (vod_play_url vod_year
    vod_content : option string) : ApiSearchItem.t :=
  ApiSearchItem.mk (str "42") (str vod_name) (str "http://img.test/p.jpg")
    None (option_map str vod_play_url) None (option_map str vod_year)
    (option_map str vod_content) None None.

(** Two matches that differ only after a parenthesis. *)
Definition paren_item : ApiSearchItem.t :=
  sample_item "A" (Some "$http://a(1.m3u8#$http://a(2.m3u8"%string) None None.

(** A structured play list of two identical links to a file that is no
    stream manifest. *)
Definition mp4_item : ApiSearchItem.t :=
  sample_item "B" (Some "ep1$http://a.test/1.mp4#ep2$http://a.test/1.mp4"%string)
              None None.

Definition plain_item : ApiSearchItem.t :=
  sample_item "C"
    (Some "x$http://a.test/1.m3u8$$$y$http://b.test/1.m3u8#z$http://b.test/2.m3u8"%string)
    (Some "2011"%string) (Some "text"%string).

(** A network that answers every request with the same response. *)
Definition always (r : Response.t) (_ : Request.t) : outcome := Resolves r.

Definition json_response (items : list ApiSearchItem.t) (pagecount : option Z)
    : Response.t :=
  Response.mk 200 []
    (Some (JData (Some (map Item items))
                 (option_map (fun n => VNum (of_Z n)) pagecount))).

Definition html_response (html : string) : Response.t :=
  Response.mk 200 (str html) None.

(** What a computation returns, if it returns. *)
Definition returned {A} (m : M A) : option A :=
  match snd m with
  | Ok a => Some a
  | Throw _ => None
  end.

Definition plain_html : string :=
  "<h1>T</h1> $http://a.test/1.m3u8 $http://a.test/2.m3u8 $http://a.test/1.m3u8".

(** The JSON detail of [mp4_item] and of [plain_item], and the scraped
    detail of [plain_html]. *)
Definition mp4_detail : M SearchResult.t :=
  getDetailFromApi sample_clean sample_config
    (always (json_response [mp4_item] None)) sample_site (str "42").

Definition plain_detail : M SearchResult.t :=
  getDetailFromApi sample_clean sample_config
    (always (json_response [plain_item] None)) sample_site (str "42").

Definition plain_scrape : M SearchResult.t :=
  getDetailFromApi sample_clean sample_config
    (always (html_response plain_html)) sample_scrape_site (str "42").

Definition plain_detail_result : SearchResult.t :=
  Eval vm_compute in
    match snd plain_detail with
    | Ok r => r
    | Throw _ => transformApiSearchItem sample_clean plain_item sample_site
    end.

Definition plain_scrape_result : SearchResult.t :=
  Eval vm_compute in
    match snd plain_scrape with
    | Ok r => r
    | Throw _ => transformApiSearchItem sample_clean plain_item sample_site
    end.

(** The play list of the specification's example: a parenthesised
    suffix follows the first link, outside the match. *)
Definition clip_item : ApiSearchItem.t :=
  sample_item "F"
    (Some "$https://a.com/1.m3u8(clip)$$$https://b.com/1.m3u8#$https://b.com/2.m3u8"%string)
    None None.

(** A page with a script that holds parentheses, and three links. *)
Definition script_html : string :=
  "<h1>T</h1><script>init()</script> $http://a.test/1.m3u8 $http://a.test/2.m3u8 $http://a.test/1.m3u8".

Definition script_scrape : M SearchResult.t :=
  getDetailFromApi sample_clean sample_config
    (always (html_response script_html)) sample_scrape_site (str "42").

Definition script_scrape_result : SearchResult.t :=
  Eval vm_compute in
    match snd script_scrape with
    | Ok r => r
    | Throw _ => transformApiSearchItem sample_clean plain_item sample_site
    end.

(** The first four consecutive digits of a string: the first window of
    four units that are all digits. *)
Fixpoint first_four_digits (s : jsstring) : option jsstring :=
  match s with
  | [] => None
  | _ :: t =>
      if (length (take 4 s) =? 4) && forallb is_digit (take 4 s)
      then Some (take 4 s)
      else first_four_digits t
  end.

(** The scan of the content field in the words of the specification:
    the matches of the general dollar-prefixed pattern, without their
    dollar. *)
Definition spec_content_scan (vod_content : jsstring) : list jsstring :=
  map (drop 1) (match_all generalPattern vod_content).

(** An item whose only stream link sits in its content, without a
    dollar before it. *)
Definition content_item : ApiSearchItem.t :=
  sample_item "D" None None (Some "see http://c.test/v.m3u8"%string).

Definition content_detail : M SearchResult.t :=
  getDetailFromApi sample_clean sample_config
    (always (json_response [content_item] None)) sample_site (str "42").

(** An item whose name has white space around and inside it. *)
Definition spaced_item : ApiSearchItem.t :=
  ApiSearchItem.mk (str "42") (str " Foo" ++ [10; 9]%N ++ str "Bar  ")
    (str "http://img.test/p.jpg") None None None None None None None.

Definition spaced_detail : M SearchResult.t :=
  getDetailFromApi sample_clean sample_config
    (always (json_response [spaced_item] None)) sample_site (str "42").

(** The request of the JSON branch of [getDetailFromApi]. *)
Definition detail_request (cfg : ApiConfig.t) (apiSite : ApiSite.t)
    (id : jsstring) : Request.t :=
  Request.mk (ApiSite.api apiSite ++ ApiConfig.detail_path cfg ++ id)
             (ApiConfig.detail_headers cfg) (Some 10000%N).

(** The two kinds of failure the specification names: a failed request,
    recognised by the head of its message, and an invalid payload. *)
Definition request_failed {A} (res : result A) : bool :=
  match res with
  | Throw (Error message) => startsWith msg_detail_request_failed message
  | _ => false
  end.

Definition invalid_payload {A} (res : result A) : Prop :=
  res = Throw (Error msg_detail_invalid).

(** A parsed body without a non-empty [list] array. *)
Definition lacks_list (data : json) : bool :=
  match data with
  | JData (Some (_ :: _)) _ => false
  | _ => true
  end.

(** A parsed body whose [list] starts with [null]. *)
Definition first_is_null (data : json) : bool :=
  match data with
  | JData (Some (NullItem :: _)) _ => true
  | _ => false
  end.

Definition not_found_response : Response.t :=
  Response.mk 404 (str "Not Found") None.

Definition empty_list_response : Response.t :=
  Response.mk 200 [] (Some (JData (Some []) None)).

(** A request of the search, with its timeout. *)
Definition search_request (cfg : ApiConfig.t) (url : jsstring)
    (timeout : option N) : Request.t :=
  Request.mk url (ApiConfig.search_headers cfg) timeout.

(** What one page contributes: the results of [fetchSearchResults]. *)
Definition page_results (clean : option jsstring -> jsstring)
    (cfg : ApiConfig.t) (net : Request.t -> outcome) (site : ApiSite.t)
    (url : jsstring) : list SearchResult.t :=
  match snd (fetchSearchResults clean cfg net url site) with
  | Ok results => results
  | Throw _ => []
  end.

(** A network on which the fetches that carry a timeout succeed and the
    one that carries none fails. *)
Definition recount_fails (req : Request.t) : outcome :=
  match Request.timeout req with
  | Some _ => Resolves (json_response [plain_item] (Some 5%Z))
  | None => NetworkFailure
  end.

(** A network that serves one item on every page and announces its five
    pages as a string. *)
Definition string_count_response : Response.t :=
  Response.mk 200 []
    (Some (JData (Some [Item plain_item]) (Some (VStr (str "5"))))).

Definition string_count_net : Request.t -> outcome :=
  always string_count_response.


(** A string that is one unpaired surrogate. *)
Definition lone_surrogate : jsstring := [0xD800%N].

(** A string without unpaired surrogate. *)
Fixpoint well_formed (s : jsstring) : bool :=
  match s with
  | [] => true
  | c :: t =>
      if is_low_surrogate c then false
      else if is_high_surrogate c then
        match t with
        | d :: t' => is_low_surrogate d && well_formed t'
        | [] => false
        end
      else well_formed t
  end.

(** A network that serves one item on every page and announces five
    pages, and additional pages that settle last page first. *)
Definition sample_net : Request.t -> outcome :=
  always (json_response [plain_item] (Some 5%Z)).

Definition reversed (i : nat) : nat := 5 - i.

Definition sample_first_url : jsstring :=
  str "http://api.test?ac=videolist&wd=a%20b".

Definition sample_page_url (page : Z) : jsstring :=
  pageUrl sample_config (str "http://api.test") (str "a%20b") page.

Definition sample_search : M (list SearchResult.t) :=
  searchFromApi sample_clean sample_config 3 sample_net reversed sample_site
    (str "a b").

(** The slots of a join after the promise of index [i] has fulfilled
    with its value of [vals]. *)
Definition fill_slot {A} (vals : list A) (slots : list (option A)) (i : nat)
    : list (option A) :=
  match vals !! i with
  | Some v => <[i := Some v]> slots
  | None => slots
  end.

(** ** The orchestration in closed form *)

(** What a search amounts to: the requests it issues and what it returns,
    without the join and without the order in which pages settle. *)
Definition search_outcome (clean : option jsstring -> jsstring)
    (cfg : ApiConfig.t) (MAX : Z) (net : Request.t -> outcome)
    (site : ApiSite.t) (query : jsstring) : M (list SearchResult.t) :=
  match encodeURIComponent query with
  | Throw e => ([], Throw e)
  | Ok encoded =>
      let base := ApiSite.api site in
      let initialUrl := base ++ ApiConfig.search_path cfg ++ encoded in
      let first := search_request cfg initialUrl (Some 8000%N) in
      let recount := search_request cfg initialUrl None in
      let results := page_results clean cfg net site in
      match results initialUrl with
      | [] => ([first], Ok [])
      | _ :: _ =>
          match net recount with
          | Resolves resp =>
              match Response.json_ resp with
              | Some (JData _ pagecount) =>
                  match ToNumber (pagecount_or_1 pagecount) with
                  | Ok count =>
                      let pages :=
                        additional_pages (Math_min count (of_Z MAX)) in
                      (first :: recount
                         :: map (fun page =>
                                   search_request cfg
                                     (pageUrl cfg base encoded page)
                                     (Some 8000%N)) pages,
                       Ok (results initialUrl
                           ++ concat
                                (map (fun page =>
                                        results (pageUrl cfg base encoded page))
                                     pages)))
                  | Throw _ => ([first; recount], Ok [])
                  end
              | _ => ([first; recount], Ok [])
              end
          | _ => ([first; recount], Ok [])
          end
      end
  end.

(** The request of the HTML branch of [getDetailFromApi]. *)
Definition scrape_request (cfg : ApiConfig.t) (apiSite : ApiSite.t)
    (id : jsstring) : Request.t :=
  Request.mk (default [] (ApiSite.detail apiSite)
              ++ str "/index.php/vod/detail/id/" ++ id ++ str ".html")
             (ApiConfig.detail_headers cfg) (Some 10000%N).

(** The fields [handleSpecialSourceDetail] reads off a page (lines
    258-270). *)
Definition scraped_title (html : jsstring) : jsstring :=
  match match_group title_pre title_cap title_post html with
  | Some t => trim t
  | None => []
  end.

Definition scraped_poster (html : jsstring) : jsstring :=
  match match_all coverPattern html with
  | c :: _ => trim c
  | [] => []
  end.

Definition scraped_year (html : jsstring) : jsstring :=
  match match_group (Lit (str ">")) four_digits (Lit (str "<")) html with
  | Some y => y
  | None => str "unknown"
  end.

(** The request of a detail lookup, in either branch. *)
Definition detail_lookup_request (cfg : ApiConfig.t) (apiSite : ApiSite.t)
    (id : jsstring) : Request.t :=
  if truthy (ApiSite.detail apiSite) then scrape_request cfg apiSite id
  else detail_request cfg apiSite id.

Definition sample_page : string :=
  "<h1 class='t'> The Title </h1><span>2020</span><img src='http://img.test/c.jpg'> $http://a.test/20200101/12_ab/index.m3u8 $http://b.test/x.m3u8".

(** The values a year field can take: the word [unknown], the empty
    string, or four digits. *)
Definition year_shape (y : jsstring) : Prop :=
  y = str "unknown" \/ y = [] \/ (length y = 4 /\ forallb is_digit y = true).

(** [u] occurs in [s] as a contiguous part. *)
Definition factor (u s : jsstring) : Prop := exists a b, s = a ++ u ++ b.

Definition sample_scrape : M SearchResult.t :=
  getDetailFromApi sample_clean sample_config
    (always (html_response sample_page)) sample_scrape_site (str "42").

Definition sample_scrape_result : SearchResult.t :=
  Eval vm_compute in
    match snd sample_scrape with
    | Ok r => r
    | Throw _ => transformApiSearchItem sample_clean plain_item sample_site
    end.

(** ** Vocabulary for titles *)

(** The longest prefix made of units of a class. *)
Fixpoint run (p : N -> bool) (s : jsstring) : jsstring :=
  match s with
  | c :: t => if p c then c :: run p t else []
  | [] => []
  end.

(** Each run of white space replaced by one space. *)
Fixpoint collapse (s : jsstring) : jsstring :=
  match s with
  | [] => []
  | c :: t =>
      if is_space c then
        match t with
        | d :: _ => if is_space d then collapse t else ch " " :: collapse t
        | [] => [ch " "]
        end
      else c :: collapse t
  end.

(** Every white-space unit is a space, and no white-space unit follows
    it. *)
Fixpoint single_spaced (s : jsstring) : bool :=
  match s with
  | [] => true
  | c :: t =>
      (if is_space c
       then (c =? ch " ")%N
            && match t with d :: _ => negb (is_space d) | [] => true end
       else true)
      && single_spaced t
  end.

(** A title in normal form: single spaces only, none at either end. *)
Definition title_normal (t : jsstring) : Prop :=
  single_spaced t = true
  /\ (forall c, head t = Some c -> is_space c = false)
  /\ (forall c, last t = Some c -> is_space c = false).

(** The units of a string that are not white space. *)
Definition visible (s : jsstring) : jsstring :=
  List.filter (fun c => negb (is_space c)) s.

(** A string of UTF-16 code units: every unit is below [2^16]. *)
Definition code_units (s : jsstring) : bool :=
  forallb (fun u => (u <? 65536)%N) s.

(** A detail page with a synopsis and a second closing tag after it. *)
Definition sketch_page : string :=
  "<h1>T</h1><div id=x class='sketch'> A story </div> more </div>".

Definition sketch_scrape : M SearchResult.t :=
  getDetailFromApi sample_clean sample_config
    (always (html_response sketch_page)) sample_scrape_site (str "42").

Definition sketch_scrape_result : SearchResult.t :=
  Eval vm_compute in
    match snd sketch_scrape with
    | Ok r => r
    | Throw _ => transformApiSearchItem sample_clean plain_item sample_site
    end.

(** * Properties *)

(** ** The primitives on the examples of the specification *)

Example split_triple_dollar :
  split (str "$$$") (str "a$$$$b$$$") = [str "a"; str "$b"; []].
Proof. reflexivity. Qed.

Example match_is_lazy :
  match_all m3u8Regex (str "x$http://a/1.m3u8.m3u8 $https://b/2.m3u8(hd)")
  = [str "$http://a/1.m3u8"; str "$https://b/2.m3u8"].
Proof. vm_compute. reflexivity. Qed.

Example title_example :
  normalize_title (str " Foo" ++ [10; 9]%N ++ str "Bar  ") = str "Foo Bar".
Proof. vm_compute. reflexivity. Qed.

Example year_example :
  normalize_year (Some (str "2011" ++ [0x5E74%N])) = str "2011"
  /\ normalize_year (Some []) = str "unknown"
  /\ normalize_year None = str "unknown".
Proof. repeat split; vm_compute; reflexivity. Qed.

Example richest_group_example :
  item_episodes
    (sample_item "F"
       (Some "$https://a.com/1.m3u8(clip)$$$https://b.com/1.m3u8#$https://b.com/2.m3u8"%string)
       None None)
  = [str "https://a.com/1.m3u8"].
Proof. vm_compute. reflexivity. Qed.

Example ffzy_example :
  scrape_episodes sample_scrape_site
    (str "$http://a/20200101/12_ab/index.m3u8 $http://b/x.m3u8")
  = [str "http://a/20200101/12_ab/index.m3u8"]
  /\ scrape_episodes sample_site
       (str "$http://a/20200101/12_ab/index.m3u8 $http://b/x.m3u8")
     = [str "http://a/20200101/12_ab/index.m3u8"; str "http://b/x.m3u8"].
Proof. split; vm_compute; reflexivity. Qed.

Example encode_example :
  encodeURIComponent (str "a b$c") = Ok (str "a%20b%24c")
  /\ encodeURIComponent [0xD83D; 0xDE00]%N = Ok (str "%F0%9F%98%80").
Proof. split; vm_compute; reflexivity. Qed.

Example number_of_string_example :
  StringToNumber (str "5") = of_Z 5
  /\ StringToNumber (str " 2.5 ") = Finite (5 # 2)
  /\ StringToNumber (str "1e1") = of_Z 10
  /\ StringToNumber (str "0x1F") = of_Z 31
  /\ StringToNumber [] = of_Z 0
  /\ StringToNumber (str "abc") = NaN
  /\ StringToNumber (str "5 pages") = NaN
  /\ StringToNumber (str "-Infinity") = Infinity true
  /\ StringToNumber (str "1e400") = Infinity false
  /\ StringToNumber (str "2.9999999999999999") = of_Z 3
  /\ StringToNumber (str "9007199254740993") = of_Z 9007199254740992.
Proof. repeat split; vm_compute; reflexivity. Qed.

Example to_number_example :
  ToNumber (VBool true) = Ok (of_Z 1)
  /\ ToNumber (VArr []) = Ok (of_Z 0)
  /\ ToNumber (VArr [VArr [VStr (str "7")]]) = Ok (of_Z 7)
  /\ ToNumber (VArr [VNum (of_Z 1); VNum (of_Z 2)]) = Ok NaN
  /\ ToNumber (VObj []) = Ok NaN
  /\ ToNumber (VObj [(str "toString", VNull)]) = Throw TypeError.
Proof. repeat split; vm_compute; reflexivity. Qed.

Example pages_example :
  additional_pages (Math_min (of_Z 5) (of_Z 3)) = [2; 3]%Z
  /\ additional_pages (Math_min (Finite (5 # 2)) (of_Z 3)) = [2]%Z
  /\ additional_pages (Math_min (Infinity false) (of_Z 3)) = [2; 3]%Z
  /\ additional_pages (Math_min (of_Z (-4)) (of_Z 3)) = []
  /\ additional_pages (Math_min NaN (of_Z 3)) = [].
Proof. repeat split; vm_compute; reflexivity. Qed.

Example join_example :
  Promise_all reversed [ret 1; ret 2; ret 3] = ([], Ok [1; 2; 3])
  /\ settle_order reversed 3 = [2; 1; 0].
Proof. split; vm_compute; reflexivity. Qed.

(** ** Strings *)

Lemma startsWith_true (w s : jsstring) :
  startsWith w s = true -> s = w ++ drop (length w) s.
Proof.
  revert s. induction w as [|p w IH]; intros s H; simpl in *.
  - reflexivity.
  - destruct s as [|c s]; [discriminate|].
    apply andb_true_iff in H as [Hc Hw]. apply N.eqb_eq in Hc. subst c.
    simpl. f_equal. apply IH, Hw.
Qed.

Lemma startsWith_app (w t : jsstring) : startsWith w (w ++ t) = true.
Proof.
  induction w as [|p w IH]; simpl; [reflexivity|].
  rewrite N.eqb_refl. exact IH.
Qed.

Lemma startsWith_prefix (w s : jsstring) :
  startsWith w s = true <-> exists t, s = w ++ t.
Proof.
  split.
  - intros H. eexists. apply startsWith_true, H.
  - intros [t ->]. apply startsWith_app.
Qed.

Lemma endsWith_app (suf a : jsstring) : endsWith suf (a ++ suf) = true.
Proof. unfold endsWith. rewrite rev_app_distr. apply startsWith_app. Qed.

(** ** Regular expressions: what a match looks like *)

Lemma parse_rep_sound p g lo hi s m rest :
  In (m, rest) (parse_rep p g lo hi s) ->
  s = m ++ rest /\ lang (Rep p lo hi g) m.
Proof.
  revert lo hi m rest. induction s as [|c t IH]; intros lo hi m rest Hin.
  - assert (Hstop : lo = 0 /\ (m, rest) = ([], @nil N)).
    { simpl in Hin. destruct lo; destruct g; simpl in Hin;
        intuition (try discriminate; auto). }
    destruct Hstop as [-> [= -> ->]]. simpl.
    repeat split; auto. intros h _. lia.
  - assert (Hcases :
      (lo = 0 /\ (m, rest) = ([], c :: t)) \/
      (p c = true /\ hi_zero hi = false /\
       exists m', m = c :: m' /\
         In (m', rest) (parse_rep p g (pred lo) (option_map pred hi) t))).
    { simpl in Hin.
      assert (Hmore : forall l,
        In (m, rest)
           (if p c && negb (hi_zero hi)
            then map (fun mr => (c :: fst mr, snd mr)) l else []) ->
        p c = true /\ hi_zero hi = false /\
        exists m', m = c :: m' /\ In (m', rest) l).
      { intros l Hl. destruct (p c); simpl in Hl; [|contradiction].
        destruct (hi_zero hi); simpl in Hl; [contradiction|].
        apply in_map_iff in Hl as [[m' r'] [[= <- <-] Hl]]. eauto. }
      destruct g; apply in_app_iff in Hin as [Hin|Hin];
        try (right; apply Hmore in Hin; exact Hin);
        left; destruct lo; simpl in Hin; intuition (try discriminate; auto). }
    destruct Hcases as [[-> [= -> ->]] | (Hp & Hhi & m' & -> & Hin')].
    + simpl. repeat split; auto. intros h _. lia.
    + apply IH in Hin' as [-> (Hall & Hlo & Hup)]. simpl.
      repeat split; auto.
      * lia.
      * intros h ->. destruct h as [|h]; [discriminate|].
        specialize (Hup h eq_refl). lia.
Qed.

Lemma parse_sound r s m rest :
  In (m, rest) (parse r s) -> s = m ++ rest /\ lang r m.
Proof.
  revert s m rest. induction r as [w|p|p lo hi g|r1 IH1 r2 IH2];
    intros s m rest Hin; simpl in Hin.
  - destruct (startsWith w s) eqn:Hw; [|contradiction].
    destruct Hin as [[= <- <-]|[]]. split; [|reflexivity].
    apply startsWith_true, Hw.
  - destruct s as [|c t]; [contradiction|].
    destruct (p c) eqn:Hp; [|contradiction].
    destruct Hin as [[= <- <-]|[]]. split; [reflexivity|].
    simpl. eauto.
  - apply parse_rep_sound, Hin.
  - apply in_flat_map in Hin as [[m1 s1] [H1 Hin]].
    apply in_map_iff in Hin as [[m2 s2] [E H2]]. simpl in E, H2.
    injection E as <- <-.
    apply IH1 in H1 as [-> L1]. apply IH2 in H2 as [-> L2]. simpl.
    split; [apply app_assoc|]. eauto.
Qed.

Lemma match_here_sound r s m :
  match_here r s = Some m -> lang r m /\ exists rest, s = m ++ rest.
Proof.
  unfold match_here. destruct (parse r s) as [|[m' rest] l] eqn:Hp;
    [discriminate|]. intros [= <-].
  destruct (parse_sound r s m' rest) as [-> L]; [rewrite Hp; left; auto|].
  eauto.
Qed.

(** Every match of a global search is a match of the pattern and a
    factor of the input. *)
Lemma match_all_go_sound r k s m :
  In m (match_all_go r k s) ->
  lang r m /\ exists a b, s = a ++ m ++ b.
Proof.
  revert k. induction s as [|c t IH]; intros k Hin.
  - destruct k; simpl in Hin; [|contradiction].
    destruct (match_here r []) as [m'|] eqn:Hm; [|contradiction].
    destruct Hin as [<-|[]].
    apply match_here_sound in Hm as [L [rest E]]. split; [exact L|].
    exists [], rest. exact E.
  - assert (Htail : forall k', In m (match_all_go r k' t) ->
              lang r m /\ exists a b, c :: t = a ++ m ++ b).
    { intros k' H. apply IH in H as [L (a & b & E)]. split; [exact L|].
      exists (c :: a), b. rewrite E. reflexivity. }
    destruct k; simpl in Hin; [|eauto].
    destruct (match_here r (c :: t)) as [m'|] eqn:Hm; [|eauto].
    destruct Hin as [<-|Hin]; [|eauto].
    apply match_here_sound in Hm as [L [rest E]]. split; [exact L|].
    exists [], rest. exact E.
Qed.

Lemma match_all_sound r s m :
  In m (match_all r s) -> lang r m /\ exists a b, s = a ++ m ++ b.
Proof. apply match_all_go_sound. Qed.

Lemma match_first_sound r s m :
  match_first r s = Some m -> lang r m.
Proof.
  induction s as [|c t IH]; simpl.
  - destruct (match_here r []) eqn:Hm; [|discriminate].
    intros [= <-]. apply match_here_sound in Hm. tauto.
  - destruct (match_here r (c :: t)) eqn:Hm; [|exact IH].
    intros [= <-]. apply match_here_sound in Hm. tauto.
Qed.

(** ** The stream patterns *)

Lemma lang_opt_s m :
  lang (opt (N.eqb (ch "s"))) m -> m = [] \/ m = str "s".
Proof.
  intros (Hall & _ & Hup). specialize (Hup 1 eq_refl).
  destruct m as [|c [|d m]]; simpl in Hup; [auto| |lia].
  right. apply Forall_inv in Hall. apply N.eqb_eq in Hall. subst c.
  reflexivity.
Qed.

Lemma is_m3u8_app (a : jsstring) : is_m3u8 (a ++ str ".m3u8") = true.
Proof. apply endsWith_app. Qed.

Lemma lang_m3u8_url u :
  lang m3u8_url u -> is_http_url u = true /\ is_m3u8 u = true.
Proof.
  intros (h & r1 & -> & -> & o & r2 & -> & Ho & c & r3 & -> & -> & b & e
          & -> & _ & ->).
  split.
  - apply lang_opt_s in Ho as [-> | ->]; reflexivity.
  - rewrite !app_assoc. apply is_m3u8_app.
Qed.

Lemma lang_generalPattern m : lang generalPattern m -> dollar_url m.
Proof.
  intros (d & u & -> & -> & Hu). exists u. split; [reflexivity|].
  apply lang_m3u8_url, Hu.
Qed.

Lemma lang_ffzyPattern m : lang ffzyPattern m -> dollar_url m.
Proof.
  intros (d & r0 & -> & -> & h & r1 & -> & -> & o & r2 & -> & Ho & c & r3
          & -> & -> & b & r4 & -> & _ & s1 & r5 & -> & -> & d8 & r6 & -> & _
          & s2 & r7 & -> & -> & dn & r8 & -> & _ & us & r9 & -> & -> & hx
          & e & -> & _ & ->).
  eexists. split; [reflexivity|]. split.
  - apply lang_opt_s in Ho as [-> | ->]; reflexivity.
  - change (str "/index.m3u8") with (str "/index" ++ str ".m3u8").
    rewrite !app_assoc. apply is_m3u8_app.
Qed.

(** ** [substring], [indexOf] and the link callback *)

Lemma substring_from_1 (s : jsstring) : substring s 1 None = drop 1 s.
Proof.
  unfold substring. destruct s as [|c t]; [reflexivity|].
  cbn [length]. 
  replace (Z.to_nat (Z.min (Z.min (Z.max 1 0) (Z.of_nat (S (length t))))
                           (Z.of_nat (S (length t))))) with 1 by lia.
  replace (Z.to_nat (Z.max (Z.min (Z.max 1 0) (Z.of_nat (S (length t))))
                           (Z.of_nat (S (length t))))) with (S (length t))
    by lia.
  simpl. rewrite Nat.sub_0_r. apply firstn_all.
Qed.

Lemma substring_to (s : jsstring) (i : Z) :
  (0 <= i)%Z -> substring s 0 (Some i) = take (Z.to_nat i) s.
Proof.
  intros Hi. unfold substring.
  remember (Z.of_nat (length s)) as len eqn:Hlen.
  replace (Z.to_nat (Z.min (Z.min (Z.max 0 0) len) (Z.min (Z.max i 0) len)))
    with 0 by lia.
  rewrite Nat.sub_0_r, drop_0.
  destruct (Z.le_gt_cases i len) as [Hle|Hgt].
  - f_equal. lia.
  - rewrite !firstn_all2 by lia. reflexivity.
Qed.

Lemma indexOf_range c s :
  indexOf c s = (-1)%Z \/ (0 <= indexOf c s < Z.of_nat (length s))%Z.
Proof.
  induction s as [|x t IH]; simpl; [auto|].
  destruct (N.eqb x c); [right; lia|].
  destruct (Z.ltb_spec (indexOf c t) 0); [auto|]. right. lia.
Qed.

Lemma indexOf_absent c s : ~ In c s -> indexOf c s = (-1)%Z.
Proof.
  induction s as [|x t IH]; simpl; intros Hn; [reflexivity|].
  destruct (N.eqb_spec x c) as [->|_]; [tauto|].
  rewrite IH by tauto. reflexivity.
Qed.

Lemma indexOf_skip c w t :
  ~ In c w ->
  indexOf c (w ++ t)
  = if (indexOf c t <? 0)%Z then (-1)%Z
    else (indexOf c t + Z.of_nat (length w))%Z.
Proof.
  induction w as [|x w IH]; intros Hn.
  - simpl. destruct (indexOf_range c t) as [->|H]; [reflexivity|].
    destruct (Z.ltb_spec (indexOf c t) 0); lia.
  - cbn [app indexOf length]. destruct (N.eqb_spec x c) as [->|_].
    { exfalso. apply Hn. left. reflexivity. }
    rewrite IH by (intros H; apply Hn; right; exact H).
    destruct (Z.ltb_spec (indexOf c t) 0); [reflexivity|].
    destruct (Z.ltb_spec (indexOf c t + Z.of_nat (length w)) 0); lia.
Qed.

Lemma is_http_url_inv u :
  is_http_url u = true ->
  exists w t, u = w ++ t /\ ~ In (ch "(") w /\
              (forall t', is_http_url (w ++ t') = true).
Proof.
  unfold is_http_url. intros H. apply orb_true_iff in H as [H|H];
    apply startsWith_true in H.
  - exists (str "http://"), (drop (length (str "http://")) u).
    split; [exact H|]. split.
    + vm_compute. intuition discriminate.
    + intros t'. unfold is_http_url. rewrite startsWith_app. reflexivity.
  - exists (str "https://"), (drop (length (str "https://")) u).
    split; [exact H|]. split.
    + vm_compute. intuition discriminate.
    + intros t'. unfold is_http_url. rewrite (startsWith_app (str "https://")).
      apply orb_true_r.
Qed.

Lemma strip_link_cons d u :
  strip_link (d :: u)
  = if (indexOf (ch "(") u >? 0)%Z
    then take (Z.to_nat (indexOf (ch "(") u)) u else u.
Proof.
  unfold strip_link. rewrite substring_from_1.
  change (drop 1 (d :: u)) with u.
  destruct (Z.gtb_spec (indexOf (ch "(") u) 0) as [Hpos|_]; [|reflexivity].
  apply substring_to. lia.
Qed.

(** Cutting at the parenthesis keeps the scheme. *)
Lemma strip_link_http m : dollar_url m -> is_http_url (strip_link m) = true.
Proof.
  intros (u & -> & Hu & _). rewrite strip_link_cons.
  destruct (Z.gtb_spec (indexOf (ch "(") u) 0) as [Hpos|_]; [|exact Hu].
  apply is_http_url_inv in Hu as (w & t & -> & Hw & Hhttp).
  rewrite indexOf_skip in * by exact Hw.
  destruct (Z.ltb_spec (indexOf (ch "(") t) 0) as [|Hge]; [lia|].
  replace (Z.to_nat (indexOf (ch "(") t + Z.of_nat (length w)))
    with (length w + Z.to_nat (indexOf (ch "(") t)) by lia.
  rewrite take_app_add. apply Hhttp.
Qed.

(** Without a parenthesis the callback only drops the dollar. *)
Lemma strip_link_plain d u : ~ In (ch "(") u -> strip_link (d :: u) = u.
Proof.
  intros Hn. rewrite strip_link_cons, indexOf_absent by exact Hn. reflexivity.
Qed.

(** ** Deduplication through a [Set] *)

Lemma jsstring_eqb_eq a b : jsstring_eqb a b = true <-> a = b.
Proof. unfold jsstring_eqb. apply bool_decide_eq_true. Qed.

Lemma jsstring_eqb_refl a : jsstring_eqb a a = true.
Proof. apply jsstring_eqb_eq. reflexivity. Qed.

Lemma filter_twice {A} (f g : A -> bool) l :
  List.filter f (List.filter g l) = List.filter (fun y => g y && f y) l.
Proof.
  induction l as [|x l IH]; simpl; [reflexivity|].
  destruct (g x); simpl; [|exact IH].
  destruct (f x); rewrite IH; reflexivity.
Qed.

Lemma set_go_first_seen seen l :
  set_go seen l
  = List.filter (fun y => negb (existsb (jsstring_eqb y) seen)) (first_seen l).
Proof.
  revert seen. induction l as [|x t IH]; intros seen; simpl; [reflexivity|].
  destruct (existsb (jsstring_eqb x) seen) eqn:Hx; simpl.
  - rewrite IH, filter_twice. apply filter_ext_in. intros y _.
    destruct (jsstring_eqb y x) eqn:Hyx; simpl; [|reflexivity].
    apply jsstring_eqb_eq in Hyx. subst y. rewrite Hx. reflexivity.
  - f_equal. rewrite IH, filter_twice. apply filter_ext. intros y. simpl.
    apply negb_orb.
Qed.

(** [Array.from(new Set(l))] is first-seen deduplication. *)
Lemma Array_from_Set_first_seen l : Array_from_Set l = first_seen l.
Proof.
  unfold Array_from_Set. rewrite set_go_first_seen. simpl.
  induction (first_seen l) as [|x t IH]; simpl; [reflexivity|].
  f_equal. exact IH.
Qed.

Lemma In_first_seen x l : In x (first_seen l) <-> In x l.
Proof.
  induction l as [|y t IH]; simpl; [tauto|].
  rewrite filter_In, IH. split.
  - tauto.
  - intros [->|H]; [auto|].
    destruct (jsstring_eqb x y) eqn:E.
    + apply jsstring_eqb_eq in E. auto.
    + auto.
Qed.

Lemma NoDup_first_seen l : NoDup (first_seen l).
Proof.
  induction l as [|y t IH]; simpl; constructor.
  - rewrite list_elem_of_In, filter_In. intros [_ H].
    rewrite jsstring_eqb_refl in H. discriminate.
  - apply NoDup_ListNoDup, List.NoDup_filter, NoDup_ListNoDup, IH.
Qed.

(** ** [split] *)

Lemma split_go_units sep k cur s g c :
  In g (split_go sep k cur s) -> In c g -> In c cur \/ In c s.
Proof.
  revert k cur. induction s as [|x t IH]; intros k cur Hg Hc; simpl in Hg.
  - destruct Hg as [<-|[]]. left. apply in_rev, Hc.
  - destruct k as [|k].
    + destruct (startsWith sep (x :: t)).
      * destruct Hg as [<-|Hg].
        -- left. apply in_rev, Hc.
        -- destruct (IH _ _ Hg Hc) as [[]|H]. right. right. exact H.
      * destruct (IH _ _ Hg Hc) as [[<-|H]|H]; simpl; auto.
    + destruct (IH _ _ Hg Hc) as [H|H]; simpl; auto.
Qed.

Lemma split_units sep s g c : In g (split sep s) -> In c g -> In c s.
Proof.
  intros Hg Hc. destruct (split_go_units _ _ _ _ _ _ Hg Hc) as [[]|H].
  exact H.
Qed.

(** ** The choice of the play source *)

Lemma richest_fold (gs : list jsstring) (acc : list jsstring) :
  fold_left (fun episodes url =>
               let matches := match_all m3u8Regex url in
               if length episodes <? length matches then matches
               else episodes) gs acc
  = let groups := map (match_all m3u8Regex) gs in
    let most := max_list (map length groups) in
    if most <=? length acc then acc
    else default [] (List.find (fun g => length g =? most) groups).
Proof.
  revert acc. induction gs as [|g t IH]; intros acc; [reflexivity|].
  cbn [fold_left map max_list]. rewrite IH. cbn zeta.
  set (ms := match_all m3u8Regex g).
  set (most := max_list (map length (map (match_all m3u8Regex) t))).
  cbn [List.find]. change (id (length ms)) with (length ms).
  destruct (Nat.ltb_spec (length acc) (length ms)) as [Hlt|Hge].
  - destruct (Nat.leb_spec most (length ms)) as [Hm|Hm].
    + replace (length ms `max` most) with (length ms) by lia.
      rewrite Nat.eqb_refl.
      rewrite (proj2 (Nat.leb_gt (length ms) (length acc))) by lia.
      reflexivity.
    + replace (length ms `max` most) with most by lia.
      rewrite (proj2 (Nat.leb_gt most (length acc))) by lia.
      rewrite (proj2 (Nat.eqb_neq (length ms) most)) by lia. reflexivity.
  - destruct (Nat.leb_spec most (length acc)) as [Hm|Hm].
    + replace (length ms `max` most <=? length acc) with true
        by (symmetry; apply Nat.leb_le; lia).
      reflexivity.
    + replace (length ms `max` most) with most by lia.
      rewrite (proj2 (Nat.leb_gt most (length acc))) by lia.
      rewrite (proj2 (Nat.eqb_neq (length ms) most)) by lia. reflexivity.
Qed.

(** The [forEach] selects the richest group, the first one among equals. *)
Lemma pick_episodes_richest groups :
  pick_episodes groups = richest (map (match_all m3u8Regex) groups).
Proof.
  unfold pick_episodes, richest. rewrite richest_fold. cbn zeta.
  set (gs := map (match_all m3u8Regex) groups).
  destruct (Nat.leb_spec (max_list (map length gs)) (length (@nil jsstring)))
    as [H0|]; [|reflexivity].
  simpl in H0.
  destruct (List.find _ gs) as [g|] eqn:Hf; [|reflexivity].
  apply find_some in Hf as [_ Hlen]. apply Nat.eqb_eq in Hlen.
  destruct g; [reflexivity|simpl in Hlen; lia].
Qed.

Lemma richest_In (groups : list (list jsstring)) m :
  In m (richest groups) -> exists g, In g groups /\ In m g.
Proof.
  unfold richest. destruct (List.find _ groups) as [g|] eqn:Hf; simpl.
  - apply find_some in Hf as [Hg _]. eauto.
  - contradiction.
Qed.

(** ** Episodes *)

Lemma scrape_matches_dollar site html m :
  In m (scrape_matches site html) -> dollar_url m.
Proof.
  unfold scrape_matches.
  destruct (jsstring_eqb (ApiSite.key site) (str "ffzy")); cbn zeta.
  - destruct (length (match_all ffzyPattern html) =? 0); intros H;
      apply match_all_sound in H as [L _].
    + apply lang_generalPattern, L.
    + apply lang_ffzyPattern, L.
  - simpl. intros H. apply match_all_sound in H as [L _].
    apply lang_generalPattern, L.
Qed.

Lemma scrape_matches_units site html m c :
  In m (scrape_matches site html) -> In c m -> In c html.
Proof.
  assert (Hsub : forall r, In m (match_all r html) -> In c m -> In c html).
  { intros r H Hc. apply match_all_sound in H as [_ (a & b & ->)].
    rewrite !in_app_iff. auto. }
  unfold scrape_matches.
  destruct (jsstring_eqb (ApiSite.key site) (str "ffzy")); cbn zeta.
  - destruct (length (match_all ffzyPattern html) =? 0); apply Hsub.
  - simpl. apply Hsub.
Qed.

(** The matches chosen by [transformApiSearchItem]. *)
Lemma item_matches_dollar url m :
  In m (pick_episodes (split (str "$$$") url)) ->
  dollar_url m /\ forall c, In c m -> In c url.
Proof.
  rewrite pick_episodes_richest. intros H.
  apply richest_In in H as (ms & Hms & Hm).
  apply in_map_iff in Hms as (g & <- & Hg).
  apply match_all_sound in Hm as [L (a & b & E)]. split.
  - apply lang_generalPattern, L.
  - intros c Hc. apply (split_units (str "$$$") url g); [exact Hg|].
    rewrite E, !in_app_iff. auto.
Qed.

Lemma strip_links_http (ms : list jsstring) :
  (forall m, In m ms -> dollar_url m) ->
  Forall (fun u => is_http_url u = true) (map strip_link (Array_from_Set ms)).
Proof.
  intros H. apply List.Forall_forall. intros u Hu.
  apply in_map_iff in Hu as (m & <- & Hm).
  rewrite Array_from_Set_first_seen in Hm.
  apply strip_link_http, H, (proj1 (In_first_seen m ms)), Hm.
Qed.

(** Matches without a parenthesis give episodes that satisfy the whole
    invariant. *)
Lemma strip_links_invariant (ms : list jsstring) :
  (forall m, In m ms -> dollar_url m /\ ~ In (ch "(") m) ->
  episodes_invariant (map strip_link (Array_from_Set ms)).
Proof.
  intros H. rewrite Array_from_Set_first_seen.
  assert (Hplain : forall m, In m (first_seen ms) ->
            exists u, m = ch "$" :: u /\ strip_link m = u
                      /\ is_http_url u = true /\ is_m3u8 u = true).
  { intros m Hm. apply (proj1 (In_first_seen m ms)) in Hm.
    apply H in Hm as [(u & -> & Hh & He) Hn].
    exists u. repeat split; auto. apply strip_link_plain.
    intros Hc. apply Hn. right. exact Hc. }
  split.
  - apply (NoDup_fmap_2_strong strip_link); [|apply NoDup_first_seen].
    intros m1 m2 H1 H2 E.
    apply list_elem_of_In, Hplain in H1 as (u1 & -> & E1 & _).
    apply list_elem_of_In, Hplain in H2 as (u2 & -> & E2 & _).
    congruence.
  - apply List.Forall_forall. intros u Hu.
    apply in_map_iff in Hu as (m & <- & Hm).
    apply Hplain in Hm as (u & -> & -> & Hh & He). auto.
Qed.

Lemma item_episodes_http item :
  Forall (fun u => is_http_url u = true) (item_episodes item).
Proof.
  unfold item_episodes. apply strip_links_http. intros m.
  destruct (truthy (ApiSearchItem.vod_play_url item)); [|contradiction].
  intros H. apply item_matches_dollar in H. tauto.
Qed.

Lemma scrape_episodes_http site html :
  Forall (fun u => is_http_url u = true) (scrape_episodes site html).
Proof. apply strip_links_http, scrape_matches_dollar. Qed.

Lemma replace_dollar_http u :
  is_http_url u = true -> replace_anchored (Lit (str "$")) [] u = u.
Proof.
  unfold is_http_url. intros H.
  apply orb_true_iff in H as [H|H]; apply startsWith_true in H;
    rewrite H; reflexivity.
Qed.

(** The scan of the content field returns the matches of [M3U8_PATTERN]
    as they are: none of them starts with a dollar. *)
Lemma content_episodes_matches content :
  content_episodes content = match_all M3U8_PATTERN content.
Proof.
  unfold content_episodes. rewrite <- (map_id (match_all _ _)) at 2.
  apply map_ext_in. intros m Hm. apply match_all_sound in Hm as [L _].
  apply replace_dollar_http, lang_m3u8_url, L.
Qed.

Lemma content_episodes_urls content :
  Forall (fun u => is_http_url u = true /\ is_m3u8 u = true)
         (content_episodes content).
Proof.
  rewrite content_episodes_matches. apply List.Forall_forall. intros m Hm.
  apply match_all_sound in Hm as [L _]. apply lang_m3u8_url, L.
Qed.

Lemma structured_episodes_http url :
  Forall (fun u => is_http_url u = true) (structured_episodes url).
Proof.
  unfold structured_episodes. destruct (truthy url); [|constructor].
  destruct (split (str "$$$") (default [] url)) as [|mainSource l];
    [constructor|].
  apply List.Forall_forall. intros u Hu. apply filter_In in Hu as [_ Hu].
  apply andb_true_iff in Hu as [_ Hu]. exact Hu.
Qed.

Lemma detail_episodes_http videoDetail :
  Forall (fun u => is_http_url u = true) (detail_episodes videoDetail).
Proof.
  unfold detail_episodes.
  destruct (_ && _).
  - eapply Forall_impl; [apply content_episodes_urls|]. simpl. tauto.
  - apply structured_episodes_http.
Qed.

(** Deduplication commutes with a function that is injective on the
    list. *)
Lemma first_seen_map (f : jsstring -> jsstring) (l : list jsstring) :
  (forall x y, In x l -> In y l -> f x = f y -> x = y) ->
  first_seen (map f l) = map f (first_seen l).
Proof.
  induction l as [|x t IH]; intros Hinj; [reflexivity|].
  cbn [map first_seen]. f_equal.
  rewrite IH by (intros a b Ha Hb; apply Hinj; right; assumption).
  assert (Hfilter : forall l, (forall y, In y l -> In y t) ->
            List.filter (fun y => negb (jsstring_eqb y (f x))) (map f l)
            = map f (List.filter (fun y => negb (jsstring_eqb y x)) l)).
  { induction l as [|y l IHl]; intros Hsub; [reflexivity|].
    cbn [map List.filter].
    assert (Heq : jsstring_eqb (f y) (f x) = jsstring_eqb y x).
    { destruct (jsstring_eqb y x) eqn:E.
      - apply jsstring_eqb_eq in E. subst y. apply jsstring_eqb_refl.
      - destruct (jsstring_eqb (f y) (f x)) eqn:E'; [|reflexivity].
        apply jsstring_eqb_eq in E'.
        apply Hinj in E';
          [|right; apply Hsub; left; reflexivity|left; reflexivity].
        subst y. rewrite jsstring_eqb_refl in E. discriminate. }
    rewrite Heq. destruct (jsstring_eqb y x); cbn [negb map];
      rewrite IHl by (intros z Hz; apply Hsub; right; exact Hz); reflexivity. }
  apply Hfilter. intros y. apply In_first_seen.
Qed.

(** On matches without parenthesis, deduplicating before or after the
    dollar is stripped and the suffix trimmed makes no difference. *)
Lemma strip_links_plain (ms : list jsstring) :
  (forall m, In m ms -> dollar_url m /\ ~ In (ch "(") m) ->
  map strip_link (Array_from_Set ms) = first_seen (map strip_link ms).
Proof.
  intros H. rewrite Array_from_Set_first_seen. symmetry.
  apply first_seen_map. intros m1 m2 H1 H2 E.
  apply H in H1 as [(u1 & -> & _) Hn1]. apply H in H2 as [(u2 & -> & _) Hn2].
  rewrite !strip_link_plain in E.
  - congruence.
  - intros Hc. apply Hn2. right. exact Hc.
  - intros Hc. apply Hn1. right. exact Hc.
Qed.

(** On a play list without parenthesis the code and the specification's
    wording give the same episodes. *)
Lemma item_episodes_plain item :
  ~ In (ch "(") (or_empty (ApiSearchItem.vod_play_url item)) ->
  item_episodes item
  = spec_delimited_episodes (or_empty (ApiSearchItem.vod_play_url item)).
Proof.
  intros Hn. unfold item_episodes, spec_delimited_episodes.
  destruct (truthy (ApiSearchItem.vod_play_url item)) eqn:Ht.
  - rewrite <- pick_episodes_richest.
    fold (or_empty (ApiSearchItem.vod_play_url item)).
    apply strip_links_plain. intros m Hm.
    apply item_matches_dollar in Hm as [Hd Hu]. split; [exact Hd|].
    intros Hc. apply Hn, Hu, Hc.
  - destruct (ApiSearchItem.vod_play_url item) as [[|c t]|];
      try discriminate; reflexivity.
Qed.

Lemma scrape_episodes_plain site html :
  ~ In (ch "(") html ->
  scrape_episodes site html
  = first_seen (map strip_link (scrape_matches site html)).
Proof.
  intros Hn. apply strip_links_plain. intros m Hm. split.
  - eapply scrape_matches_dollar, Hm.
  - intros Hc. apply Hn. eapply scrape_matches_units; [exact Hm|exact Hc].
Qed.

Lemma handleSpecialSourceDetail_returns clean cfg net id site tr r :
  handleSpecialSourceDetail clean cfg net id site = (tr, Ok r) ->
  exists req resp,
    net req = Resolves resp /\
    SearchResult.episodes r = scrape_episodes site (Response.text resp).
Proof.
  unfold handleSpecialSourceDetail, fetch, bind.
  match goal with |- context [net ?q] => exists q; destruct (net q) as [| |resp] eqn:E end;
    try discriminate.
  exists resp. split; [reflexivity|].
  destruct (Response.ok resp); simpl in H; [|discriminate].
  injection H as _ <-. reflexivity.
Qed.

Lemma getDetailFromJson_returns clean cfg net site id tr r :
  getDetailFromJson clean cfg net site id = (tr, Ok r) ->
  exists videoDetail, SearchResult.episodes r = detail_episodes videoDetail.
Proof.
  unfold getDetailFromJson, fetch, bind, json_of.
  match goal with |- context [net ?q] => destruct (net q) as [| |resp] end;
    try discriminate.
  destruct (Response.ok resp); simpl; [|discriminate].
  destruct (Response.json_ resp) as [[|[[|[videoDetail|] l]|] pc]|]; simpl;
    try discriminate.
  intros [= _ <-]. exists videoDetail. reflexivity.
Qed.

(** The page a scraped detail was read from is the answer to the one
    request of the HTML branch. *)
Lemma scraped_episodes_of_page clean cfg net site id tr r resp :
  handleSpecialSourceDetail clean cfg net id site = (tr, Ok r) ->
  net (scrape_request cfg site id) = Resolves resp ->
  SearchResult.episodes r = scrape_episodes site (Response.text resp).
Proof.
  unfold handleSpecialSourceDetail, fetch, bind, scrape_request.
  intros Hrun Hnet. rewrite Hnet in Hrun.
  destruct (Response.ok resp); simpl in Hrun; [|discriminate].
  injection Hrun as _ <-. reflexivity.
Qed.

(** When no selected match holds a parenthesis, the code and the
    specification's wording give the same episodes, and they satisfy the
    invariant. *)
Lemma item_episodes_selected item :
  no_paren (selected_matches (or_empty (ApiSearchItem.vod_play_url item))) ->
  episodes_invariant (item_episodes item)
  /\ item_episodes item
     = spec_delimited_episodes (or_empty (ApiSearchItem.vod_play_url item)).
Proof.
  unfold no_paren, selected_matches, item_episodes, spec_delimited_episodes.
  intros Hn. rewrite List.Forall_forall in Hn.
  destruct (truthy (ApiSearchItem.vod_play_url item)) eqn:Ht.
  - rewrite <- pick_episodes_richest in Hn |- *.
    fold (or_empty (ApiSearchItem.vod_play_url item)).
    assert (H : forall m,
              In m (pick_episodes
                      (split (str "$$$")
                         (or_empty (ApiSearchItem.vod_play_url item)))) ->
              dollar_url m /\ ~ In (ch "(") m).
    { intros m Hm. split; [|apply Hn, Hm].
      apply item_matches_dollar in Hm. tauto. }
    split; [apply strip_links_invariant, H|apply strip_links_plain, H].
  - split.
    + apply strip_links_invariant. intros m [].
    + destruct (ApiSearchItem.vod_play_url item) as [[|c t]|];
        try discriminate; reflexivity.
Qed.

Lemma scrape_episodes_selected site html :
  no_paren (scrape_matches site html) ->
  episodes_invariant (scrape_episodes site html)
  /\ scrape_episodes site html
     = first_seen (map strip_link (scrape_matches site html)).
Proof.
  unfold no_paren. intros Hn. rewrite List.Forall_forall in Hn.
  assert (H : forall m, In m (scrape_matches site html) ->
                        dollar_url m /\ ~ In (ch "(") m).
  { intros m Hm. split; [eapply scrape_matches_dollar, Hm|apply Hn, Hm]. }
  split; [apply strip_links_invariant, H|apply strip_links_plain, H].
Qed.

(** C1, as the code has it: every episode of every result is an absolute
    [http(s)] URL; when none of the matches selected from a search item,
    or found in a scraped page, holds a parenthesis, the episodes are
    moreover pairwise distinct, end in [.m3u8] and stand in the order of
    their first occurrence; the episodes found by the scan of the content
    field end in [.m3u8] too. *)
Theorem episodes_are_http_urls :
  (forall clean item site,
     Forall (fun u => is_http_url u = true)
       (SearchResult.episodes (transformApiSearchItem clean item site)))
  /\ (forall clean cfg net site id tr r,
        getDetailFromApi clean cfg net site id = (tr, Ok r) ->
        Forall (fun u => is_http_url u = true) (SearchResult.episodes r))
  /\ (forall clean item site,
        no_paren (selected_matches
                    (or_empty (ApiSearchItem.vod_play_url item))) ->
        episodes_invariant
          (SearchResult.episodes (transformApiSearchItem clean item site))
        /\ SearchResult.episodes (transformApiSearchItem clean item site)
           = spec_delimited_episodes
               (or_empty (ApiSearchItem.vod_play_url item)))
  /\ (forall clean cfg net site id tr r resp,
        truthy (ApiSite.detail site) = true ->
        getDetailFromApi clean cfg net site id = (tr, Ok r) ->
        net (scrape_request cfg site id) = Resolves resp ->
        no_paren (scrape_matches site (Response.text resp)) ->
        episodes_invariant (SearchResult.episodes r)
        /\ SearchResult.episodes r
           = first_seen
               (map strip_link (scrape_matches site (Response.text resp))))
  /\ (forall videoDetail,
        structured_episodes (ApiSearchItem.vod_play_url videoDetail) = [] ->
        Forall (fun u => is_http_url u = true /\ is_m3u8 u = true)
               (detail_episodes videoDetail)).
Proof.
  split; [|split; [|split; [|split]]].
  - intros clean item site. apply item_episodes_http.
  - intros clean cfg net site id tr r. unfold getDetailFromApi.
    destruct (truthy (ApiSite.detail site)); intros H.
    + apply handleSpecialSourceDetail_returns in H as (req & resp & _ & ->).
      apply scrape_episodes_http.
    + apply getDetailFromJson_returns in H as (v & ->).
      apply detail_episodes_http.
  - intros clean item site Hn. apply item_episodes_selected, Hn.
  - intros clean cfg net site id tr r resp Hd. unfold getDetailFromApi.
    rewrite Hd. intros H Hnet Hn.
    rewrite (scraped_episodes_of_page _ _ _ _ _ _ _ _ H Hnet).
    apply scrape_episodes_selected, Hn.
  - intros v Hs. unfold detail_episodes. rewrite Hs. simpl.
    destruct (truthy (ApiSearchItem.vod_content v)).
    + apply content_episodes_urls.
    + constructor.
Qed.

Lemma episodes_are_http_urls_witness :
  Forall (fun u => is_http_url u = true)
    (SearchResult.episodes
       (transformApiSearchItem sample_clean paren_item sample_site))
  /\ (plain_detail = (fst plain_detail, Ok plain_detail_result)
      /\ Forall (fun u => is_http_url u = true)
           (SearchResult.episodes plain_detail_result))
  /\ (In (ch "(") (or_empty (ApiSearchItem.vod_play_url clip_item))
      /\ no_paren (selected_matches
                     (or_empty (ApiSearchItem.vod_play_url clip_item)))
      /\ episodes_invariant
           (SearchResult.episodes
              (transformApiSearchItem sample_clean clip_item sample_site))
      /\ SearchResult.episodes
           (transformApiSearchItem sample_clean clip_item sample_site)
         = [str "https://a.com/1.m3u8"])
  /\ (truthy (ApiSite.detail sample_scrape_site) = true
      /\ script_scrape = (fst script_scrape, Ok script_scrape_result)
      /\ In (ch "(") (str script_html)
      /\ no_paren (scrape_matches sample_scrape_site (str script_html))
      /\ episodes_invariant (SearchResult.episodes script_scrape_result)
      /\ SearchResult.episodes script_scrape_result
         = [str "http://a.test/1.m3u8"; str "http://a.test/2.m3u8"])
  /\ (structured_episodes (ApiSearchItem.vod_play_url
                             (sample_item "D" None None
                                (Some "see http://c.test/v.m3u8"%string))) = []
      /\ Forall (fun u => is_http_url u = true /\ is_m3u8 u = true)
           (detail_episodes (sample_item "D" None None
                               (Some "see http://c.test/v.m3u8"%string)))).
Proof.
  destruct episodes_are_http_urls as (H1 & H2 & H3 & H4 & H5).
  assert (Hclip : no_paren (selected_matches
                    (or_empty (ApiSearchItem.vod_play_url clip_item)))).
  { vm_compute. repeat constructor. intuition discriminate. }
  assert (Hscript : no_paren (scrape_matches sample_scrape_site
                                (str script_html))).
  { vm_compute. repeat constructor; intuition discriminate. }
  split; [apply H1|].
  split.
  { split; [vm_compute; reflexivity|].
    apply (H2 sample_clean sample_config
              (always (json_response [plain_item] None)) sample_site
              (str "42") (fst plain_detail)).
    vm_compute. reflexivity. }
  split.
  { split; [vm_compute; tauto|]. split; [exact Hclip|].
    split; [apply (H3 sample_clean clip_item sample_site Hclip)|].
    vm_compute. reflexivity. }
  split.
  { split; [reflexivity|]. split; [vm_compute; reflexivity|].
    split; [vm_compute; tauto|]. split; [exact Hscript|].
    split; [|vm_compute; reflexivity].
    apply (H4 sample_clean sample_config (always (html_response script_html))
              sample_scrape_site (str "42") (fst script_scrape)
              script_scrape_result (html_response script_html)).
    - reflexivity.
    - vm_compute. reflexivity.
    - reflexivity.
    - exact Hscript. }
  split; [reflexivity|]. apply H5. reflexivity.
Defined.

(** C1 as stated fails: the structured play list of a JSON detail keeps
    any [http(s)] link, twice if it occurs twice, and a search item's
    matches are cut at a parenthesis after they were deduplicated. *)
Lemma episodes_invariant_counterexample :
  option_map SearchResult.episodes (returned mp4_detail)
    = Some [str "http://a.test/1.mp4"; str "http://a.test/1.mp4"]
  /\ ~ episodes_invariant [str "http://a.test/1.mp4"; str "http://a.test/1.mp4"]
  /\ SearchResult.episodes
       (transformApiSearchItem sample_clean paren_item sample_site)
     = [str "http://a"; str "http://a"]
  /\ ~ episodes_invariant [str "http://a"; str "http://a"]
  /\ is_m3u8 (str "http://a.test/1.mp4") = false
  /\ is_m3u8 (str "http://a") = false.
Proof.
  assert (Hdup : forall u : jsstring, ~ episodes_invariant [u; u]).
  { intros u [Hnd _]. apply NoDup_cons in Hnd as [Hn _]. apply Hn. left. }
  split; [vm_compute; reflexivity|]. split; [apply Hdup|].
  split; [vm_compute; reflexivity|]. split; [apply Hdup|].
  split; vm_compute; reflexivity.
Qed.

(** C5, as the code has it: the episodes of a search item are the
    matches of the richest group (the first one among equals), made
    distinct in first-seen order and only then stripped of their dollar
    and cut at their first parenthesis; a scraped page is treated the
    same way; on a play list without parenthesis this is deduplication
    after the trimming, as the specification words it. *)
Theorem episodes_dedup_before_trim :
  (forall clean item site,
     SearchResult.episodes (transformApiSearchItem clean item site)
     = if truthy (ApiSearchItem.vod_play_url item)
       then map strip_link
              (first_seen
                 (richest
                    (map (match_all m3u8Regex)
                       (split (str "$$$")
                          (or_empty (ApiSearchItem.vod_play_url item))))))
       else [])
  /\ (forall site html,
        scrape_episodes site html
        = map strip_link (first_seen (scrape_matches site html)))
  /\ (forall l, NoDup (first_seen l) /\ forall x, In x (first_seen l) <-> In x l)
  /\ (forall d u,
        strip_link (d :: u)
        = if (indexOf (ch "(") u >? 0)%Z
          then take (Z.to_nat (indexOf (ch "(") u)) u else u)
  /\ (forall clean item site,
        ~ In (ch "(") (or_empty (ApiSearchItem.vod_play_url item)) ->
        SearchResult.episodes (transformApiSearchItem clean item site)
        = spec_delimited_episodes
            (or_empty (ApiSearchItem.vod_play_url item)))
  /\ (forall site html,
        ~ In (ch "(") html ->
        scrape_episodes site html
        = first_seen (map strip_link (scrape_matches site html))).
Proof.
  repeat apply conj;
    [| | | |intros clean item site; apply item_episodes_plain
     |apply scrape_episodes_plain].
  - intros clean item site. simpl. unfold item_episodes.
    rewrite Array_from_Set_first_seen.
    destruct (truthy (ApiSearchItem.vod_play_url item)); [|reflexivity].
    rewrite pick_episodes_richest. reflexivity.
  - intros site html. unfold scrape_episodes.
    rewrite Array_from_Set_first_seen. reflexivity.
  - intros l. split; [apply NoDup_first_seen|].
    intros x. apply In_first_seen.
  - apply strip_link_cons.
Qed.

Lemma episodes_dedup_before_trim_witness :
  (~ In (ch "(") (or_empty (ApiSearchItem.vod_play_url plain_item))
   /\ SearchResult.episodes
        (transformApiSearchItem sample_clean plain_item sample_site)
      = spec_delimited_episodes
          (or_empty (ApiSearchItem.vod_play_url plain_item)))
  /\ (~ In (ch "(") (str plain_html)
      /\ scrape_episodes sample_scrape_site (str plain_html)
         = first_seen
             (map strip_link
                (scrape_matches sample_scrape_site (str plain_html)))).
Proof.
  assert (Hn : ~ In (ch "(")
                 (or_empty (ApiSearchItem.vod_play_url plain_item))).
  { vm_compute. intuition discriminate. }
  assert (Hh : ~ In (ch "(") (str plain_html)).
  { vm_compute. intuition discriminate. }
  destruct episodes_dedup_before_trim as (_ & _ & _ & _ & Hitem & Hhtml).
  split; split; auto.
Defined.

(** C5 as stated fails: two matches that differ only after a
    parenthesis are both kept, where deduplication after the trimming
    would keep one. *)
Lemma dedup_after_trim_counterexample :
  SearchResult.episodes
    (transformApiSearchItem sample_clean paren_item sample_site)
  = [str "http://a"; str "http://a"]
  /\ spec_delimited_episodes (or_empty (ApiSearchItem.vod_play_url paren_item))
     = [str "http://a"]
  /\ SearchResult.episodes
       (transformApiSearchItem sample_clean paren_item sample_site)
     <> spec_delimited_episodes
          (or_empty (ApiSearchItem.vod_play_url paren_item)).
Proof.
  split; [vm_compute; reflexivity|]. split; [vm_compute; reflexivity|].
  vm_compute. discriminate.
Qed.

(** ** Year *)

Lemma match_here_four_digits s :
  match_here four_digits s
  = if (length (take 4 s) =? 4) && forallb is_digit (take 4 s)
    then Some (take 4 s) else None.
Proof.
  unfold match_here, four_digits, times.
  destruct s as [|a [|b [|c [|d [|e t]]]]]; cbn -[is_digit];
    repeat match goal with
           | |- context [is_digit ?x] => destruct (is_digit x); cbn -[is_digit]
           end; reflexivity.
Qed.

Lemma match_first_four_digits s :
  match_first four_digits s = first_four_digits s.
Proof.
  induction s as [|a t IH]; [reflexivity|].
  cbn [match_first first_four_digits]. rewrite match_here_four_digits.
  destruct (_ && _); [reflexivity|exact IH].
Qed.

(** What [first_four_digits] finds: four digits that occur in the
    string, with no window of four digits starting before them. *)
Lemma first_four_digits_spec s d :
  first_four_digits s = Some d ->
  length d = 4 /\ forallb is_digit d = true /\
  exists a b, s = a ++ d ++ b /\
    forall a1 a2, a = a1 ++ a2 -> a2 <> [] ->
      ~ (length (take 4 (a2 ++ d ++ b)) = 4
         /\ forallb is_digit (take 4 (a2 ++ d ++ b)) = true).
Proof.
  revert d. induction s as [|c t IH]; intros d; [discriminate|].
  cbn [first_four_digits].
  destruct (_ && _) eqn:Hw.
  - intros [= <-]. apply andb_true_iff in Hw as [Hl Hd].
    apply Nat.eqb_eq in Hl. repeat split; auto.
    exists [], (drop 4 (c :: t)). split.
    + simpl. f_equal. symmetry. apply take_drop.
    + intros a1 a2 E. symmetry in E. apply app_eq_nil in E as [_ ->].
      congruence.
  - intros H. destruct (IH d H) as (Hl & Hd & a & b & -> & Hfirst).
    repeat split; auto. exists (c :: a), b. split; [reflexivity|].
    intros a1 a2 E Hne. destruct a1 as [|x a1].
    + simpl in E. subst a2. simpl app. intros [H1 H2].
      rewrite (proj2 (Nat.eqb_eq _ _) H1), H2 in Hw. discriminate.
    + injection E as _ E. apply (Hfirst a1 a2 E Hne).
Qed.

(** C6, as the code has it: a missing or empty year gives [unknown], a
    year with four consecutive digits gives the first such digits, and
    any other year gives the empty string. *)
Theorem normalize_year_cases (vod_year : option jsstring) :
  normalize_year vod_year
  = match vod_year with
    | None | Some [] => str "unknown"
    | Some y => match first_four_digits y with
                | Some digits => digits
                | None => []
                end
    end.
Proof.
  unfold normalize_year. destruct vod_year as [[|c t]|]; try reflexivity.
  change (default [] (Some (c :: t))) with (c :: t). cbn [truthy].
  rewrite match_first_four_digits.
  destruct (first_four_digits (c :: t)); reflexivity.
Qed.

(** C6 as stated fails: a year that is not empty and has no four
    consecutive digits gives the empty string, not [unknown]. *)
Lemma normalize_year_counterexample :
  first_four_digits (str "abc") = None
  /\ normalize_year (Some (str "abc")) = []
  /\ normalize_year (Some (str "abc")) <> str "unknown"
  /\ SearchResult.year
       (transformApiSearchItem sample_clean
          (sample_item "E" None (Some "abc"%string) None) sample_site)
     <> str "unknown".
Proof.
  repeat split; try (vm_compute; reflexivity); vm_compute; discriminate.
Qed.

(** ** Title and the other fields of a detail *)

(** C7 fails on the code: the JSON branch of [getDetailFromApi] returns
    the name of the item as it is, where [transformApiSearchItem] trims
    it and collapses its white space. *)
Theorem detail_title_not_normalized :
  option_map SearchResult.title (returned spaced_detail)
  = Some (str " Foo" ++ [10; 9]%N ++ str "Bar  ")
  /\ SearchResult.title
       (transformApiSearchItem sample_clean spaced_item sample_site)
     = str "Foo Bar".
Proof. split; vm_compute; reflexivity. Qed.

(** The fields on which the two normalisations do agree. *)
Lemma detail_fields_agree clean cfg net site id tr r :
  getDetailFromJson clean cfg net site id = (tr, Ok r) ->
  exists videoDetail,
    let s := transformApiSearchItem clean videoDetail site in
    SearchResult.title r = ApiSearchItem.vod_name videoDetail
    /\ SearchResult.desc r = clean (ApiSearchItem.vod_content videoDetail)
    /\ SearchResult.poster r = SearchResult.poster s
    /\ SearchResult.year r = SearchResult.year s
    /\ SearchResult.class r = SearchResult.class s
    /\ SearchResult.type_name r = SearchResult.type_name s
    /\ SearchResult.douban_id r = SearchResult.douban_id s
    /\ SearchResult.source r = SearchResult.source s
    /\ SearchResult.source_name r = SearchResult.source_name s.
Proof.
  unfold getDetailFromJson, fetch, bind, json_of.
  match goal with |- context [net ?q] => destruct (net q) as [| |resp] end;
    try discriminate.
  destruct (Response.ok resp); simpl; [|discriminate].
  destruct (Response.json_ resp) as [[|[[|[videoDetail|] l]|] pc]|]; simpl;
    try discriminate.
  intros [= _ <-]. exists videoDetail. simpl. repeat split; reflexivity.
Qed.

(** ** The scan of the content field *)

(** When the structured play list gives nothing, the episodes are all
    the matches of [M3U8_PATTERN] in the content. *)
Lemma detail_content_scan (videoDetail : ApiSearchItem.t)
    (content : jsstring) :
  structured_episodes (ApiSearchItem.vod_play_url videoDetail) = [] ->
  ApiSearchItem.vod_content videoDetail = Some content ->
  detail_episodes videoDetail = match_all M3U8_PATTERN content.
Proof.
  intros Hs Hc. unfold detail_episodes. rewrite Hs, Hc. simpl.
  destruct content as [|c t]; [reflexivity|]. simpl truthy. cbn iota.
  apply content_episodes_matches.
Qed.

(** C8 fails on the code: the scan of the content field of this detail
    returns a stream link that no dollar precedes, where the claim
    returns none.  [M3U8_PATTERN] is the pattern of the two sibling
    extractors without their leading dollar, so the scan returns every
    [http(s)] link ending in [.m3u8], and the removal of a leading dollar
    that follows it (line 198) never changes a match. *)
Theorem content_scan_without_dollar :
  option_map SearchResult.episodes (returned content_detail)
  = Some [str "http://c.test/v.m3u8"]
  /\ structured_episodes (ApiSearchItem.vod_play_url content_item) = []
  /\ spec_content_scan (str "see http://c.test/v.m3u8") = []
  /\ m3u8Regex = (Lit (str "$") · M3U8_PATTERN)%re
  /\ generalPattern = (Lit (str "$") · M3U8_PATTERN)%re
  /\ (forall content m,
        In m (match_all M3U8_PATTERN content) ->
        replace_anchored (Lit (str "$")) [] m = m)
  /\ (forall videoDetail content,
        structured_episodes (ApiSearchItem.vod_play_url videoDetail) = [] ->
        ApiSearchItem.vod_content videoDetail = Some content ->
        detail_episodes videoDetail = match_all M3U8_PATTERN content).
Proof.
  split; [vm_compute; reflexivity|]. split; [reflexivity|].
  split; [vm_compute; reflexivity|]. split; [reflexivity|].
  split; [reflexivity|]. split.
  - intros content m Hm. apply match_all_sound in Hm as [L _].
    apply replace_dollar_http, lang_m3u8_url, L.
  - apply detail_content_scan.
Qed.

(** ** Failures of the JSON detail branch *)

Lemma getDetailFromJson_cases clean cfg net site id :
  let res := snd (getDetailFromJson clean cfg net site id) in
  match net (detail_request cfg site id) with
  | NetworkFailure => res = Throw TypeError
  | Aborted => res = Throw AbortError
  | Resolves resp =>
      if Response.ok resp then
        match Response.json_ resp with
        | None => res = Throw SyntaxError
        | Some data =>
            if lacks_list data then res = Throw (Error msg_detail_invalid)
            else if first_is_null data then res = Throw TypeError
            else exists r, res = Ok r
        end
      else res = Throw (Error (msg_detail_request_failed
                                 ++ N_toString (Response.status resp)))
  end.
Proof.
  unfold getDetailFromJson, fetch, bind, json_of, detail_request.
  destruct (net _) as [| |resp]; try reflexivity.
  destruct (Response.ok resp); simpl; [|reflexivity].
  destruct (Response.json_ resp) as [[|[[|[videoDetail|] l]|] pc]|]; simpl;
    try reflexivity.
  eexists. reflexivity.
Qed.

(** C3: in the JSON branch a response with a status outside [200..299]
    throws, and only it does, an error whose message is the failed-request
    text followed by the status; a parsed body without a non-empty [list]
    throws, and only it does, the invalid-payload error; in both cases
    nothing is returned. *)
Theorem detail_json_failures clean cfg net site id :
  truthy (ApiSite.detail site) = false ->
  let res := snd (getDetailFromApi clean cfg net site id) in
  (forall resp,
     net (detail_request cfg site id) = Resolves resp ->
     Response.ok resp = false ->
     res = Throw (Error (msg_detail_request_failed
                           ++ N_toString (Response.status resp))))
  /\ (request_failed res = true <->
      exists resp, net (detail_request cfg site id) = Resolves resp
                   /\ Response.ok resp = false)
  /\ (invalid_payload res <->
      exists resp data,
        net (detail_request cfg site id) = Resolves resp
        /\ Response.ok resp = true
        /\ Response.json_ resp = Some data
        /\ lacks_list data = true)
  /\ (request_failed res = true \/ invalid_payload res ->
      returned (getDetailFromApi clean cfg net site id) = None).
Proof.
  intros Hd. unfold getDetailFromApi. rewrite Hd. cbn zeta.
  pose proof (getDetailFromJson_cases clean cfg net site id) as H.
  cbn zeta in H. unfold returned, invalid_payload.
  destruct (snd (getDetailFromJson clean cfg net site id)) as [r|e] eqn:Hres.
  - (* a result is returned *)
    split; [|split; [|split]].
    + intros resp Hr Hok. rewrite Hr, Hok in H. discriminate.
    + split; [discriminate|]. intros (resp & Hr & Hok).
      rewrite Hr, Hok in H. discriminate.
    + split; [discriminate|]. intros (resp & data & Hr & Hok & Hj & Hl).
      rewrite Hr, Hok, Hj, Hl in H. discriminate.
    + intros [?|?]; discriminate.
  - split; [|split; [|split]].
    + intros resp Hr Hok. rewrite Hr, Hok in H. exact H.
    + split.
      * intros Hf. revert H.
        destruct (net (detail_request cfg site id)) as [| |resp]; intros H;
          try (injection H as ->; discriminate).
        exists resp. split; [reflexivity|].
        destruct (Response.ok resp); [|reflexivity].
        destruct (Response.json_ resp) as [data|];
          [|injection H as ->; discriminate].
        destruct (lacks_list data).
        -- injection H as ->. vm_compute in Hf. discriminate.
        -- destruct (first_is_null data).
           ++ injection H as ->. vm_compute in Hf. discriminate.
           ++ destruct H as [r ?]. discriminate.
      * intros (resp & Hr & Hok). rewrite Hr, Hok in H. injection H as ->.
        reflexivity.
    + split.
      * intros He. revert H.
        destruct (net (detail_request cfg site id)) as [| |resp]; intros H;
          try congruence.
        exists resp. destruct (Response.ok resp).
        -- destruct (Response.json_ resp) as [data|]; [|congruence].
           exists data. destruct (lacks_list data); [auto|].
           destruct (first_is_null data); [congruence|].
           destruct H as [r ?]. discriminate.
        -- exfalso. rewrite H in He. injection He as He. discriminate.
      * intros (resp & data & Hr & Hok & Hj & Hl).
        rewrite Hr, Hok, Hj, Hl in H. exact H.
    + reflexivity.
Qed.

Lemma detail_json_failures_witness :
  truthy (ApiSite.detail sample_site) = false
  /\ (snd (getDetailFromApi sample_clean sample_config
             (always not_found_response) sample_site (str "42"))
      = Throw (Error (msg_detail_request_failed ++ str "404")))
  /\ invalid_payload
       (snd (getDetailFromApi sample_clean sample_config
               (always empty_list_response) sample_site (str "42")))
  /\ returned (getDetailFromApi sample_clean sample_config
                 (always empty_list_response) sample_site (str "42")) = None.
Proof.
  split; [reflexivity|].
  pose proof (detail_json_failures sample_clean sample_config
                (always not_found_response) sample_site (str "42") eq_refl)
    as (H1 & _).
  pose proof (detail_json_failures sample_clean sample_config
                (always empty_list_response) sample_site (str "42") eq_refl)
    as (_ & _ & H3 & H4).
  assert (Hinv : invalid_payload
            (snd (getDetailFromApi sample_clean sample_config
                    (always empty_list_response) sample_site (str "42")))).
  { apply H3. exists empty_list_response, (JData (Some []) None).
    repeat split; reflexivity. }
  split; [exact (H1 not_found_response eq_refl eq_refl)|].
  split; [exact Hinv|]. apply H4. right. exact Hinv.
Defined.

(** ** Dependence on the first element only *)

(** C10: two well-formed payloads with the same first element of [list]
    give the same trace and the same result, whatever else the two
    responses hold. *)
Theorem detail_depends_on_first_item clean cfg net1 net2 site id
    resp1 resp2 videoDetail rest1 rest2 pc1 pc2 :
  truthy (ApiSite.detail site) = false ->
  net1 (detail_request cfg site id) = Resolves resp1 ->
  net2 (detail_request cfg site id) = Resolves resp2 ->
  Response.ok resp1 = true ->
  Response.ok resp2 = true ->
  Response.json_ resp1 = Some (JData (Some (videoDetail :: rest1)) pc1) ->
  Response.json_ resp2 = Some (JData (Some (videoDetail :: rest2)) pc2) ->
  getDetailFromApi clean cfg net1 site id
  = getDetailFromApi clean cfg net2 site id.
Proof.
  intros Hd H1 H2 Hok1 Hok2 Hj1 Hj2.
  unfold getDetailFromApi. rewrite Hd.
  unfold getDetailFromJson, fetch, bind, json_of.
  unfold detail_request in H1, H2.
  rewrite H1, H2, Hok1, Hok2. simpl. rewrite Hj1, Hj2. reflexivity.
Qed.

Lemma detail_depends_on_first_item_witness :
  getDetailFromApi sample_clean sample_config
    (always (json_response [plain_item; mp4_item] (Some 3%Z)))
    sample_site (str "42")
  = getDetailFromApi sample_clean sample_config
      (always (Response.mk 201 (str "x")
                 (Some (JData (Some [Item plain_item]) None))))
      sample_site (str "42").
Proof.
  eapply detail_depends_on_first_item; reflexivity.
Defined.

(** ** The monad *)

Lemma bind_ok {A B} tr (a : A) (k : A -> M B) :
  bind (tr, Ok a) k = (tr ++ fst (k a), snd (k a)).
Proof. unfold bind. destruct (k a). reflexivity. Qed.

Lemma bind_throw {A B} tr e (k : A -> M B) :
  bind (tr, Throw e) k = (tr, Throw e).
Proof. reflexivity. Qed.

Lemma try_catch_ok {A} tr (a : A) handler :
  try_catch (tr, Ok a) handler = (tr, Ok a).
Proof. reflexivity. Qed.

(** A handler that returns a value makes the whole block return. *)
Lemma try_catch_returns {A} (body : M A) (a : A) :
  exists b, try_catch body (fun _ => ret a) = (fst body, Ok b).
Proof.
  destruct body as [tr [b|e]]; simpl.
  - exists b. reflexivity.
  - exists a. rewrite app_nil_r. reflexivity.
Qed.

(** ** [Promise.all] *)

Section Join.

Context {A : Type}.
Variable vals : list A.

Let fill := fill_slot vals.

Lemma settle_fulfilled order slots :
  foldl (settle (map Ok vals)) (Waiting slots) order
  = Waiting (foldl fill slots order).
Proof using Type.
  revert slots. induction order as [|i t IH]; intros slots; [reflexivity|].
  cbn [foldl]. rewrite <- IH. f_equal. unfold settle, fill, fill_slot.
  change (map Ok vals) with (Ok <$> vals). rewrite list_lookup_fmap.
  destruct (vals !! i); reflexivity.
Qed.

Lemma fill_lookup order slots :
  length slots = length vals ->
  length (foldl fill slots order) = length vals
  /\ forall j,
       (j ∈ order -> foldl fill slots order !! j = (Some <$> vals) !! j)
       /\ (j ∉ order -> foldl fill slots order !! j = slots !! j).
Proof using Type.
  revert slots. induction order as [|i t IH]; intros slots Hlen.
  - split; [exact Hlen|]. intros j. split; [|reflexivity].
    intros H. apply elem_of_nil in H. contradiction.
  - cbn [foldl].
    assert (Hlen1 : length (fill slots i) = length vals).
    { unfold fill, fill_slot.
      destruct (vals !! i); [rewrite length_insert|]; exact Hlen. }
    destruct (IH (fill slots i) Hlen1) as [Hl Hj]. split; [exact Hl|].
    assert (Hi : fill slots i !! i = (Some <$> vals) !! i).
    { unfold fill, fill_slot. rewrite list_lookup_fmap.
      destruct (vals !! i) as [v|] eqn:Hv; simpl.
      - apply list_lookup_insert_eq. rewrite Hlen.
        apply lookup_lt_Some in Hv. exact Hv.
      - apply lookup_ge_None. rewrite Hlen.
        apply lookup_ge_None in Hv. exact Hv. }
    intros j. destruct (Hj j) as [Hin Hout]. split.
    + intros H. destruct (decide (j ∈ t)) as [Ht|Ht]; [auto|].
      apply elem_of_cons in H as [->|H]; [|contradiction].
      rewrite Hout by exact Ht. exact Hi.
    + intros H. apply not_elem_of_cons in H as [Hne Ht].
      rewrite Hout by exact Ht. unfold fill, fill_slot.
      destruct (vals !! i); [|reflexivity].
      apply list_lookup_insert_ne. congruence.
Qed.

Lemma omap_id_Some : omap id (Some <$> vals) = vals.
Proof using Type.
  clear fill. induction vals as [|v l IH]; [reflexivity|].
  simpl. f_equal. exact IH.
Qed.

End Join.

Lemma settle_order_complete delay n j : j < n -> j ∈ settle_order delay n.
Proof.
  intros H. unfold settle_order. rewrite merge_sort_Permutation.
  apply elem_of_seq. lia.
Qed.

(** A join of promises that all fulfil returns their values in the order
    of the promises, whatever the order in which they settle. *)
Lemma Promise_all_fulfilled {A} delay (promises : list (M A)) (vals : list A) :
  map snd promises = map Ok vals ->
  Promise_all delay promises = (concat (map fst promises), Ok vals).
Proof.
  intros Hp. unfold Promise_all. rewrite Hp. f_equal.
  assert (Hn : length promises = length vals).
  { pose proof (f_equal length Hp) as Hlen.
    rewrite !List.length_map in Hlen. exact Hlen. }
  rewrite Hn, settle_fulfilled.
  destruct (fill_lookup vals (settle_order delay (length vals))
              (replicate (length vals) None)) as [Hl Hj].
  { apply length_replicate. }
  f_equal.
  replace (foldl (fill_slot vals) (replicate (length vals) None)
             (settle_order delay (length vals))) with (Some <$> vals);
    [apply omap_id_Some|].
  symmetry. apply list_eq. intros j. destruct (Nat.lt_ge_cases j (length vals)) as [H|H].
  - apply Hj, settle_order_complete, H.
  - rewrite !(proj2 (lookup_ge_None _ _)); [reflexivity| |].
    + rewrite length_fmap. exact H.
    + rewrite Hl. exact H.
Qed.

(** ** The search *)



Lemma Array_map_returns clean site l results :
  Array_map (normalize_item clean site) l = Ok results ->
  exists items,
    l = map Item items
    /\ results = map (fun item => transformApiSearchItem clean item site) items.
Proof.
  revert results.
  induction l as [|[item|] t IH]; cbn [Array_map normalize_item];
    intros results.
  - intros [= <-]. exists []. split; reflexivity.
  - destruct (Array_map _ t) as [ys|e]; [|discriminate]. intros [= <-].
    destruct (IH ys eq_refl) as (items & -> & ->).
    exists (item :: items). split; reflexivity.
  - discriminate.
Qed.

(** One page: a single request with a timeout of 8000, and a result in
    every case. *)
Lemma fetchSearchResults_total clean cfg net url site :
  fetchSearchResults clean cfg net url site
  = ([search_request cfg url (Some 8000%N)],
     Ok (page_results clean cfg net site url)).
Proof.
  unfold page_results, fetchSearchResults, fetch, bind, json_of,
    search_request, lift.
  destruct (net _) as [| |resp]; try reflexivity.
  destruct (negb (Response.ok resp)); [reflexivity|].
  destruct (Response.json_ resp) as [[|[[|v l']|] pc]|]; try reflexivity.
  cbn -[Array_map].
  destruct (Array_map (normalize_item clean site) (v :: l')); reflexivity.
Qed.

(** What one page contributes, by cases. *)
Lemma page_results_cases clean cfg net site url :
  page_results clean cfg net site url
  = match net (search_request cfg url (Some 8000%N)) with
    | Resolves resp =>
        if Response.ok resp then
          match Response.json_ resp with
          | Some (JData (Some list_) _) =>
              match Array_map (normalize_item clean site) list_ with
              | Ok results => results
              | Throw _ => []
              end
          | _ => []
          end
        else []
    | _ => []
    end.
Proof.
  unfold page_results, fetchSearchResults, fetch, bind, json_of,
    search_request, lift.
  destruct (net _) as [| |resp]; try reflexivity.
  destruct (Response.ok resp); simpl; [|reflexivity].
  destruct (Response.json_ resp) as [[|[[|v l']|] pc]|]; try reflexivity.
  cbn -[Array_map].
  destruct (Array_map (normalize_item clean site) (v :: l')); reflexivity.
Qed.

(** A page whose fetch fails in any way contributes nothing. *)
Lemma page_results_degrade clean cfg net site url :
  match net (search_request cfg url (Some 8000%N)) with
  | NetworkFailure | Aborted => page_results clean cfg net site url = []
  | Resolves resp =>
      (Response.ok resp = false -> page_results clean cfg net site url = [])
      /\ (Response.json_ resp = None -> page_results clean cfg net site url = [])
      /\ (forall data, Response.json_ resp = Some data ->
                       lacks_list data = true ->
                       page_results clean cfg net site url = [])
  end.
Proof.
  rewrite page_results_cases.
  destruct (net _) as [| |resp]; try reflexivity.
  destruct (Response.ok resp).
  - split; [discriminate|].
    destruct (Response.json_ resp) as [[|[[|v l']|] pc]|];
      repeat split; try reflexivity; try discriminate;
      intros data [= <-]; discriminate.
  - repeat split; reflexivity.
Qed.

Lemma bind_ret_l {A B} (a : A) (k : A -> M B) : bind (ret a) k = k a.
Proof. unfold bind, ret. destruct (k a). reflexivity. Qed.

Lemma concat_singletons {A B} (f : A -> B) l :
  concat (map (fun x => [f x]) l) = map f l.
Proof. induction l as [|x l IH]; simpl; [reflexivity|]. f_equal. exact IH. Qed.

(** *** The pages of the loop *)

Lemma Qle_bool_floor z q :
  Qle_bool (inject_Z z) q = true <-> (z <= Qfloor q)%Z.
Proof.
  rewrite Qle_bool_iff. split.
  - intros H. apply Qfloor_resp_le in H. rewrite Qfloor_Z in H. exact H.
  - intros H. apply Qle_trans with (inject_Z (Qfloor q)); [|apply Qfloor_le].
    rewrite <- Zle_Qle. exact H.
Qed.

Lemma pages_lookup (n : Z) i page :
  map (fun k => Z.of_nat k) (seq 2 (Z.to_nat (n - 1))) !! i = Some page
  <-> (page = 2 + Z.of_nat i /\ page <= n)%Z.
Proof.
  change (map ?f ?l) with (f <$> l).
  rewrite list_lookup_fmap. split.
  - intros H. destruct (seq 2 (Z.to_nat (n - 1)) !! i) as [k|] eqn:Hk;
      [|discriminate].
    injection H as <-. apply lookup_seq in Hk as [-> Hi]. lia.
  - intros [-> Hn]. rewrite (lookup_seq_lt 2) by lia. simpl. f_equal. lia.
Qed.

(** The pages fetched beyond the first: the integers from 2, in
    ascending order, that are at most the count and at most the limit. *)
Lemma additional_pages_lookup count MAX i page :
  additional_pages (Math_min count (of_Z MAX)) !! i = Some page
  <-> (page = 2 + Z.of_nat i)%Z
      /\ num_le (of_Z page) count = true
      /\ (page <= MAX)%Z.
Proof.
  destruct count as [|[|]|q]; cbn [Math_min num_le of_Z additional_pages].
  - split; [discriminate|]. intros (_ & H & _). discriminate.
  - split; [discriminate|]. intros (_ & H & _). discriminate.
  - rewrite pages_lookup, Qfloor_Z. tauto.
  - destruct (Qle_bool q (inject_Z MAX)) eqn:Hq; unfold of_Z;
      cbn [additional_pages]; rewrite pages_lookup, Qle_bool_floor.
    + apply Qle_bool_iff, Qfloor_resp_le in Hq. rewrite Qfloor_Z in Hq.
      split; [intros [-> H]|intros (-> & H & _)]; repeat split; lia.
    + rewrite Qfloor_Z.
      assert (H : (MAX <= Qfloor q)%Z).
      { apply Qle_bool_floor, Qle_bool_iff, Qlt_le_weak, Qnot_le_lt.
        intros Hle. apply Qle_bool_iff in Hle. congruence. }
      split; [intros [-> H']|intros (-> & _ & H')]; repeat split; lia.
Qed.

(** The bound of the loop is never [+Infinity]: the loop ends. *)
Lemma pagesToFetch_bounded count MAX :
  Math_min count (of_Z MAX) <> Infinity false.
Proof.
  destruct count as [|[|]|q]; cbn [Math_min num_le of_Z]; try discriminate.
  destruct (Qle_bool q (inject_Z MAX)); discriminate.
Qed.

Lemma additional_pages_nil pagesToFetch :
  num_le pagesToFetch (of_Z 1) = true -> additional_pages pagesToFetch = [].
Proof.
  destruct pagesToFetch as [|[|]|q]; try reflexivity.
  cbn [num_le of_Z additional_pages]. intros H.
  apply Qle_bool_iff, Qfloor_resp_le in H. rewrite Qfloor_Z in H.
  replace (Z.to_nat (Qfloor q - 1)) with 0%nat by lia. reflexivity.
Qed.

(** The additional pages: one request each, in ascending order, and the
    results of each, whatever the order in which they settle. *)
Lemma additional_pages_run clean cfg net delay site base encoded results
    pagesToFetch :
  (if num_le pagesToFetch (of_Z 1) then ret results
   else
     additionalResults <-
       Promise_all delay
         (map (fun page =>
                 fetchSearchResults clean cfg net
                   (pageUrl cfg base encoded page) site)
              (additional_pages pagesToFetch)) ;;
     ret (results ++ concat additionalResults))%js
  = (map (fun page =>
            search_request cfg (pageUrl cfg base encoded page) (Some 8000%N))
         (additional_pages pagesToFetch),
     Ok (results
         ++ concat (map (fun page =>
                           page_results clean cfg net site
                             (pageUrl cfg base encoded page))
                        (additional_pages pagesToFetch)))).
Proof.
  destruct (num_le pagesToFetch (of_Z 1)) eqn:Hle.
  - rewrite (additional_pages_nil _ Hle). simpl. rewrite app_nil_r.
    reflexivity.
  - rewrite (Promise_all_fulfilled delay _
               (map (fun page =>
                       page_results clean cfg net site
                         (pageUrl cfg base encoded page))
                    (additional_pages pagesToFetch))).
    + rewrite bind_ok. cbn [fst snd ret]. rewrite app_nil_r, map_map.
      erewrite (map_ext (fun x => fst (fetchSearchResults _ _ _ _ _))).
      2:{ intros page. rewrite fetchSearchResults_total. reflexivity. }
      cbn [fst]. rewrite concat_singletons. reflexivity.
    + rewrite !map_map. apply map_ext. intros page.
      rewrite fetchSearchResults_total. reflexivity.
Qed.

(** The search once its URL is built and its first page is fetched. *)
Lemma searchFromApi_body clean cfg MAX net delay site query encoded :
  encodeURIComponent query = Ok encoded ->
  let base := ApiSite.api site in
  let initialUrl := base ++ ApiConfig.search_path cfg ++ encoded in
  let results := page_results clean cfg net site initialUrl in
  searchFromApi clean cfg MAX net delay site query
  = try_catch
      (bind ([search_request cfg initialUrl (Some 8000%N)], Ok results)
         (fun initialResults =>
            if (length initialResults =? 0)%nat then ret []
            else
              response <- fetch net (search_request cfg initialUrl None) ;;
              data <- json_of response ;;
              pageCount <- match data with
                           | JNull => throw TypeError
                           | JData _ pagecount => ret (pagecount_or_1 pagecount)
                           end ;;
              count <- lift (ToNumber pageCount) ;;
              let pagesToFetch := Math_min count (of_Z MAX) in
              if num_le pagesToFetch (of_Z 1) then ret initialResults
              else
                let pagePromises :=
                  map (fun page =>
                         fetchSearchResults clean cfg net
                           (pageUrl cfg base encoded page) site)
                      (additional_pages pagesToFetch) in
                additionalResults <- Promise_all delay pagePromises ;;
                ret (initialResults ++ concat additionalResults)))%js
      (fun error => ret []).
Proof.
  intros Henc base initialUrl results.
  unfold searchFromApi. rewrite Henc. unfold lift at 1. rewrite bind_ok.
  cbn [app]. rewrite <- surjective_pairing.
  rewrite fetchSearchResults_total. reflexivity.
Qed.

Lemma length_eqb_0 {A} (l : list A) : l <> [] -> (length l =? 0)%nat = false.
Proof. destruct l; [congruence|reflexivity]. Qed.

(** The search in closed form. *)
Lemma searchFromApi_outcome clean cfg MAX net delay site query :
  searchFromApi clean cfg MAX net delay site query
  = search_outcome clean cfg MAX net site query.
Proof.
  unfold search_outcome.
  destruct (encodeURIComponent query) as [encoded|e] eqn:Henc.
  2:{ unfold searchFromApi. rewrite Henc. reflexivity. }
  rewrite (searchFromApi_body _ _ _ _ _ _ _ _ Henc), bind_ok. cbn zeta.
  destruct (page_results clean cfg net site _) as [|r l] eqn:Hres;
    [reflexivity|].
  rewrite <- Hres.
  replace (length (page_results clean cfg net site
                     (ApiSite.api site ++ ApiConfig.search_path cfg ++ encoded))
           =? 0)%nat with false by (rewrite Hres; reflexivity).
  unfold fetch.
  destruct (net (search_request cfg _ None)) as [| |resp]; try reflexivity.
  rewrite bind_ok. unfold json_of.
  destruct (Response.json_ resp) as [[|list_ pagecount]|]; try reflexivity.
  rewrite !bind_ret_l. unfold lift.
  destruct (ToNumber (pagecount_or_1 pagecount)) as [count|e];
    [|reflexivity].
  rewrite bind_ok, additional_pages_run. reflexivity.
Qed.

(** *** How the page count is read *)

Lemma pagecount_missing_or_falsy pagecount :
  pagecount = None
  \/ (exists v, pagecount = Some v /\ truthy_val v = false) ->
  ToNumber (pagecount_or_1 pagecount) = Ok (of_Z 1).
Proof.
  intros [->|(v & -> & Hv)]; [reflexivity|].
  unfold pagecount_or_1. rewrite Hv. reflexivity.
Qed.

Lemma pagecount_integer (n : Z) :
  n <> 0%Z -> ToNumber (pagecount_or_1 (Some (VNum (of_Z n)))) = Ok (of_Z n).
Proof.
  intros Hn. unfold pagecount_or_1, truthy_val, of_Z.
  destruct (Qeq_bool (inject_Z n) 0) eqn:E; [|reflexivity].
  apply Qeq_bool_iff in E. exfalso. apply Hn.
  apply (inject_Z_injective n 0), E.
Qed.

Lemma additional_pages_integer (n MAX : Z) i page :
  additional_pages (Math_min (of_Z n) (of_Z MAX)) !! i = Some page
  <-> (page = 2 + Z.of_nat i /\ page <= Z.min n MAX)%Z.
Proof.
  rewrite additional_pages_lookup. unfold of_Z. cbn [num_le].
  rewrite Qle_bool_floor, Qfloor_Z. lia.
Qed.

(** C4, as the code has it: when page 1 has no result only page 1 is
    fetched; when it has some, page 1 is fetched a second time, without
    timeout, for the page count; if that fetch gives a body that is not
    [null] and whose count converts to a number, the pages from 2 up to
    the minimum of the count and [MAX_SEARCH_PAGES] are fetched in
    ascending order and the results are those of page 1 followed by those
    of each page in that order, whatever the order in which the pages
    settle; if the second fetch fails, gives no such body, or the
    conversion of the count throws, the search returns nothing.  The
    count is what JavaScript makes of [pagecount || 1] as a number: 1
    when [pagecount] is missing or falsy, the integer itself when it is
    one, and no page beyond the first when it is no number. *)
Theorem searchFromApi_pages clean cfg MAX net delay site query encoded :
  encodeURIComponent query = Ok encoded ->
  let base := ApiSite.api site in
  let initialUrl := base ++ ApiConfig.search_path cfg ++ encoded in
  let first := search_request cfg initialUrl (Some 8000%N) in
  let recount := search_request cfg initialUrl None in
  let results := page_results clean cfg net site in
  let run := searchFromApi clean cfg MAX net delay site query in
  (results initialUrl = [] -> run = ([first], Ok []))
  /\ (results initialUrl <> [] ->
      forall resp list_ pagecount count,
        net recount = Resolves resp ->
        Response.json_ resp = Some (JData list_ pagecount) ->
        ToNumber (pagecount_or_1 pagecount) = Ok count ->
        let pages := additional_pages (Math_min count (of_Z MAX)) in
        run = (first :: recount
                 :: map (fun page =>
                           search_request cfg (pageUrl cfg base encoded page)
                                          (Some 8000%N)) pages,
               Ok (results initialUrl
                   ++ concat (map (fun page =>
                                     results (pageUrl cfg base encoded page))
                                  pages))))
  /\ (results initialUrl <> [] ->
      (net recount = NetworkFailure \/ net recount = Aborted
       \/ exists resp,
            net recount = Resolves resp
            /\ (Response.json_ resp = None
                \/ Response.json_ resp = Some JNull
                \/ exists list_ pagecount e,
                     Response.json_ resp = Some (JData list_ pagecount)
                     /\ ToNumber (pagecount_or_1 pagecount) = Throw e)) ->
      run = ([first; recount], Ok []))
  /\ (forall count i page,
        additional_pages (Math_min count (of_Z MAX)) !! i = Some page
        <-> (page = 2 + Z.of_nat i)%Z
            /\ num_le (of_Z page) count = true
            /\ (page <= MAX)%Z)
  /\ (forall pagecount,
        pagecount = None
        \/ (exists v, pagecount = Some v /\ truthy_val v = false) ->
        ToNumber (pagecount_or_1 pagecount) = Ok (of_Z 1))
  /\ (forall n : Z,
        n <> 0%Z ->
        ToNumber (pagecount_or_1 (Some (VNum (of_Z n)))) = Ok (of_Z n))
  /\ (forall (n : Z) i page,
        additional_pages (Math_min (of_Z n) (of_Z MAX)) !! i = Some page
        <-> (page = 2 + Z.of_nat i /\ page <= Z.min n MAX)%Z)
  /\ additional_pages (Math_min NaN (of_Z MAX)) = [].
Proof.
  intros Henc base initialUrl first recount results run.
  unfold run. rewrite searchFromApi_outcome. unfold search_outcome.
  rewrite Henc. cbn zeta.
  fold base initialUrl first recount. fold (results initialUrl).
  split; [|split; [|split; [|split; [|split; [|split; [|split]]]]]].
  - intros ->. reflexivity.
  - intros Hne resp list_ pagecount count Hnet Hjson Hcount.
    destruct (results initialUrl) as [|r l]; [contradiction|].
    rewrite Hnet, Hjson, Hcount. reflexivity.
  - intros Hne Hfail.
    destruct (results initialUrl) as [|r l]; [contradiction|].
    destruct Hfail as [->|[->|(resp & -> & [->|[->|Hthrow]])]];
      try reflexivity.
    destruct Hthrow as (list_ & pagecount & e & -> & ->). reflexivity.
  - intros count i page. apply additional_pages_lookup.
  - apply pagecount_missing_or_falsy.
  - apply pagecount_integer.
  - intros n i page. apply additional_pages_integer.
  - reflexivity.
Qed.

Lemma searchFromApi_pages_witness :
  encodeURIComponent (str "a b") = Ok (str "a%20b")
  /\ page_results sample_clean sample_config sample_net sample_site
       sample_first_url <> []
  /\ sample_net (search_request sample_config sample_first_url None)
     = Resolves (json_response [plain_item] (Some 5%Z))
  /\ sample_search
     = (search_request sample_config sample_first_url (Some 8000%N)
        :: search_request sample_config sample_first_url None
        :: map (fun page =>
                  search_request sample_config (sample_page_url page)
                                 (Some 8000%N)) [2; 3]%Z,
        Ok (page_results sample_clean sample_config sample_net sample_site
              sample_first_url
            ++ concat
                 (map (fun page =>
                         page_results sample_clean sample_config sample_net
                           sample_site (sample_page_url page)) [2; 3]%Z)))
  /\ ToNumber (pagecount_or_1 (Some (VStr (str "5")))) = Ok (of_Z 5)
  /\ fst (searchFromApi sample_clean sample_config 3 string_count_net
            reversed sample_site (str "a b"))
     = fst sample_search.
Proof.
  assert (Hne : page_results sample_clean sample_config sample_net sample_site
                  sample_first_url <> []).
  { vm_compute. discriminate. }
  split; [reflexivity|]. split; [exact Hne|]. split; [reflexivity|].
  split; [|split; [vm_compute; reflexivity|]].
  - destruct (searchFromApi_pages sample_clean sample_config 3 sample_net
                reversed sample_site (str "a b") (str "a%20b") eq_refl)
      as (_ & Hpages & _).
    exact (Hpages Hne (json_response [plain_item] (Some 5%Z))
             (Some [Item plain_item]) (Some (VNum (of_Z 5))) (of_Z 5)
             eq_refl eq_refl eq_refl).
  - assert (Hne' : page_results sample_clean sample_config string_count_net
                     sample_site sample_first_url <> []).
    { vm_compute. discriminate. }
    destruct (searchFromApi_pages sample_clean sample_config 3
                string_count_net reversed sample_site (str "a b")
                (str "a%20b") eq_refl)
      as (_ & Hpages & _).
    rewrite (Hpages Hne' string_count_response (Some [Item plain_item])
               (Some (VStr (str "5"))) (of_Z 5) eq_refl eq_refl
               ltac:(vm_compute; reflexivity)).
    vm_compute. reflexivity.
Defined.

(** C4 as stated fails: page 1 has a result, the second fetch of page 1
    fails, and the search returns nothing. *)
Lemma searchFromApi_pages_counterexample :
  length (page_results sample_clean sample_config recount_fails sample_site
            sample_first_url) = 1
  /\ searchFromApi sample_clean sample_config 3 recount_fails reversed
       sample_site (str "a b")
     = ([search_request sample_config sample_first_url (Some 8000%N);
         search_request sample_config sample_first_url None],
        Ok []).
Proof. split; vm_compute; reflexivity. Qed.

(** ** The search never throws once its URL is built *)

Lemma unreserved_not_surrogate c :
  is_uri_unreserved c = true ->
  is_low_surrogate c = false /\ is_high_surrogate c = false.
Proof.
  intros H.
  assert (Hc : (c < 128)%N).
  { unfold is_uri_unreserved in H.
    repeat (apply orb_true_iff in H as [H|H]);
      try (apply andb_true_iff in H as [_ H]; apply N.leb_le in H; lia);
      try (apply N.eqb_eq in H; subst c; reflexivity);
      discriminate. }
  unfold is_low_surrogate, is_high_surrogate. split.
  - apply andb_false_iff. left. apply N.leb_gt. lia.
  - apply andb_false_iff. left. apply N.leb_gt. lia.
Qed.

(** [encodeURIComponent] returns on every string without unpaired
    surrogate, and only on those. *)
Lemma encodeURIComponent_well_formed s :
  well_formed s = true <-> exists encoded, encodeURIComponent s = Ok encoded.
Proof.
  assert (Hmap : forall (f : jsstring -> jsstring) r,
            (exists e, result_map f r = Ok e) <-> (exists e, r = Ok e)).
  { intros f [e|e]; simpl; split; intros [x Hx]; try discriminate; eauto. }
  remember (length s) as n eqn:Hn. revert s Hn.
  induction n as [n IH] using lt_wf_ind. intros s Hn.
  destruct s as [|c t]; [simpl; split; eauto|].
  cbn [well_formed encodeURIComponent].
  destruct (is_uri_unreserved c) eqn:Hu.
  - destruct (unreserved_not_surrogate c Hu) as [-> ->].
    rewrite Hmap. apply (IH (length t)); [subst n; simpl; lia|reflexivity].
  - destruct (is_low_surrogate c).
    { split; [discriminate|]. intros [e He]. discriminate. }
    destruct (is_high_surrogate c).
    + destruct t as [|d t'].
      { split; [discriminate|]. intros [e He]. discriminate. }
      destruct (is_low_surrogate d); simpl.
      * rewrite Hmap. apply (IH (length t')); [subst n; simpl; lia|reflexivity].
      * split; [discriminate|]. intros [e He]. discriminate.
    + rewrite Hmap. apply (IH (length t)); [subst n; simpl; lia|reflexivity].
Qed.

(** For every query that can be encoded, whatever the network does, the
    search returns a sequence. *)
Lemma searchFromApi_returns clean cfg MAX net delay site query :
  well_formed query = true ->
  exists results,
    snd (searchFromApi clean cfg MAX net delay site query) = Ok results.
Proof.
  intros Hwf. apply encodeURIComponent_well_formed in Hwf as [encoded Henc].
  rewrite (searchFromApi_body _ _ _ _ _ _ _ _ Henc).
  match goal with
  | |- context [try_catch ?b _] =>
      destruct (try_catch_returns b (@nil SearchResult.t)) as [l Hl]
  end.
  exists l. rewrite Hl. reflexivity.
Qed.

(** C2 fails on the code: the URL is built before the [try] block, and
    [encodeURIComponent] throws on a query with an unpaired surrogate; the
    search then throws without a single request. *)
Theorem searchFromApi_throws_on_lone_surrogate clean cfg MAX net delay site :
  searchFromApi clean cfg MAX net delay site lone_surrogate
  = ([], Throw URIError).
Proof. reflexivity. Qed.

(** ** Timeouts *)

(** Whenever page 1 has a result, the second request of the search is
    the fetch of the page count, and it carries no timeout. *)
Lemma recount_request_issued clean cfg MAX net delay site query encoded :
  encodeURIComponent query = Ok encoded ->
  let initialUrl :=
    ApiSite.api site ++ ApiConfig.search_path cfg ++ encoded in
  page_results clean cfg net site initialUrl <> [] ->
  exists trace,
    fst (searchFromApi clean cfg MAX net delay site query)
    = search_request cfg initialUrl (Some 8000%N)
      :: search_request cfg initialUrl None :: trace.
Proof.
  intros Henc initialUrl Hne.
  rewrite (searchFromApi_body _ _ _ _ _ _ _ _ Henc), bind_ok.
  fold initialUrl. rewrite (length_eqb_0 _ Hne).
  unfold fetch.
  destruct (net (search_request cfg initialUrl None)) as [| |resp];
    rewrite ?bind_throw, ?bind_ok; cbn [fst snd app].
  - simpl. eauto.
  - simpl. eauto.
  - match goal with
    | |- context [try_catch (_, ?r) _] => destruct r
    end; simpl; eauto.
Qed.

(** C9 fails on the code: of the four fetches of this search, the second
    one, which reads the page count, carries no timeout. *)
Theorem recount_fetch_without_timeout :
  map Request.timeout (fst sample_search)
  = [Some 8000%N; None; Some 8000%N; Some 8000%N]
  /\ map Request.url (fst sample_search)
     = [sample_first_url; sample_first_url;
        sample_page_url 2; sample_page_url 3].
Proof. split; vm_compute; reflexivity. Qed.

(** ** The replacements of [pageUrl] hold no dollar sign

    [String.prototype.replace] reads a dollar sign of its replacement
    string as the start of a special pattern; neither an encoded
    component nor a decimal numeral holds one. *)

Lemma hex_digit_not_dollar n : hex_digit n <> ch "$".
Proof.
  assert (E : ch "$" = 36%N) by reflexivity. rewrite E.
  unfold hex_digit. destruct (N.ltb_spec n 10); lia.
Qed.

Lemma escape_no_dollar cp : ~ In (ch "$") (escape cp).
Proof.
  unfold escape. intros H. apply in_concat in H as (w & Hw & Hin).
  apply in_map_iff in Hw as (b & <- & _).
  destruct Hin as [H|[H|[H|[]]]].
  - discriminate.
  - apply (hex_digit_not_dollar _ H).
  - apply (hex_digit_not_dollar _ H).
Qed.

Lemma encodeURIComponent_no_dollar s encoded :
  encodeURIComponent s = Ok encoded -> ~ In (ch "$") encoded.
Proof.
  remember (length s) as n eqn:Hn. revert s encoded Hn.
  induction n as [n IH] using lt_wf_ind. intros s encoded Hn.
  assert (Hmap : forall (w t : jsstring) e,
            length t < n -> ~ In (ch "$") w ->
            result_map (app w) (encodeURIComponent t) = Ok e ->
            ~ In (ch "$") e).
  { intros w t e Hlt Hw He.
    destruct (encodeURIComponent t) as [e'|] eqn:Ht; [|discriminate].
    injection He as <-. rewrite in_app_iff. intros [H|H]; [tauto|].
    exact (IH (length t) Hlt t e' eq_refl Ht H). }
  destruct s as [|c t]; [intros [= <-] []|].
  cbn [encodeURIComponent]. simpl in Hn.
  destruct (is_uri_unreserved c) eqn:Hu.
  - apply (Hmap [c]); [lia|].
    intros [->|[]]. vm_compute in Hu. discriminate.
  - destruct (is_low_surrogate c); [discriminate|].
    destruct (is_high_surrogate c).
    + destruct t as [|d t']; [discriminate|].
      destruct (is_low_surrogate d); [|discriminate].
      apply Hmap; [simpl in Hn; lia|apply escape_no_dollar].
    + apply Hmap; [lia|apply escape_no_dollar].
Qed.

Lemma N_toString_digits n : forallb is_digit (N_toString n) = true.
Proof.
  unfold N_toString.
  assert (H : forall d, forallb is_digit (str (NilEmpty.string_of_uint d)) = true).
  { induction d; simpl; try exact IHd; reflexivity. }
  destruct (N.to_uint n); try apply (H (Decimal.D0 _)); try reflexivity;
    simpl; apply H.
Qed.


(** * Further properties of the module *)

(** ** One page of a search *)

(** Every result of a page is the normal form of an object of its
    list. *)
Lemma page_results_provenance clean cfg net site url r :
  In r (page_results clean cfg net site url) ->
  exists resp items pagecount item,
    net (search_request cfg url (Some 8000%N)) = Resolves resp
    /\ Response.ok resp = true
    /\ Response.json_ resp = Some (JData (Some items) pagecount)
    /\ In (Item item) items
    /\ r = transformApiSearchItem clean item site.
Proof.
  rewrite page_results_cases.
  destruct (net _) as [| |resp]; try contradiction.
  destruct (Response.ok resp) eqn:Hok; [|contradiction].
  destruct (Response.json_ resp) as [[|[l|] pc]|] eqn:Hj; try contradiction.
  destruct (Array_map (normalize_item clean site) l) as [results|e] eqn:Hmap;
    [|contradiction].
  apply Array_map_returns in Hmap as (items & -> & ->).
  intros H. apply in_map_iff in H as (item & <- & Hin).
  exists resp, (map Item items), pc, item. repeat split; auto.
  apply in_map, Hin.
Qed.



(** ** The search as a whole *)


(** X2: the requests a search issues and the results it returns do not
    depend on the order in which its additional pages settle. *)
Theorem searchFromApi_settle_order clean cfg MAX net site query
    (delay1 delay2 : nat -> nat) :
  searchFromApi clean cfg MAX net delay1 site query
  = searchFromApi clean cfg MAX net delay2 site query.
Proof. rewrite !searchFromApi_outcome. reflexivity. Qed.

Lemma page_results_source clean cfg net site url r :
  In r (page_results clean cfg net site url) ->
  SearchResult.source r = ApiSite.key site
  /\ SearchResult.source_name r = ApiSite.name site.
Proof.
  intros H. apply page_results_provenance in H
    as (resp & items & pc & item & _ & _ & _ & _ & ->).
  split; reflexivity.
Qed.

(** The pages beyond the first are pages 2 to some page that is at most
    [MAX_SEARCH_PAGES]. *)
Lemma additional_pages_bound count MAX :
  exists n : Z,
    (n <= MAX)%Z
    /\ additional_pages (Math_min count (of_Z MAX))
       = map (fun k => Z.of_nat k) (seq 2 (Z.to_nat (n - 1))).
Proof.
  assert (Hnone : exists n : Z,
            (n <= MAX)%Z
            /\ @nil Z = map (fun k => Z.of_nat k) (seq 2 (Z.to_nat (n - 1)))).
  { exists (Z.min 1 MAX). split; [lia|].
    replace (Z.to_nat (Z.min 1 MAX - 1)) with 0%nat by lia. reflexivity. }
  destruct count as [|[|]|q]; cbn [Math_min num_le of_Z additional_pages];
    try exact Hnone.
  - exists MAX. rewrite Qfloor_Z. split; [lia|reflexivity].
  - destruct (Qle_bool q (inject_Z MAX)) eqn:Hq; unfold of_Z;
      cbn [additional_pages].
    + apply Qle_bool_iff, Qfloor_resp_le in Hq. rewrite Qfloor_Z in Hq.
      exists (Qfloor q). split; [exact Hq|reflexivity].
    + exists MAX. rewrite Qfloor_Z. split; [lia|reflexivity].
Qed.

(** X3: a search issues at most [MAX_SEARCH_PAGES + 1] requests (two
    when the limit is below 2); each goes to page 1 or to a page between
    2 and [MAX_SEARCH_PAGES], with the search headers. *)
Theorem search_request_cap clean cfg MAX net delay site query :
  length (fst (searchFromApi clean cfg MAX net delay site query))
  <= 2 + Z.to_nat (MAX - 1)
  /\ forall req,
       In req (fst (searchFromApi clean cfg MAX net delay site query)) ->
       Request.hdrs req = ApiConfig.search_headers cfg
       /\ exists encoded,
            encodeURIComponent query = Ok encoded
            /\ (Request.url req
                = ApiSite.api site ++ ApiConfig.search_path cfg ++ encoded
                \/ exists page,
                     (2 <= page <= MAX)%Z
                     /\ Request.url req
                        = pageUrl cfg (ApiSite.api site) encoded page).
Proof.
  rewrite searchFromApi_outcome. unfold search_outcome.
  destruct (encodeURIComponent query) as [encoded|e].
  2:{ split; [simpl; lia|intros req []]. }
  cbn zeta.
  assert (Hfirst : forall req t,
            req = search_request cfg
                    (ApiSite.api site ++ ApiConfig.search_path cfg ++ encoded) t ->
            Request.hdrs req = ApiConfig.search_headers cfg
            /\ exists enc, Ok encoded = Ok enc
                 /\ (Request.url req
                     = ApiSite.api site ++ ApiConfig.search_path cfg ++ enc
                     \/ exists page,
                          (2 <= page <= MAX)%Z
                          /\ Request.url req
                             = pageUrl cfg (ApiSite.api site) enc page)).
  { intros req t ->. split; [reflexivity|]. exists encoded. auto. }
  assert (Hshort : forall l : list Request.t,
            (forall req, In req l -> exists t,
               req = search_request cfg
                       (ApiSite.api site ++ ApiConfig.search_path cfg
                        ++ encoded) t) ->
            length l <= 2 ->
            length l <= 2 + Z.to_nat (MAX - 1)
            /\ forall req, In req l ->
                 Request.hdrs req = ApiConfig.search_headers cfg
                 /\ exists enc, Ok encoded = Ok enc
                      /\ (Request.url req
                          = ApiSite.api site ++ ApiConfig.search_path cfg ++ enc
                          \/ exists page,
                               (2 <= page <= MAX)%Z
                               /\ Request.url req
                                  = pageUrl cfg (ApiSite.api site) enc page)).
  { intros l Hl Hlen. split; [lia|]. intros req Hin.
    destruct (Hl req Hin) as [t Ht]. exact (Hfirst req t Ht). }
  destruct (page_results clean cfg net site _) as [|r l].
  { apply Hshort; [|simpl; lia]. intros req [<-|[]]. eauto. }
  destruct (net (search_request cfg _ None)) as [| |resp];
    try (apply Hshort; [|simpl; lia]; intros req [<-|[<-|[]]]; eauto).
  destruct (Response.json_ resp) as [[|list_ pagecount]|];
    try (apply Hshort; [|simpl; lia]; intros req [<-|[<-|[]]]; eauto).
  destruct (ToNumber (pagecount_or_1 pagecount)) as [count|e];
    try (apply Hshort; [|simpl; lia]; intros req [<-|[<-|[]]]; eauto).
  destruct (additional_pages_bound count MAX) as (n & Hn & ->).
  cbn [fst]. split.
  - cbn [length]. rewrite !List.length_map, length_seq. lia.
  - intros req [<-|[<-|Hin]]; try (eapply Hfirst; reflexivity).
    apply in_map_iff in Hin as (page & <- & Hpage).
    split; [reflexivity|]. exists encoded. split; [reflexivity|]. right.
    exists page. split; [|reflexivity].
    apply in_map_iff in Hpage as (k & <- & Hk). apply in_seq in Hk. lia.
Qed.

(** ** Detail lookups in closed form *)

Lemma handleSpecialSourceDetail_outcome clean cfg net id site :
  handleSpecialSourceDetail clean cfg net id site
  = ([scrape_request cfg site id],
     match net (scrape_request cfg site id) with
     | NetworkFailure => Throw TypeError
     | Aborted => Throw AbortError
     | Resolves resp =>
         if Response.ok resp
         then Ok {| SearchResult.id := id;
                    SearchResult.title := scraped_title (Response.text resp);
                    SearchResult.poster := scraped_poster (Response.text resp);
                    SearchResult.episodes :=
                      scrape_episodes site (Response.text resp);
                    SearchResult.source := ApiSite.key site;
                    SearchResult.source_name := ApiSite.name site;
                    SearchResult.class := Some [];
                    SearchResult.year := scraped_year (Response.text resp);
                    SearchResult.desc :=
                      match match_group desc_pre desc_cap desc_post
                              (Response.text resp) with
                      | Some d => clean (Some d)
                      | None => []
                      end;
                    SearchResult.type_name := Some [];
                    SearchResult.douban_id := Some 0%Z |}
         else Throw (Error (msg_page_request_failed
                              ++ N_toString (Response.status resp)))
     end).
Proof.
  unfold handleSpecialSourceDetail, fetch, bind, scrape_request.
  destruct (net _) as [| |resp]; try reflexivity.
  destruct (Response.ok resp); reflexivity.
Qed.

Lemma getDetailFromJson_outcome clean cfg net site id :
  getDetailFromJson clean cfg net site id
  = ([detail_request cfg site id],
     match net (detail_request cfg site id) with
     | NetworkFailure => Throw TypeError
     | Aborted => Throw AbortError
     | Resolves resp =>
         if Response.ok resp then
           match Response.json_ resp with
           | None => Throw SyntaxError
           | Some (JData (Some (NullItem :: _)) _) => Throw TypeError
           | Some (JData (Some (Item videoDetail :: _)) _) =>
               Ok {| SearchResult.id := id;
                     SearchResult.title := ApiSearchItem.vod_name videoDetail;
                     SearchResult.poster := ApiSearchItem.vod_pic videoDetail;
                     SearchResult.episodes := detail_episodes videoDetail;
                     SearchResult.source := ApiSite.key site;
                     SearchResult.source_name := ApiSite.name site;
                     SearchResult.class := ApiSearchItem.vod_class videoDetail;
                     SearchResult.year :=
                       normalize_year (ApiSearchItem.vod_year videoDetail);
                     SearchResult.desc :=
                       clean (ApiSearchItem.vod_content videoDetail);
                     SearchResult.type_name :=
                       ApiSearchItem.type_name videoDetail;
                     SearchResult.douban_id :=
                       ApiSearchItem.vod_douban_id videoDetail |}
           | Some _ => Throw (Error msg_detail_invalid)
           end
         else Throw (Error (msg_detail_request_failed
                              ++ N_toString (Response.status resp)))
     end).
Proof.
  unfold getDetailFromJson, fetch, bind, json_of, detail_request.
  destruct (net _) as [| |resp]; try reflexivity.
  destruct (Response.ok resp); simpl; [|reflexivity].
  destruct (Response.json_ resp) as [[|[[|[v|] l]|] pc]|]; reflexivity.
Qed.

(** X4: a detail lookup issues exactly one request, in either branch and
    whatever the outcome, with the detail headers and a timeout of 10000;
    when that fetch is rejected the lookup throws the same error, a
    [TypeError] for a network failure and an [AbortError] for an abort. *)
Theorem detail_single_request clean cfg net site id :
  fst (getDetailFromApi clean cfg net site id)
  = [detail_lookup_request cfg site id]
  /\ Request.timeout (detail_lookup_request cfg site id) = Some 10000%N
  /\ Request.hdrs (detail_lookup_request cfg site id)
     = ApiConfig.detail_headers cfg
  /\ (net (detail_lookup_request cfg site id) = NetworkFailure ->
      snd (getDetailFromApi clean cfg net site id) = Throw TypeError)
  /\ (net (detail_lookup_request cfg site id) = Aborted ->
      snd (getDetailFromApi clean cfg net site id) = Throw AbortError).
Proof.
  unfold getDetailFromApi, detail_lookup_request.
  destruct (truthy (ApiSite.detail site)).
  - rewrite handleSpecialSourceDetail_outcome. cbn [fst snd].
    repeat split; intros ->; reflexivity.
  - rewrite getDetailFromJson_outcome. cbn [fst snd].
    repeat split; intros ->; reflexivity.
Qed.

Lemma detail_single_request_witness :
  (fun _ => NetworkFailure) (detail_lookup_request sample_config sample_site
                               (str "42")) = NetworkFailure
  /\ snd (getDetailFromApi sample_clean sample_config
            (fun _ => NetworkFailure) sample_site (str "42"))
     = Throw TypeError
  /\ snd (getDetailFromApi sample_clean sample_config
            (fun _ => Aborted) sample_scrape_site (str "42"))
     = Throw AbortError.
Proof.
  split; [reflexivity|]. split.
  - exact (proj1 (proj2 (proj2 (proj2
             (detail_single_request sample_clean sample_config
                (fun _ => NetworkFailure) sample_site (str "42")))))
             eq_refl).
  - exact (proj2 (proj2 (proj2 (proj2
             (detail_single_request sample_clean sample_config
                (fun _ => Aborted) sample_scrape_site (str "42")))))
             eq_refl).
Defined.

(** X5: the HTML branch returns a result exactly when its fetch resolves
    with a status in [200..299], whatever the page holds; with another
    status it throws an error whose message is the failed-page text
    followed by the status; a result carries the id asked for, the
    site's key and name, an empty class and type and the rating id 0. *)
Theorem scrape_detail_outcomes clean cfg net site id :
  truthy (ApiSite.detail site) = true ->
  ((exists r, snd (getDetailFromApi clean cfg net site id) = Ok r) <->
   exists resp, net (scrape_request cfg site id) = Resolves resp
                /\ Response.ok resp = true)
  /\ (forall resp,
        net (scrape_request cfg site id) = Resolves resp ->
        Response.ok resp = false ->
        snd (getDetailFromApi clean cfg net site id)
        = Throw (Error (msg_page_request_failed
                          ++ N_toString (Response.status resp))))
  /\ (forall r,
        snd (getDetailFromApi clean cfg net site id) = Ok r ->
        SearchResult.id r = id
        /\ SearchResult.source r = ApiSite.key site
        /\ SearchResult.source_name r = ApiSite.name site
        /\ SearchResult.class r = Some []
        /\ SearchResult.type_name r = Some []
        /\ SearchResult.douban_id r = Some 0%Z).
Proof.
  intros Hd. unfold getDetailFromApi. rewrite Hd.
  rewrite handleSpecialSourceDetail_outcome. cbn [snd].
  split; [|split].
  - split.
    + intros [r Hr]. destruct (net _) as [| |resp]; try discriminate.
      exists resp. split; [reflexivity|].
      destruct (Response.ok resp); [reflexivity|discriminate].
    + intros (resp & -> & ->). eexists. reflexivity.
  - intros resp -> ->. reflexivity.
  - intros r Hr. destruct (net _) as [| |resp]; try discriminate.
    destruct (Response.ok resp); [|discriminate].
    injection Hr as <-. repeat split; reflexivity.
Qed.

Lemma scrape_detail_outcomes_witness :
  truthy (ApiSite.detail sample_scrape_site) = true
  /\ always not_found_response
       (scrape_request sample_config sample_scrape_site (str "42"))
     = Resolves not_found_response
  /\ Response.ok not_found_response = false
  /\ snd (getDetailFromApi sample_clean sample_config
            (always not_found_response) sample_scrape_site (str "42"))
     = Throw (Error (msg_page_request_failed ++ str "404")).
Proof.
  split; [reflexivity|]. split; [reflexivity|]. split; [reflexivity|].
  exact (proj1 (proj2 (scrape_detail_outcomes sample_clean sample_config
                         (always not_found_response) sample_scrape_site
                         (str "42") eq_refl))
           not_found_response eq_refl eq_refl).
Defined.

(** ** Where results come from *)

(** Every result of a search is a result of one of its pages, fetched
    by a request of the search that carries the timeout. *)
Lemma search_results_In clean cfg MAX net delay site query tr results r :
  searchFromApi clean cfg MAX net delay site query = (tr, Ok results) ->
  In r results ->
  exists url,
    In (search_request cfg url (Some 8000%N)) tr
    /\ In r (page_results clean cfg net site url).
Proof.
  rewrite searchFromApi_outcome. unfold search_outcome.
  destruct (encodeURIComponent query) as [encoded|e]; [|discriminate].
  cbn zeta.
  destruct (page_results clean cfg net site _) as [|r1 l1] eqn:H1.
  { intros [= _ <-] []. }
  destruct (net (search_request cfg _ None)) as [| |resp];
    try (intros [= _ <-] Hnil; destruct Hnil; fail).
  destruct (Response.json_ resp) as [[|list_ pagecount]|];
    try (intros [= _ <-] Hnil; destruct Hnil; fail).
  destruct (ToNumber (pagecount_or_1 pagecount)) as [count|e];
    try (intros [= _ <-] Hnil; destruct Hnil; fail).
  intros [= <- <-] Hin. rewrite app_comm_cons in Hin.
  apply in_app_iff in Hin as [Hin|Hin].
  - exists (ApiSite.api site ++ ApiConfig.search_path cfg ++ encoded).
    split; [left; reflexivity|]. rewrite H1. exact Hin.
  - apply in_concat in Hin as (l & Hl & Hin).
    apply in_map_iff in Hl as (page & <- & Hp).
    exists (pageUrl cfg (ApiSite.api site) encoded page).
    split; [|exact Hin]. right. right.
    apply (in_map (fun page =>
                     search_request cfg
                       (pageUrl cfg (ApiSite.api site) encoded page)
                       (Some 8000%N))), Hp.
Qed.

Lemma search_result_item clean cfg MAX net delay site query tr results r :
  searchFromApi clean cfg MAX net delay site query = (tr, Ok results) ->
  In r results ->
  exists item, r = transformApiSearchItem clean item site.
Proof.
  intros Hrun Hin.
  destruct (search_results_In _ _ _ _ _ _ _ _ _ _ Hrun Hin) as (url & _ & H).
  apply page_results_provenance in H
    as (resp & items & pc & item & _ & _ & _ & _ & ->).
  exists item. reflexivity.
Qed.

(** X6: every result of a search and every result of a detail lookup is
    attributed to the site that was asked: its source is the key of the
    site and its source name the name of the site. *)
Theorem results_attributed_to_site clean cfg net site :
  (forall MAX delay query tr results r,
     searchFromApi clean cfg MAX net delay site query = (tr, Ok results) ->
     In r results ->
     SearchResult.source r = ApiSite.key site
     /\ SearchResult.source_name r = ApiSite.name site)
  /\ (forall id tr r,
        getDetailFromApi clean cfg net site id = (tr, Ok r) ->
        SearchResult.source r = ApiSite.key site
        /\ SearchResult.source_name r = ApiSite.name site
        /\ SearchResult.id r = id).
Proof.
  split.
  - intros MAX delay query tr results r Hrun Hin.
    destruct (search_result_item _ _ _ _ _ _ _ _ _ _ Hrun Hin) as [item ->].
    split; reflexivity.
  - intros id tr r. unfold getDetailFromApi.
    destruct (truthy (ApiSite.detail site)).
    + rewrite handleSpecialSourceDetail_outcome.
      destruct (net _) as [| |resp]; try discriminate.
      destruct (Response.ok resp); [|discriminate].
      intros [= _ <-]. repeat split; reflexivity.
    + rewrite getDetailFromJson_outcome.
      destruct (net _) as [| |resp]; try discriminate.
      destruct (Response.ok resp); [|discriminate].
      destruct (Response.json_ resp) as [[|[[|[v|] l]|] pc]|]; try discriminate.
      intros [= _ <-]. repeat split; reflexivity.
Qed.

Lemma results_attributed_to_site_witness :
  sample_search = (fst sample_search,
                   Ok (concat (replicate 3
                         [transformApiSearchItem sample_clean plain_item
                            sample_site])))
  /\ In (transformApiSearchItem sample_clean plain_item sample_site)
        (concat (replicate 3
           [transformApiSearchItem sample_clean plain_item sample_site]))
  /\ SearchResult.source
       (transformApiSearchItem sample_clean plain_item sample_site)
     = ApiSite.key sample_site
  /\ plain_detail = (fst plain_detail, Ok plain_detail_result)
  /\ SearchResult.source plain_detail_result = ApiSite.key sample_site.
Proof.
  assert (Hrun : sample_search
                 = (fst sample_search,
                    Ok (concat (replicate 3
                          [transformApiSearchItem sample_clean plain_item
                             sample_site])))).
  { vm_compute. reflexivity. }
  assert (Hin : In (transformApiSearchItem sample_clean plain_item sample_site)
                   (concat (replicate 3
                      [transformApiSearchItem sample_clean plain_item
                         sample_site]))).
  { left. reflexivity. }
  assert (Hdet : plain_detail = (fst plain_detail, Ok plain_detail_result)).
  { vm_compute. reflexivity. }
  destruct (results_attributed_to_site sample_clean sample_config sample_net
              sample_site) as [Hsearch _].
  destruct (results_attributed_to_site sample_clean sample_config
              (always (json_response [plain_item] None)) sample_site)
    as [_ Hdetail].
  split; [exact Hrun|]. split; [exact Hin|].
  split; [exact (proj1 (Hsearch _ _ _ _ _ _ Hrun Hin))|].
  split; [exact Hdet|]. exact (proj1 (Hdetail _ _ _ Hdet)).
Defined.

(** ** White space at the ends: [trim] *)

Lemma rev_reverse {A} (l : list A) : rev l = reverse l.
Proof. unfold reverse. apply rev_alt. Qed.

Lemma trimStart_split s :
  exists a, s = a ++ trimStart s /\ forallb is_space a = true.
Proof.
  induction s as [|c t (a & E & Ha)]; [exists []; auto|].
  simpl. destruct (is_space c) eqn:Hc.
  - exists (c :: a). simpl. rewrite Hc, Ha. split; [congruence|reflexivity].
  - exists []. auto.
Qed.

Lemma trimStart_head s c : head (trimStart s) = Some c -> is_space c = false.
Proof.
  induction s as [|x t IH]; [discriminate|]. simpl.
  destruct (is_space x) eqn:Hx; [exact IH|]. intros [= <-]. exact Hx.
Qed.

Lemma trimStart_id s :
  (forall c, head s = Some c -> is_space c = false) -> trimStart s = s.
Proof.
  destruct s as [|c t]; [reflexivity|]. intros H. simpl.
  rewrite (H c eq_refl). reflexivity.
Qed.

(** [trim] removes white space at both ends and nothing else. *)
Lemma trim_split s :
  exists a b, s = a ++ trim s ++ b
              /\ forallb is_space a = true /\ forallb is_space b = true.
Proof.
  unfold trim. destruct (trimStart_split s) as (a & E1 & Ha).
  destruct (trimStart_split (rev (trimStart s))) as (b & E2 & Hb).
  exists a, (rev b). split; [|split; [exact Ha|]].
  - rewrite E1 at 1. f_equal.
    rewrite <- (rev_involutive (trimStart s)) at 1.
    rewrite E2 at 1. apply rev_app_distr.
  - rewrite forallb_forall in *. intros x Hx. apply Hb, in_rev, Hx.
Qed.

Lemma trim_last s c : last (trim s) = Some c -> is_space c = false.
Proof.
  unfold trim. rewrite rev_reverse, last_reverse. apply trimStart_head.
Qed.

Lemma trim_head s c : head (trim s) = Some c -> is_space c = false.
Proof.
  unfold trim. rewrite rev_reverse, head_reverse.
  destruct (trimStart_split (rev (trimStart s))) as (b & E & _).
  intros Hl.
  assert (Hlast : last (rev (trimStart s)) = Some c).
  { rewrite E. rewrite last_app, Hl. reflexivity. }
  rewrite rev_reverse, last_reverse in Hlast.
  apply (trimStart_head s), Hlast.
Qed.

Lemma trim_id s :
  (forall c, head s = Some c -> is_space c = false) ->
  (forall c, last s = Some c -> is_space c = false) ->
  trim s = s.
Proof.
  intros Hh Hl. unfold trim. rewrite (trimStart_id s Hh).
  rewrite trimStart_id; [apply rev_involutive|].
  intros c. rewrite rev_reverse, head_reverse. apply Hl.
Qed.

(** ** Capture groups *)

Lemma group_here_sound pre cap post s m :
  group_here pre cap post s = Some m ->
  lang cap m /\ exists p q rest,
    s = p ++ m ++ q ++ rest /\ lang pre p /\ lang post q.
Proof.
  unfold group_here. intros H. apply head_Some in H as [l' H].
  assert (Hin : In m (flat_map (fun mr1 =>
            flat_map (fun mr2 => map (fun _ => fst mr2) (parse post (snd mr2)))
                     (parse cap (snd mr1))) (parse pre s))).
  { rewrite H. left. reflexivity. }
  apply in_flat_map in Hin as ([p s1] & Hp & Hin).
  apply in_flat_map in Hin as ([m' s2] & Hm & Hin).
  apply in_map_iff in Hin as ([q rest] & E & Hq). simpl in *. subst m'.
  apply parse_sound in Hp as [-> Lp]. apply parse_sound in Hm as [-> Lm].
  apply parse_sound in Hq as [-> Lq]. split; [exact Lm|].
  exists p, q, rest. auto.
Qed.

Lemma match_group_sound pre cap post s m :
  match_group pre cap post s = Some m ->
  lang cap m /\ exists a p q rest,
    s = a ++ p ++ m ++ q ++ rest /\ lang pre p /\ lang post q.
Proof.
  induction s as [|c t IH]; simpl.
  - destruct (group_here pre cap post []) eqn:Hg; [|discriminate].
    intros [= <-]. apply group_here_sound in Hg as [L (p & q & rest & E & Hp & Hq)].
    split; [exact L|]. exists [], p, q, rest. auto.
  - destruct (group_here pre cap post (c :: t)) eqn:Hg.
    + intros [= <-].
      apply group_here_sound in Hg as [L (p & q & rest & E & Hp & Hq)].
      split; [exact L|]. exists [], p, q, rest. auto.
    + intros H. destruct (IH H) as [L (a & p & q & rest & -> & Hp & Hq)].
      split; [exact L|]. exists (c :: a), p, q, rest. auto.
Qed.

(** ** The year of a result *)

Lemma normalize_year_shape y : year_shape (normalize_year y).
Proof.
  unfold normalize_year, year_shape.
  destruct (truthy y); [|left; reflexivity]. right.
  rewrite match_first_four_digits.
  destruct (first_four_digits (default [] y)) as [d|] eqn:Hd; [|left; reflexivity].
  right. apply first_four_digits_spec in Hd as (Hl & Hdig & _). auto.
Qed.

Lemma lang_four_digits y :
  lang four_digits y -> length y = 4 /\ forallb is_digit y = true.
Proof.
  intros (Hall & Hlo & Hhi). specialize (Hhi 4 eq_refl). split; [lia|].
  apply forallb_forall. apply List.Forall_forall. exact Hall.
Qed.

Lemma scraped_year_shape html :
  scraped_year html = str "unknown"
  \/ (length (scraped_year html) = 4
      /\ forallb is_digit (scraped_year html) = true
      /\ factor (str ">" ++ scraped_year html ++ str "<") html).
Proof.
  unfold scraped_year.
  destruct (match_group _ _ _ html) as [y|] eqn:Hy; [right|left; reflexivity].
  apply match_group_sound in Hy as [L (a & p & q & rest & -> & -> & ->)].
  apply lang_four_digits in L as [Hl Hd]. repeat split; auto.
  exists a, rest. rewrite <- !app_assoc. reflexivity.
Qed.

(** X7: the year of every result of a search and of a detail lookup is
    the word [unknown], the empty string or four digits; for a scraped
    detail it is never empty. *)
Theorem results_year_shape clean cfg net site :
  (forall MAX delay query tr results r,
     searchFromApi clean cfg MAX net delay site query = (tr, Ok results) ->
     In r results -> year_shape (SearchResult.year r))
  /\ (forall id tr r,
        getDetailFromApi clean cfg net site id = (tr, Ok r) ->
        year_shape (SearchResult.year r)
        /\ (truthy (ApiSite.detail site) = true ->
            SearchResult.year r <> [])).
Proof.
  split.
  - intros MAX delay query tr results r Hrun Hin.
    destruct (search_result_item _ _ _ _ _ _ _ _ _ _ Hrun Hin) as [item ->].
    apply normalize_year_shape.
  - intros id tr r. unfold getDetailFromApi.
    destruct (truthy (ApiSite.detail site)).
    + rewrite handleSpecialSourceDetail_outcome.
      destruct (net _) as [| |resp]; try discriminate.
      destruct (Response.ok resp); [|discriminate].
      intros [= _ <-]. cbn [SearchResult.year].
      destruct (scraped_year_shape (Response.text resp)) as [E|(Hl & Hd & _)].
      * rewrite E. split; [left; reflexivity|]. intros _. discriminate.
      * split; [right; right; auto|]. intros _ E. rewrite E in Hl.
        discriminate.
    + rewrite getDetailFromJson_outcome.
      destruct (net _) as [| |resp]; try discriminate.
      destruct (Response.ok resp); [|discriminate].
      destruct (Response.json_ resp) as [[|[[|[v|] l]|] pc]|]; try discriminate.
      intros [= _ <-]. split; [apply normalize_year_shape|discriminate].
Qed.

Lemma results_year_shape_witness :
  sample_scrape = (fst sample_scrape, Ok sample_scrape_result)
  /\ year_shape (SearchResult.year sample_scrape_result)
  /\ truthy (ApiSite.detail sample_scrape_site) = true
  /\ SearchResult.year sample_scrape_result <> [].
Proof.
  assert (Hrun : sample_scrape = (fst sample_scrape, Ok sample_scrape_result)).
  { vm_compute. reflexivity. }
  destruct (results_year_shape sample_clean sample_config
              (always (html_response sample_page)) sample_scrape_site)
    as [_ Hdetail].
  destruct (Hdetail _ _ _ Hrun) as [Hshape Hne].
  split; [exact Hrun|]. split; [exact Hshape|]. split; [reflexivity|].
  exact (Hne eq_refl).
Defined.

(** ** The fields scraped from a page *)

Lemma scrape_returns clean cfg net site id tr r :
  truthy (ApiSite.detail site) = true ->
  getDetailFromApi clean cfg net site id = (tr, Ok r) ->
  exists resp,
    net (scrape_request cfg site id) = Resolves resp
    /\ Response.ok resp = true
    /\ SearchResult.title r = scraped_title (Response.text resp)
    /\ SearchResult.poster r = scraped_poster (Response.text resp)
    /\ SearchResult.year r = scraped_year (Response.text resp)
    /\ SearchResult.episodes r = scrape_episodes site (Response.text resp).
Proof.
  intros Hd. unfold getDetailFromApi. rewrite Hd.
  rewrite handleSpecialSourceDetail_outcome.
  destruct (net _) as [| |resp]; try discriminate.
  destruct (Response.ok resp) eqn:Hok; [|discriminate].
  intros [= _ <-]. exists resp. repeat split; auto.
Qed.

Lemma factor_refl (s : jsstring) : factor s s.
Proof. exists [], []. rewrite app_nil_r. reflexivity. Qed.

Lemma factor_trans (u v w : jsstring) : factor u v -> factor v w -> factor u w.
Proof.
  intros (a & b & ->) (c & d & ->). exists (c ++ a), (b ++ d).
  rewrite <- !app_assoc. reflexivity.
Qed.

Lemma factor_nil (s : jsstring) : factor [] s.
Proof. exists [], s. reflexivity. Qed.

Lemma factor_In (u s : jsstring) c : factor u s -> In c u -> In c s.
Proof. intros (a & b & ->) H. rewrite !in_app_iff. auto. Qed.

Lemma trim_factor s : factor (trim s) s.
Proof. destruct (trim_split s) as (a & b & E & _). exists a, b. exact E. Qed.

(** X8: the year of a scraped detail is either the word [unknown] or
    four digits that stand in the page between a [>] and a [<]. *)
Theorem scraped_year_in_page clean cfg net site id tr r :
  truthy (ApiSite.detail site) = true ->
  getDetailFromApi clean cfg net site id = (tr, Ok r) ->
  exists resp,
    net (scrape_request cfg site id) = Resolves resp
    /\ (SearchResult.year r = str "unknown"
        \/ (length (SearchResult.year r) = 4
            /\ forallb is_digit (SearchResult.year r) = true
            /\ factor (str ">" ++ SearchResult.year r ++ str "<")
                      (Response.text resp))).
Proof.
  intros Hd Hrun.
  destruct (scrape_returns _ _ _ _ _ _ _ Hd Hrun)
    as (resp & Hnet & _ & _ & _ & -> & _).
  exists resp. split; [exact Hnet|]. apply scraped_year_shape.
Qed.

Lemma scraped_year_in_page_witness :
  truthy (ApiSite.detail sample_scrape_site) = true
  /\ sample_scrape = (fst sample_scrape, Ok sample_scrape_result)
  /\ exists resp,
       always (html_response sample_page)
         (scrape_request sample_config sample_scrape_site (str "42"))
       = Resolves resp
       /\ (SearchResult.year sample_scrape_result = str "unknown"
           \/ (length (SearchResult.year sample_scrape_result) = 4
               /\ forallb is_digit (SearchResult.year sample_scrape_result)
                  = true
               /\ factor (str ">" ++ SearchResult.year sample_scrape_result
                          ++ str "<")
                         (Response.text resp))).
Proof.
  assert (Hrun : sample_scrape = (fst sample_scrape, Ok sample_scrape_result)).
  { vm_compute. reflexivity. }
  split; [reflexivity|]. split; [exact Hrun|].
  exact (scraped_year_in_page sample_clean sample_config
           (always (html_response sample_page)) sample_scrape_site (str "42")
           _ _ eq_refl Hrun).
Defined.

(** X9: the title of a scraped detail holds no [<] and neither starts nor
    ends with white space; when it is not empty it is the trimmed text
    that stands in the page between the end of an opening [h1] tag and
    the closing [h1] tag. *)
Theorem scraped_title_shape clean cfg net site id tr r :
  truthy (ApiSite.detail site) = true ->
  getDetailFromApi clean cfg net site id = (tr, Ok r) ->
  ~ In (ch "<") (SearchResult.title r)
  /\ (forall c, head (SearchResult.title r) = Some c -> is_space c = false)
  /\ (forall c, last (SearchResult.title r) = Some c -> is_space c = false)
  /\ (SearchResult.title r <> [] ->
      exists resp a tag text rest,
        net (scrape_request cfg site id) = Resolves resp
        /\ Response.text resp = a ++ tag ++ text ++ str "</h1>" ++ rest
        /\ startsWith (str "<h1") tag = true
        /\ last tag = Some (ch ">")
        /\ SearchResult.title r = trim text).
Proof.
  intros Hd Hrun.
  destruct (scrape_returns _ _ _ _ _ _ _ Hd Hrun)
    as (resp & Hnet & _ & -> & _).
  unfold scraped_title.
  destruct (match_group title_pre title_cap title_post (Response.text resp))
    as [t|] eqn:Ht.
  2:{ repeat split; try discriminate; auto. intros H. contradiction. }
  apply match_group_sound in Ht
    as [(Hall & _) (a & p & q & rest & E & Lp & ->)].
  split; [|split; [apply trim_head|split; [apply trim_last|]]].
  - intros Hin. apply (factor_In _ _ _ (trim_factor t)) in Hin.
    rewrite List.Forall_forall in Hall. apply Hall in Hin.
    vm_compute in Hin. discriminate.
  - intros _. exists resp, a, p, t, rest. split; [exact Hnet|].
    split; [exact E|].
    destruct Lp as (h & r1 & -> & -> & g & r2 & -> & _ & ->).
    split; [apply startsWith_app|]. split; [|reflexivity].
    rewrite !app_assoc. apply (last_snoc (ch ">")).
Qed.

Lemma scraped_title_shape_witness :
  truthy (ApiSite.detail sample_scrape_site) = true
  /\ sample_scrape = (fst sample_scrape, Ok sample_scrape_result)
  /\ SearchResult.title sample_scrape_result = str "The Title"
  /\ ~ In (ch "<") (SearchResult.title sample_scrape_result).
Proof.
  assert (Hrun : sample_scrape = (fst sample_scrape, Ok sample_scrape_result)).
  { vm_compute. reflexivity. }
  split; [reflexivity|]. split; [exact Hrun|]. split; [reflexivity|].
  exact (proj1 (scraped_title_shape sample_clean sample_config
                  (always (html_response sample_page)) sample_scrape_site
                  (str "42") _ _ eq_refl Hrun)).
Defined.

Lemma url_unit_not_space c : url_unit c = true -> is_space c = false.
Proof.
  unfold url_unit. intros H. apply negb_true_iff in H.
  apply orb_false_iff in H as [_ H]. exact H.
Qed.

Lemma lang_coverPattern c :
  lang coverPattern c ->
  is_http_url c = true /\ endsWith (str ".jpg") c = true
  /\ Forall (fun u => url_unit u = true) c.
Proof.
  intros (h & r1 & -> & -> & o & r2 & -> & Ho & k & r3 & -> & -> & b & e
          & -> & (Hb & _) & ->).
  apply lang_opt_s in Ho. split; [|split].
  - destruct Ho as [-> | ->]; reflexivity.
  - rewrite !app_assoc. apply endsWith_app.
  - assert (Hlit : forall w : jsstring,
              forallb url_unit w = true -> Forall (fun u => url_unit u = true) w).
    { intros w H. apply List.Forall_forall. apply forallb_forall. exact H. }
    repeat apply Forall_app_2; try (apply Hlit; reflexivity); try exact Hb.
    destruct Ho as [-> | ->]; [constructor|apply Hlit; reflexivity].
Qed.

(** X10: the poster of a scraped detail is either empty or a link of the
    page that starts with [http://] or [https://], ends in [.jpg] and
    holds no quote and no white space. *)
Theorem scraped_poster_shape clean cfg net site id tr r :
  truthy (ApiSite.detail site) = true ->
  getDetailFromApi clean cfg net site id = (tr, Ok r) ->
  SearchResult.poster r = []
  \/ (is_http_url (SearchResult.poster r) = true
      /\ endsWith (str ".jpg") (SearchResult.poster r) = true
      /\ Forall (fun u => url_unit u = true) (SearchResult.poster r)
      /\ exists resp,
           net (scrape_request cfg site id) = Resolves resp
           /\ factor (SearchResult.poster r) (Response.text resp)).
Proof.
  intros Hd Hrun.
  destruct (scrape_returns _ _ _ _ _ _ _ Hd Hrun)
    as (resp & Hnet & _ & _ & -> & _).
  unfold scraped_poster.
  destruct (match_all coverPattern (Response.text resp)) as [|c l] eqn:Hm;
    [left; reflexivity|right].
  assert (Hin : In c (match_all coverPattern (Response.text resp))).
  { rewrite Hm. left. reflexivity. }
  apply match_all_sound in Hin as [L Hf].
  apply lang_coverPattern in L as (Hh & He & Hall).
  assert (Htrim : trim c = c).
  { apply trim_id; intros u Hu; apply url_unit_not_space;
      rewrite Forall_forall in Hall; apply Hall.
    - apply head_Some_elem_of, Hu.
    - apply last_Some_elem_of, Hu. }
  rewrite Htrim. repeat split; auto. exists resp. split; [exact Hnet|exact Hf].
Qed.

Lemma scraped_poster_shape_witness :
  truthy (ApiSite.detail sample_scrape_site) = true
  /\ sample_scrape = (fst sample_scrape, Ok sample_scrape_result)
  /\ SearchResult.poster sample_scrape_result = str "http://img.test/c.jpg"
  /\ (SearchResult.poster sample_scrape_result = []
      \/ (is_http_url (SearchResult.poster sample_scrape_result) = true
          /\ endsWith (str ".jpg") (SearchResult.poster sample_scrape_result)
             = true
          /\ Forall (fun u => url_unit u = true)
                    (SearchResult.poster sample_scrape_result)
          /\ exists resp,
               always (html_response sample_page)
                 (scrape_request sample_config sample_scrape_site (str "42"))
               = Resolves resp
               /\ factor (SearchResult.poster sample_scrape_result)
                         (Response.text resp))).
Proof.
  assert (Hrun : sample_scrape = (fst sample_scrape, Ok sample_scrape_result)).
  { vm_compute. reflexivity. }
  split; [reflexivity|]. split; [exact Hrun|]. split; [reflexivity|].
  exact (scraped_poster_shape sample_clean sample_config
           (always (html_response sample_page)) sample_scrape_site (str "42")
           _ _ eq_refl Hrun).
Defined.

(** ** Episodes are parts of the text they were read from *)

Lemma split_go_factor sep k cur s g :
  In g (split_go sep k cur s) -> k = 0 \/ cur = [] ->
  factor g (rev cur ++ s).
Proof.
  revert k cur. induction s as [|x t IH]; intros k cur Hg Hinv; simpl in Hg.
  - destruct Hg as [<-|[]]. rewrite app_nil_r. apply factor_refl.
  - destruct k as [|k].
    + destruct (startsWith sep (x :: t)).
      * destruct Hg as [<-|Hg].
        -- exists [], (x :: t). reflexivity.
        -- destruct (IH _ _ Hg (or_intror eq_refl)) as (a & b & E).
           simpl in E. exists (rev cur ++ x :: a), b. rewrite E.
           rewrite <- !app_assoc. reflexivity.
      * destruct (IH _ _ Hg (or_introl eq_refl)) as (a & b & E).
        exists a, b. rewrite <- E. simpl. rewrite <- app_assoc. reflexivity.
    + destruct Hinv as [Hk | ->]; [discriminate|].
      destruct (IH _ _ Hg (or_intror eq_refl)) as (a & b & E). simpl in E.
      exists (x :: a), b. simpl. rewrite E. reflexivity.
Qed.

(** Every piece of a [split] is a part of the string. *)
Lemma split_factor sep s g : In g (split sep s) -> factor g s.
Proof. intros H. apply (split_go_factor sep 0 [] s g H). auto. Qed.

Lemma factor_take (l : jsstring) n : factor (take n l) l.
Proof. exists [], (drop n l). symmetry. apply take_drop. Qed.

Lemma factor_drop (l : jsstring) n : factor (drop n l) l.
Proof.
  exists (take n l), []. rewrite app_nil_r. symmetry. apply take_drop.
Qed.

Lemma strip_link_factor m : factor (strip_link m) m.
Proof.
  unfold strip_link. rewrite substring_from_1.
  destruct (Z.gtb_spec (indexOf (ch "(") (drop 1 m)) 0) as [Hpos|_].
  - rewrite substring_to by lia.
    eapply factor_trans; [apply factor_take|apply factor_drop].
  - apply factor_drop.
Qed.

Lemma structured_episodes_factor url u :
  In u (structured_episodes url) -> factor u (or_empty url).
Proof.
  unfold structured_episodes. destruct (truthy url); [|contradiction].
  fold (or_empty url).
  destruct (split (str "$$$") (or_empty url)) as [|mainSource l] eqn:Hs;
    [contradiction|].
  intros H. apply filter_In in H as [H _].
  apply in_map_iff in H as (ep & <- & Hep).
  assert (Hmain : factor mainSource (or_empty url)).
  { apply (split_factor (str "$$$")). rewrite Hs. left. reflexivity. }
  apply split_factor in Hep.
  destruct (1 <? length (split (str "$") ep)) eqn:Hlen; [|apply factor_nil].
  apply Nat.ltb_lt in Hlen.
  eapply factor_trans; [|exact Hmain]. eapply factor_trans; [|exact Hep].
  apply (split_factor (str "$")). apply nth_In. exact Hlen.
Qed.

Lemma detail_episodes_factor v u :
  In u (detail_episodes v) ->
  factor u (or_empty (ApiSearchItem.vod_play_url v))
  \/ factor u (or_empty (ApiSearchItem.vod_content v)).
Proof.
  unfold detail_episodes. destruct (_ && _).
  - rewrite content_episodes_matches. intros H.
    apply match_all_sound in H as [_ Hf]. right. exact Hf.
  - intros H. left. apply structured_episodes_factor, H.
Qed.

Lemma item_episodes_factor item u :
  In u (item_episodes item) ->
  factor u (or_empty (ApiSearchItem.vod_play_url item)).
Proof.
  unfold item_episodes. intros H. apply in_map_iff in H as (m & <- & Hm).
  rewrite Array_from_Set_first_seen in Hm.
  apply (proj1 (In_first_seen _ _)) in Hm.
  destruct (truthy (ApiSearchItem.vod_play_url item)); [|contradiction].
  rewrite pick_episodes_richest in Hm.
  apply richest_In in Hm as (ms & Hms & Hm).
  apply in_map_iff in Hms as (g & <- & Hg).
  apply match_all_sound in Hm as [_ Hf]. apply split_factor in Hg.
  eapply factor_trans; [apply strip_link_factor|].
  eapply factor_trans; [exact Hf|exact Hg].
Qed.

Lemma scrape_matches_factor site html m :
  In m (scrape_matches site html) -> factor m html.
Proof.
  unfold scrape_matches.
  destruct (jsstring_eqb (ApiSite.key site) (str "ffzy")); cbn zeta.
  - destruct (length (match_all ffzyPattern html) =? 0); intros H;
      apply match_all_sound in H as [_ Hf]; exact Hf.
  - simpl. intros H. apply match_all_sound in H as [_ Hf]. exact Hf.
Qed.

Lemma scrape_episodes_factor site html u :
  In u (scrape_episodes site html) -> factor u html.
Proof.
  unfold scrape_episodes. intros H. apply in_map_iff in H as (m & <- & Hm).
  rewrite Array_from_Set_first_seen in Hm.
  apply (proj1 (In_first_seen _ _)) in Hm.
  eapply factor_trans; [apply strip_link_factor|].
  eapply scrape_matches_factor, Hm.
Qed.

(** X11: no episode is made up: every episode of a search result occurs
    as it is in the play list of its item, every episode of a JSON detail
    in the play list or in the content of the first item of the payload,
    and every episode of a scraped detail in the page. *)
Theorem episodes_occur_in_source clean cfg net site :
  (forall MAX delay query tr results r u,
     searchFromApi clean cfg MAX net delay site query = (tr, Ok results) ->
     In r results -> In u (SearchResult.episodes r) ->
     exists item,
       r = transformApiSearchItem clean item site
       /\ factor u (or_empty (ApiSearchItem.vod_play_url item)))
  /\ (forall id tr r u,
        getDetailFromApi clean cfg net site id = (tr, Ok r) ->
        In u (SearchResult.episodes r) ->
        exists resp,
          net (detail_lookup_request cfg site id) = Resolves resp
          /\ if truthy (ApiSite.detail site)
             then factor u (Response.text resp)
             else exists videoDetail rest pagecount,
                 Response.json_ resp
                 = Some (JData (Some (Item videoDetail :: rest)) pagecount)
                 /\ (factor u
                       (or_empty (ApiSearchItem.vod_play_url videoDetail))
                     \/ factor u
                          (or_empty (ApiSearchItem.vod_content videoDetail)))).
Proof.
  split.
  - intros MAX delay query tr results r u Hrun Hin Hu.
    destruct (search_result_item _ _ _ _ _ _ _ _ _ _ Hrun Hin) as [item ->].
    exists item. split; [reflexivity|]. apply item_episodes_factor, Hu.
  - intros id tr r u. unfold getDetailFromApi, detail_lookup_request.
    destruct (truthy (ApiSite.detail site)).
    + rewrite handleSpecialSourceDetail_outcome.
      destruct (net _) as [| |resp]; try discriminate.
      destruct (Response.ok resp); [|discriminate].
      intros [= _ <-] Hu. exists resp. split; [reflexivity|].
      eapply scrape_episodes_factor, Hu.
    + rewrite getDetailFromJson_outcome.
      destruct (net _) as [| |resp]; try discriminate.
      destruct (Response.ok resp); [|discriminate].
      destruct (Response.json_ resp) as [[|[[|[v|] l]|] pc]|] eqn:Hj;
        try discriminate.
      intros [= _ <-] Hu. exists resp. split; [reflexivity|].
      exists v, l, pc. split; [exact Hj|].
      apply detail_episodes_factor, Hu.
Qed.

Lemma episodes_occur_in_source_witness :
  plain_detail = (fst plain_detail, Ok plain_detail_result)
  /\ In (str "http://a.test/1.m3u8") (SearchResult.episodes plain_detail_result)
  /\ exists resp,
       always (json_response [plain_item] None)
         (detail_lookup_request sample_config sample_site (str "42"))
       = Resolves resp
       /\ if truthy (ApiSite.detail sample_site)
          then factor (str "http://a.test/1.m3u8") (Response.text resp)
          else exists videoDetail rest pagecount,
              Response.json_ resp
              = Some (JData (Some (Item videoDetail :: rest)) pagecount)
              /\ (factor (str "http://a.test/1.m3u8")
                    (or_empty (ApiSearchItem.vod_play_url videoDetail))
                  \/ factor (str "http://a.test/1.m3u8")
                       (or_empty (ApiSearchItem.vod_content videoDetail))).
Proof.
  assert (Hrun : plain_detail = (fst plain_detail, Ok plain_detail_result)).
  { vm_compute. reflexivity. }
  assert (Hin : In (str "http://a.test/1.m3u8")
                   (SearchResult.episodes plain_detail_result)).
  { left. reflexivity. }
  split; [exact Hrun|]. split; [exact Hin|].
  exact (proj2 (episodes_occur_in_source sample_clean sample_config
                  (always (json_response [plain_item] None)) sample_site)
           (str "42") _ _ _ Hrun Hin).
Defined.

(** ** The structured play list *)

Lemma split_go_single_no_sep c k cur s g :
  In g (split_go [c] k cur s) -> ~ In c cur -> ~ In c g.
Proof.
  revert k cur. induction s as [|x t IH]; intros k cur Hg Hcur; simpl in Hg.
  - destruct Hg as [<-|[]]. rewrite <- in_rev. exact Hcur.
  - destruct k as [|k]; [|eapply IH; eauto].
    destruct (N.eqb_spec c x) as [->|Hne]; simpl in Hg.
    + destruct Hg as [<-|Hg]; [rewrite <- in_rev; exact Hcur|].
      eapply IH; [exact Hg|]. intros [].
    + eapply IH; [exact Hg|]. intros [E|H]; [congruence|tauto].
Qed.

(** A piece of a [split] on a one-unit separator holds no separator. *)
Lemma split_single_no_sep c s g : In g (split [c] s) -> ~ In c g.
Proof. intros H. apply (split_go_single_no_sep c 0 [] s g H). intros []. Qed.

(** X12: when the first play source of a JSON detail holds at least one
    entry whose link starts with [http://] or [https://], the episodes
    are the links of those entries, in order, and the content is not
    looked at; none of them is empty or holds a hash or a dollar, and each
    occurs in the play list. *)
Theorem structured_episodes_clean videoDetail :
  structured_episodes (ApiSearchItem.vod_play_url videoDetail) <> [] ->
  detail_episodes videoDetail
  = structured_episodes (ApiSearchItem.vod_play_url videoDetail)
  /\ forall u,
       In u (detail_episodes videoDetail) ->
       u <> [] /\ is_http_url u = true
       /\ ~ In (ch "#") u /\ ~ In (ch "$") u
       /\ factor u (or_empty (ApiSearchItem.vod_play_url videoDetail)).
Proof.
  intros Hne.
  assert (Hdet : detail_episodes videoDetail
                 = structured_episodes (ApiSearchItem.vod_play_url videoDetail)).
  { unfold detail_episodes.
    destruct (structured_episodes _) as [|e l]; [congruence|reflexivity]. }
  split; [exact Hdet|]. rewrite Hdet. intros u Hu.
  pose proof (structured_episodes_factor _ _ Hu) as Hf.
  unfold structured_episodes in Hu.
  destruct (truthy (ApiSearchItem.vod_play_url videoDetail)); [|contradiction].
  destruct (split (str "$$$") _) as [|mainSource l]; [contradiction|].
  apply filter_In in Hu as [Hu Hp].
  apply andb_true_iff in Hp as [Hnonempty Hhttp].
  apply in_map_iff in Hu as (ep & Hep & Hin).
  assert (Hparts : In u (split (str "$") ep)).
  { destruct (1 <? length (split (str "$") ep)) eqn:Hlen.
    - rewrite <- Hep. apply nth_In, Nat.ltb_lt, Hlen.
    - subst u. discriminate. }
  split; [intros ->; discriminate|]. split; [exact Hhttp|].
  split; [|split; [|exact Hf]].
  - intros Hc. apply (split_single_no_sep (ch "#") mainSource ep Hin).
    apply (split_units (str "$") ep u); assumption.
  - apply (split_single_no_sep (ch "$") ep u Hparts).
Qed.

Lemma structured_episodes_clean_witness :
  structured_episodes (ApiSearchItem.vod_play_url plain_item) <> []
  /\ detail_episodes plain_item = [str "http://a.test/1.m3u8"]
  /\ detail_episodes plain_item
     = structured_episodes (ApiSearchItem.vod_play_url plain_item).
Proof.
  assert (Hne : structured_episodes (ApiSearchItem.vod_play_url plain_item)
                <> []).
  { vm_compute. discriminate. }
  split; [exact Hne|]. split; [vm_compute; reflexivity|].
  exact (proj1 (structured_episodes_clean plain_item Hne)).
Defined.

(** ** The stricter pattern of one source *)

Lemma lang_ffzyPattern_index m :
  lang ffzyPattern m ->
  exists u, m = ch "$" :: u /\ endsWith (str "/index.m3u8") u = true.
Proof.
  intros (d & r0 & -> & -> & h & r1 & -> & -> & o & r2 & -> & Ho & c & r3
          & -> & -> & b & r4 & -> & _ & s1 & r5 & -> & -> & d8 & r6 & -> & _
          & s2 & r7 & -> & -> & dn & r8 & -> & _ & us & r9 & -> & -> & hx
          & e & -> & _ & ->).
  eexists. split; [reflexivity|]. rewrite !app_assoc. apply endsWith_app.
Qed.

(** X13: for the source [ffzy], as soon as the page holds one link of the
    stricter pattern, the links that only the general pattern matches are
    left out: every episode stems from a match of the stricter pattern,
    and ends in [/index.m3u8] when that match holds no parenthesis; for
    every other source the general pattern alone decides. *)
Theorem ffzy_strict_links site html :
  (ApiSite.key site = str "ffzy" ->
   match_all ffzyPattern html <> [] ->
   forall u, In u (scrape_episodes site html) ->
     exists m, In m (match_all ffzyPattern html)
               /\ u = strip_link m
               /\ (~ In (ch "(") m -> endsWith (str "/index.m3u8") u = true))
  /\ (ApiSite.key site <> str "ffzy" ->
      scrape_episodes site html
      = map strip_link (first_seen (match_all generalPattern html))).
Proof.
  unfold scrape_episodes, scrape_matches. split.
  - intros Hkey Hne u Hu. apply in_map_iff in Hu as (m & <- & Hm).
    rewrite Array_from_Set_first_seen in Hm.
    apply (proj1 (In_first_seen _ _)) in Hm.
    rewrite Hkey, jsstring_eqb_refl in Hm. cbn zeta in Hm.
    rewrite (length_eqb_0 _ Hne) in Hm.
    exists m. split; [exact Hm|]. split; [reflexivity|]. intros Hn.
    apply match_all_sound in Hm as [L _].
    apply lang_ffzyPattern_index in L as (v & -> & He).
    rewrite strip_link_plain; [exact He|].
    intros Hc. apply Hn. right. exact Hc.
  - intros Hkey. rewrite Array_from_Set_first_seen.
    destruct (jsstring_eqb (ApiSite.key site) (str "ffzy")) eqn:E.
    + apply jsstring_eqb_eq in E. contradiction.
    + reflexivity.
Qed.

Lemma ffzy_strict_links_witness :
  ApiSite.key sample_scrape_site = str "ffzy"
  /\ match_all ffzyPattern (str sample_page) <> []
  /\ scrape_episodes sample_scrape_site (str sample_page)
     = [str "http://a.test/20200101/12_ab/index.m3u8"]
  /\ (exists m, In m (match_all ffzyPattern (str sample_page))
                /\ str "http://a.test/20200101/12_ab/index.m3u8"
                   = strip_link m)
  /\ ApiSite.key sample_site <> str "ffzy"
  /\ scrape_episodes sample_site (str sample_page)
     = map strip_link (first_seen (match_all generalPattern (str sample_page))).
Proof.
  assert (Hne : match_all ffzyPattern (str sample_page) <> []).
  { vm_compute. discriminate. }
  assert (Hkey : ApiSite.key sample_site <> str "ffzy").
  { vm_compute. discriminate. }
  assert (Hin : In (str "http://a.test/20200101/12_ab/index.m3u8")
                   (scrape_episodes sample_scrape_site (str sample_page))).
  { vm_compute. left. reflexivity. }
  destruct (ffzy_strict_links sample_scrape_site (str sample_page))
    as [Hstrict _].
  destruct (ffzy_strict_links sample_site (str sample_page)) as [_ Hother].
  destruct (Hstrict eq_refl Hne _ Hin) as (m & Hm & E & _).
  split; [reflexivity|]. split; [exact Hne|].
  split; [vm_compute; reflexivity|].
  split; [exists m; split; assumption|].
  split; [exact Hkey|]. exact (Hother Hkey).
Defined.


(** ** The title of a search result *)

Lemma parse_rep_greedy_head p lo s :
  head (parse_rep p Greedy lo None s)
  = if lo <=? length (run p s)
    then Some (run p s, drop (length (run p s)) s) else None.
Proof.
  revert lo. induction s as [|c t IH]; intros lo.
  - destruct lo; reflexivity.
  - cbn [parse_rep run]. destruct (p c) eqn:Hp; cbn [andb hi_zero negb option_map].
    + specialize (IH (pred lo)).
      destruct (Nat.leb_spec (pred lo) (length (run p t))) as [Hle|Hgt].
      * destruct (parse_rep p Greedy (pred lo) None t) as [|x l];
          [discriminate|].
        injection IH as ->. cbn [map app head fst snd length].
        rewrite (proj2 (Nat.leb_le lo (S (length (run p t))))) by lia.
        reflexivity.
      * apply head_None in IH. rewrite IH. cbn [map app].
        rewrite (proj2 (Nat.leb_gt lo (length (c :: run p t))))
          by (simpl; lia).
        destruct lo; [lia|reflexivity].
    + destruct lo; reflexivity.
Qed.

Lemma match_here_spaces s :
  match_here spaces s
  = if 1 <=? length (run is_space s) then Some (run is_space s) else None.
Proof.
  unfold match_here, spaces, plus. cbn [parse].
  pose proof (parse_rep_greedy_head is_space 1 s) as H.
  destruct (parse_rep is_space Greedy 1 None s) as [|[m rest] l];
    destruct (1 <=? length (run is_space s)); try discriminate;
    [reflexivity|]. injection H as -> _. reflexivity.
Qed.

Lemma replace_all_go_skip r rep k s :
  k <= length s ->
  replace_all_go r rep k s = replace_all_go r rep 0 (drop k s).
Proof.
  revert s. induction k as [|k IH]; intros s Hk; [reflexivity|].
  destruct s as [|x t]; [simpl in Hk; lia|]. simpl in Hk.
  cbn [replace_all_go]. rewrite IH by lia. reflexivity.
Qed.

Lemma run_length p s : length (run p s) <= length s.
Proof.
  induction s as [|c t IH]; simpl; [lia|]. destruct (p c); simpl; lia.
Qed.

Lemma collapse_cons c t :
  collapse (c :: t)
  = if is_space c then
      match t with
      | d :: _ => if is_space d then collapse t else ch " " :: collapse t
      | [] => [ch " "]
      end
    else c :: collapse t.
Proof. reflexivity. Qed.

Lemma collapse_run c t :
  is_space c = true ->
  collapse (c :: t)
  = ch " " :: collapse (drop (length (run is_space t)) t).
Proof.
  revert c. induction t as [|d t' IH]; intros c Hc.
  - simpl. rewrite Hc. reflexivity.
  - rewrite (collapse_cons c), Hc. cbn [run].
    destruct (is_space d) eqn:Hd.
    + cbn [length drop]. apply IH, Hd.
    + reflexivity.
Qed.

(** The replacement of the white-space pattern amounts to [collapse]. *)
Lemma replace_all_spaces s : replace_all spaces (str " ") s = collapse s.
Proof.
  unfold replace_all. remember (length s) as n eqn:Hn. revert s Hn.
  induction n as [n IH] using lt_wf_ind. intros s Hn.
  destruct s as [|c t]; [reflexivity|].
  cbn [replace_all_go]. rewrite match_here_spaces. cbn [run].
  destruct (is_space c) eqn:Hc.
  - cbn [length Nat.leb pred app str]. rewrite collapse_run by exact Hc.
    change (str " " ++ ?x) with (ch " " :: x). f_equal.
    pose proof (run_length is_space t) as Hr.
    rewrite replace_all_go_skip by exact Hr.
    apply (IH (length (drop (length (run is_space t)) t))); [|reflexivity].
    rewrite length_drop. subst n. simpl. lia.
  - cbn [length Nat.leb]. rewrite collapse_cons, Hc. f_equal.
    apply (IH (length t)); [subst n; simpl; lia|reflexivity].
Qed.

Lemma normalize_title_collapse name :
  normalize_title name = collapse (trim name).
Proof. apply replace_all_spaces. Qed.

Lemma collapse_nonempty c t : collapse (c :: t) <> [].
Proof.
  revert c. induction t as [|d t' IH]; intros c; rewrite collapse_cons.
  - destruct (is_space c); discriminate.
  - destruct (is_space c); [|discriminate].
    destruct (is_space d); [apply IH|discriminate].
Qed.

Lemma single_spaced_space d l :
  is_space d = false ->
  single_spaced (ch " " :: d :: l) = single_spaced (d :: l).
Proof. intros H. cbn [single_spaced]. rewrite H. reflexivity. Qed.

Lemma collapse_single_spaced s : single_spaced (collapse s) = true.
Proof.
  induction s as [|c t IH]; [reflexivity|]. rewrite collapse_cons.
  destruct (is_space c) eqn:Hc.
  - destruct t as [|d t']; [reflexivity|].
    destruct (is_space d) eqn:Hd; [exact IH|].
    rewrite (collapse_cons d), Hd in IH |- *.
    rewrite single_spaced_space by exact Hd. exact IH.
  - cbn [single_spaced]. rewrite Hc. exact IH.
Qed.

Lemma collapse_head s c :
  (forall x, head s = Some x -> is_space x = false) ->
  head (collapse s) = Some c -> is_space c = false.
Proof.
  destruct s as [|x t]; [discriminate|]. intros H. rewrite collapse_cons.
  rewrite (H x eq_refl). intros [= <-]. apply H. reflexivity.
Qed.

Lemma collapse_last s c :
  last (collapse s) = Some c -> is_space c = true ->
  exists d, last s = Some d /\ is_space d = true.
Proof.
  induction s as [|x t IH]; [discriminate|]. rewrite collapse_cons.
  destruct t as [|y t'].
  - destruct (is_space x) eqn:Hx.
    + intros _ _. exists x. auto.
    + intros [= <-] Hc. exists x. auto.
  - rewrite (last_cons_cons x y t').
    assert (Hpush : forall z,
      last (z :: collapse (y :: t')) = Some c -> is_space c = true ->
      exists d, last (y :: t') = Some d /\ is_space d = true).
    { intros z. destruct (collapse (y :: t')) as [|u l] eqn:E.
      - exfalso. exact (collapse_nonempty y t' E).
      - rewrite last_cons_cons. exact IH. }
    destruct (is_space x); [|apply Hpush].
    destruct (is_space y); [exact IH|apply Hpush].
Qed.

Lemma collapse_visible s : visible (collapse s) = visible s.
Proof.
  unfold visible. induction s as [|c t IH]; [reflexivity|].
  rewrite collapse_cons. destruct (is_space c) eqn:Hc.
  - cbn [List.filter]. rewrite Hc. cbn [negb].
    destruct t as [|d t']; [reflexivity|].
    destruct (is_space d); exact IH.
  - cbn [List.filter]. rewrite Hc. cbn [negb]. f_equal. exact IH.
Qed.

Lemma visible_spaces a : forallb is_space a = true -> visible a = [].
Proof.
  unfold visible. induction a as [|c t IH]; [reflexivity|]. simpl.
  intros H. apply andb_true_iff in H as [Hc Ht]. rewrite Hc. simpl. auto.
Qed.

Lemma trim_visible s : visible (trim s) = visible s.
Proof.
  destruct (trim_split s) as (a & b & E & Ha & Hb). rewrite E at 2.
  unfold visible in *. rewrite !List.filter_app.
  fold (visible a). fold (visible b).
  rewrite (visible_spaces a Ha), (visible_spaces b Hb), app_nil_r.
  reflexivity.
Qed.

Lemma collapse_id s : single_spaced s = true -> collapse s = s.
Proof.
  induction s as [|c t IH]; [reflexivity|]. cbn [single_spaced].
  intros H. apply andb_true_iff in H as [Hc Ht]. specialize (IH Ht).
  rewrite collapse_cons. destruct (is_space c).
  - apply andb_true_iff in Hc as [Hc Hnext]. apply N.eqb_eq in Hc. subst c.
    destruct t as [|d t']; [reflexivity|].
    apply negb_true_iff in Hnext. rewrite Hnext, IH. reflexivity.
  - rewrite IH. reflexivity.
Qed.

Lemma normalize_title_normal name : title_normal (normalize_title name).
Proof.
  rewrite normalize_title_collapse. split; [apply collapse_single_spaced|].
  split.
  - intros c. apply collapse_head. apply trim_head.
  - intros c Hc. destruct (is_space c) eqn:Hs; [|reflexivity].
    destruct (collapse_last _ _ Hc Hs) as (d & Hd & Hds).
    rewrite (trim_last _ _ Hd) in Hds. discriminate.
Qed.

(** X14: the title of a search result is in normal form: its only white
    space is single spaces, none of them at either end; and it keeps the
    units of the raw name that are not white space, all of them and in
    their order. *)
Theorem search_title_normal clean item site :
  title_normal (SearchResult.title (transformApiSearchItem clean item site))
  /\ visible (SearchResult.title (transformApiSearchItem clean item site))
     = visible (ApiSearchItem.vod_name item).
Proof.
  cbn [transformApiSearchItem SearchResult.title]. split.
  - apply normalize_title_normal.
  - rewrite normalize_title_collapse, collapse_visible. apply trim_visible.
Qed.

(** X15: the normalisation of a title changes nothing in a title that is
    in normal form, and only in those; so normalising twice is
    normalising once. *)
Theorem normalize_title_fixed_points :
  (forall t, normalize_title t = t <-> title_normal t)
  /\ (forall name,
        normalize_title (normalize_title name) = normalize_title name).
Proof.
  assert (Hfix : forall t, title_normal t -> normalize_title t = t).
  { intros t (Hs & Hh & Hl). rewrite normalize_title_collapse.
    rewrite (trim_id t Hh Hl). apply collapse_id, Hs. }
  split.
  - intros t. split; [|apply Hfix].
    intros E. rewrite <- E. apply normalize_title_normal.
  - intros name. apply Hfix, normalize_title_normal.
Qed.


(** ** The URL of a further page *)

Lemma replace_first_skip c pat rep a s :
  ~ In c a ->
  replace_first (c :: pat) rep (a ++ s)
  = a ++ replace_first (c :: pat) rep s.
Proof.
  induction a as [|x a IH]; intros Ha; [reflexivity|].
  assert (Hx : (c =? x)%N = false).
  { apply N.eqb_neq. intros ->. apply Ha. left. reflexivity. }
  change ((x :: a) ++ s) with (x :: (a ++ s)).
  cbn [replace_first startsWith]. rewrite Hx. cbn [andb].
  rewrite IH; [reflexivity|]. intros H. apply Ha. right. exact H.
Qed.

Lemma replace_first_here pat rep s :
  replace_first pat rep (pat ++ s) = rep ++ s.
Proof.
  destruct pat as [|c pat]; [destruct s; reflexivity|].
  change ((c :: pat) ++ s) with (c :: (pat ++ s)).
  cbn [replace_first]. change (c :: (pat ++ s)) with ((c :: pat) ++ s).
  rewrite startsWith_app, drop_app_length. reflexivity.
Qed.

Lemma hex_digit_not_brace n : (n < 16)%N -> hex_digit n <> ch "{".
Proof.
  assert (E : ch "{" = 123%N) by reflexivity. rewrite E.
  unfold hex_digit. destruct (N.ltb_spec n 10); lia.
Qed.

Lemma percent_no_brace b : (b < 256)%N -> ~ In (ch "{") (percent b).
Proof.
  intros Hb [H|[H|[H|[]]]].
  - discriminate.
  - apply (hex_digit_not_brace (b / 16)); [|exact H].
    apply N.Div0.div_lt_upper_bound. exact Hb.
  - apply (hex_digit_not_brace (b mod 16)); [|exact H].
    apply N.mod_lt. discriminate.
Qed.

Lemma utf8_bytes cp b : (cp < 0x110000)%N -> In b (utf8 cp) -> (b < 256)%N.
Proof.
  intros Hcp. unfold utf8.
  assert (H64 : forall a, (a mod 64 < 64)%N)
    by (intros a; apply N.mod_lt; discriminate).
  destruct (N.ltb_spec cp 0x80) as [H1|H1].
  { intros [<-|[]]. lia. }
  destruct (N.ltb_spec cp 0x800) as [H2|H2].
  { assert (cp / 64 < 32)%N by (apply N.Div0.div_lt_upper_bound; lia).
    pose proof (H64 cp).
    intros [<-|[<-|[]]]; lia. }
  destruct (N.ltb_spec cp 0x10000) as [H3|H3].
  { assert (cp / 4096 < 16)%N by (apply N.Div0.div_lt_upper_bound; lia).
    pose proof (H64 cp). pose proof (H64 (cp / 64)%N).
    intros [<-|[<-|[<-|[]]]]; lia. }
  assert (cp / 262144 < 5)%N by (apply N.Div0.div_lt_upper_bound; lia).
  pose proof (H64 cp). pose proof (H64 (cp / 64)%N).
  pose proof (H64 (cp / 4096)%N).
  intros [<-|[<-|[<-|[<-|[]]]]]; lia.
Qed.

Lemma escape_no_brace cp : (cp < 0x110000)%N -> ~ In (ch "{") (escape cp).
Proof.
  unfold escape. intros Hcp H. apply in_concat in H as (w & Hw & Hin).
  apply in_map_iff in Hw as (b & <- & Hb).
  exact (percent_no_brace b (utf8_bytes cp b Hcp Hb) Hin).
Qed.

Lemma encodeURIComponent_no_brace s encoded :
  code_units s = true ->
  encodeURIComponent s = Ok encoded -> ~ In (ch "{") encoded.
Proof.
  remember (length s) as n eqn:Hn. revert s encoded Hn.
  induction n as [n IH] using lt_wf_ind. intros s encoded Hn Hs.
  assert (Hmap : forall (w t : jsstring) e,
            length t < n -> code_units t = true -> ~ In (ch "{") w ->
            result_map (app w) (encodeURIComponent t) = Ok e ->
            ~ In (ch "{") e).
  { intros w t e Hlt Hcu Hw He.
    destruct (encodeURIComponent t) as [e'|] eqn:Ht; [|discriminate].
    injection He as <-. rewrite in_app_iff. intros [H|H]; [tauto|].
    exact (IH (length t) Hlt t e' eq_refl Hcu Ht H). }
  destruct s as [|c t]; [intros [= <-] []|].
  cbn [encodeURIComponent]. simpl in Hn.
  cbn [code_units forallb] in Hs. apply andb_true_iff in Hs as [Hc Ht].
  apply N.ltb_lt in Hc. fold (code_units t) in Ht.
  destruct (is_uri_unreserved c) eqn:Hu.
  - apply (Hmap [c]); [lia|exact Ht|].
    intros [->|[]]. vm_compute in Hu. discriminate.
  - destruct (is_low_surrogate c); [discriminate|].
    destruct (is_high_surrogate c) eqn:Hh.
    + destruct t as [|d t']; [discriminate|].
      destruct (is_low_surrogate d) eqn:Hl; [|discriminate].
      cbn [code_units forallb] in Ht. apply andb_true_iff in Ht as [_ Ht'].
      apply Hmap; [simpl in Hn; lia|exact Ht'|].
      apply escape_no_brace.
      unfold is_high_surrogate in Hh. unfold is_low_surrogate in Hl.
      apply andb_true_iff in Hh as [_ Hh]. apply andb_true_iff in Hl as [_ Hl].
      apply N.leb_le in Hh, Hl. lia.
    + apply Hmap; [lia|exact Ht|]. apply escape_no_brace. lia.
Qed.

(** X16: when the page-path template is [pre{query}mid{page}post] and
    neither the base URL of the source nor [pre] nor [mid] holds an
    opening brace, the URL of a further page is the base URL followed by
    the template with the encoded query and the decimal page number in
    the place of the two placeholders: the query, whose braces are
    percent-encoded, cannot stand in for the page placeholder. *)
Theorem page_url_substitution cfg base pre mid post query encoded (page : Z) :
  ApiConfig.search_pagePath cfg
  = pre ++ str "{query}" ++ mid ++ str "{page}" ++ post ->
  ~ In (ch "{") base -> ~ In (ch "{") pre -> ~ In (ch "{") mid ->
  code_units query = true ->
  encodeURIComponent query = Ok encoded ->
  pageUrl cfg base encoded page
  = base ++ pre ++ encoded ++ mid ++ N_toString (Z.to_N page) ++ post.
Proof.
  intros Hcfg Hbase Hpre Hmid Hcu Henc.
  pose proof (encodeURIComponent_no_brace _ _ Hcu Henc) as Hq.
  unfold pageUrl. rewrite Hcfg.
  change (str "{query}") with (ch "{" :: str "query}").
  change (str "{page}") with (ch "{" :: str "page}").
  replace (base ++ pre ++ (ch "{" :: str "query}") ++ mid
           ++ (ch "{" :: str "page}") ++ post)
    with ((base ++ pre) ++ (ch "{" :: str "query}") ++ mid
          ++ (ch "{" :: str "page}") ++ post)
    by (rewrite <- !app_assoc; reflexivity).
  rewrite replace_first_skip
    by (rewrite in_app_iff; tauto).
  rewrite replace_first_here.
  replace ((base ++ pre) ++ encoded ++ mid
           ++ (ch "{" :: str "page}") ++ post)
    with ((base ++ pre ++ encoded ++ mid)
          ++ (ch "{" :: str "page}") ++ post)
    by (rewrite <- !app_assoc; reflexivity).
  rewrite replace_first_skip
    by (rewrite !in_app_iff; tauto).
  rewrite replace_first_here. rewrite <- !app_assoc. reflexivity.
Qed.

Lemma page_url_substitution_witness :
  pageUrl sample_config (str "http://api.test") (str "a%20b") 2
  = str "http://api.test?ac=videolist&wd=a%20b&pg=2".
Proof.
  apply (page_url_substitution sample_config (str "http://api.test")
           (str "?ac=videolist&wd=") (str "&pg=") [] (str "a b")
           (str "a%20b") 2).
  - reflexivity.
  - vm_compute. intuition discriminate.
  - vm_compute. intuition discriminate.
  - vm_compute. intuition discriminate.
  - reflexivity.
  - reflexivity.
Defined.


(** ** The description of a scraped detail *)

Lemma head_flat_map {A B} (F : A -> list B) (l : list A) m :
  head (flat_map F l) = Some m ->
  exists x, In x l /\ head (F x) = Some m.
Proof.
  induction l as [|a l IH]; simpl; [discriminate|].
  destruct (F a) as [|b l'] eqn:E; simpl.
  - intros H. destruct (IH H) as (x & Hx & Hh). exists x. auto.
  - intros [= <-]. exists a. split; [left; reflexivity|].
    rewrite E. reflexivity.
Qed.

Lemma any_unit_true c : any_unit c = true.
Proof. unfold any_unit. destruct (is_space c); reflexivity. Qed.

Lemma captures_shift w c (l : list (jsstring * jsstring)) :
  flat_map (fun mr2 => map (fun _ => fst mr2) (parse (Lit w) (snd mr2)))
           (map (fun mr => (c :: fst mr, snd mr)) l)
  = map (cons c)
      (flat_map (fun mr2 => map (fun _ => fst mr2) (parse (Lit w) (snd mr2)))
                l).
Proof.
  induction l as [|[m r] l IH]; [reflexivity|].
  cbn [map flat_map fst snd]. rewrite IH, List.map_app, List.map_map.
  reflexivity.
Qed.

(** A lazy run of any units before a literal stops at the first
    occurrence of the literal. *)
Lemma lazy_first w u m :
  w <> [] ->
  head (flat_map (fun mr2 => map (fun _ => fst mr2)
                               (parse (Lit w) (snd mr2)))
                 (parse_rep any_unit Lazy 0 None u)) = Some m ->
  (exists rest, u = m ++ w ++ rest) /\ ~ factor w m.
Proof.
  intros Hw. revert m. induction u as [|c t IH]; intros m.
  - destruct w as [|x w']; [contradiction|]. discriminate.
  - cbn [parse_rep]. rewrite any_unit_true.
    cbn [andb hi_zero negb pred option_map app flat_map fst snd].
    change (parse (Lit w) (c :: t))
      with (if startsWith w (c :: t)
            then [(w, drop (length w) (c :: t))] else []).
    destruct (startsWith w (c :: t)) eqn:Hs.
    + intros [= <-]. split.
      * exists (drop (length w) (c :: t)). apply startsWith_true, Hs.
      * intros (a & b & E). destruct a; [|discriminate].
        destruct w; [contradiction|discriminate].
    + cbn [map app]. rewrite captures_shift.
      destruct (flat_map _ (parse_rep any_unit Lazy 0 None t))
        as [|m' l] eqn:E; [discriminate|].
      intros [= <-]. destruct (IH m') as [(rest & Ht) Hno].
      { reflexivity. }
      split; [exists rest; rewrite Ht; reflexivity|].
      intros (a & b & Hab). destruct a as [|c' a'].
      * simpl in Hab. rewrite Ht in Hs.
        change (c :: m' ++ w ++ rest) with ((c :: m') ++ w ++ rest) in Hs.
        rewrite Hab, <- app_assoc, startsWith_app in Hs. discriminate.
      * injection Hab as _ Hab. apply Hno. exists a', b. exact Hab.
Qed.

Lemma group_here_lazy pre w s m :
  w <> [] ->
  group_here pre (star_lazy any_unit) (Lit w) s = Some m -> ~ factor w m.
Proof.
  intros Hw H. unfold group_here in H.
  apply head_flat_map in H as (x & _ & H).
  exact (proj2 (lazy_first w (snd x) m Hw H)).
Qed.

Lemma match_group_lazy pre w s m :
  w <> [] ->
  match_group pre (star_lazy any_unit) (Lit w) s = Some m -> ~ factor w m.
Proof.
  intros Hw. induction s as [|c t IH]; simpl.
  - destruct (group_here pre _ _ []) eqn:Hg; [|discriminate].
    intros [= <-]. exact (group_here_lazy _ _ _ _ Hw Hg).
  - destruct (group_here pre _ _ (c :: t)) eqn:Hg.
    + intros [= <-]. exact (group_here_lazy _ _ _ _ Hw Hg).
    + exact IH.
Qed.

(** X17: the description of a scraped detail is the empty string, or the
    cleaned text that stands in the page between the opening tag of a
    [div] of class [sketch] and the first closing [div] tag after it:
    the text itself holds no closing [div] tag. *)
Theorem scraped_desc_shape clean cfg net site id tr r :
  truthy (ApiSite.detail site) = true ->
  getDetailFromApi clean cfg net site id = (tr, Ok r) ->
  SearchResult.desc r = []
  \/ exists resp a tag text rest,
       net (scrape_request cfg site id) = Resolves resp
       /\ Response.text resp = a ++ tag ++ text ++ str "</div>" ++ rest
       /\ lang desc_pre tag
       /\ ~ factor (str "</div>") text
       /\ SearchResult.desc r = clean (Some text).
Proof.
  intros Hd. unfold getDetailFromApi. rewrite Hd.
  rewrite handleSpecialSourceDetail_outcome.
  destruct (net _) as [| |resp] eqn:Hnet; try discriminate.
  destruct (Response.ok resp); [|discriminate].
  intros [= _ <-]. cbn [SearchResult.desc].
  destruct (match_group desc_pre desc_cap desc_post (Response.text resp))
    as [d|] eqn:Hm; [right|left; reflexivity].
  assert (Hw : str "</div>" <> []) by discriminate.
  pose proof (match_group_lazy desc_pre (str "</div>") _ _ Hw Hm) as Hno.
  apply match_group_sound in Hm as [_ (a & p & q & rest & E & Lp & ->)].
  exists resp, a, p, d, rest. auto.
Qed.

Lemma scraped_desc_shape_witness :
  truthy (ApiSite.detail sample_scrape_site) = true
  /\ sketch_scrape = (fst sketch_scrape, Ok sketch_scrape_result)
  /\ SearchResult.desc sketch_scrape_result = str " A story "
  /\ (SearchResult.desc sketch_scrape_result = []
      \/ exists resp a tag text rest,
           always (html_response sketch_page)
             (scrape_request sample_config sample_scrape_site (str "42"))
           = Resolves resp
           /\ Response.text resp = a ++ tag ++ text ++ str "</div>" ++ rest
           /\ lang desc_pre tag
           /\ ~ factor (str "</div>") text
           /\ SearchResult.desc sketch_scrape_result
              = sample_clean (Some text)).
Proof.
  assert (Hrun : sketch_scrape = (fst sketch_scrape, Ok sketch_scrape_result)).
  { vm_compute. reflexivity. }
  split; [reflexivity|]. split; [exact Hrun|]. split; [reflexivity|].
  exact (scraped_desc_shape sample_clean sample_config
           (always (html_response sketch_page)) sample_scrape_site
           (str "42") _ _ eq_refl Hrun).
Defined.


(** ** Where the results of a search come from, and how it fails *)

(** X18: every result of a search is the normal form of an item of the
    list of a payload that one of the fetches of the search received
    with a status in [200..299], and that fetch carried the timeout of
    8000: nothing is taken from the fetch of the page count. *)
Theorem search_results_provenance clean cfg MAX net delay site query
    tr results r :
  searchFromApi clean cfg MAX net delay site query = (tr, Ok results) ->
  In r results ->
  exists req resp items pagecount item,
    In req tr
    /\ Request.timeout req = Some 8000%N
    /\ net req = Resolves resp
    /\ Response.ok resp = true
    /\ Response.json_ resp = Some (JData (Some items) pagecount)
    /\ In (Item item) items
    /\ r = transformApiSearchItem clean item site.
Proof.
  intros Hrun Hin.
  destruct (search_results_In _ _ _ _ _ _ _ _ _ _ Hrun Hin)
    as (url & Htr & H).
  apply page_results_provenance in H
    as (resp & items & pc & item & Hnet & Hok & Hj & Hitem & ->).
  exists (search_request cfg url (Some 8000%N)), resp, items, pc, item.
  repeat split; auto.
Qed.

Lemma search_results_provenance_witness :
  sample_search = (fst sample_search,
                   Ok (concat (replicate 3
                         [transformApiSearchItem sample_clean plain_item
                            sample_site])))
  /\ exists req resp items pagecount item,
       In req (fst sample_search)
       /\ Request.timeout req = Some 8000%N
       /\ sample_net req = Resolves resp
       /\ Response.ok resp = true
       /\ Response.json_ resp = Some (JData (Some items) pagecount)
       /\ In (Item item) items
       /\ transformApiSearchItem sample_clean plain_item sample_site
          = transformApiSearchItem sample_clean item sample_site.
Proof.
  assert (Hrun : sample_search
                 = (fst sample_search,
                    Ok (concat (replicate 3
                          [transformApiSearchItem sample_clean plain_item
                             sample_site])))).
  { vm_compute. reflexivity. }
  split; [exact Hrun|].
  apply (search_results_provenance sample_clean sample_config 3 sample_net
           reversed sample_site (str "a b") _ _ _ Hrun).
  left. reflexivity.
Defined.

Lemma encodeURIComponent_throws s e :
  encodeURIComponent s = Throw e -> e = URIError.
Proof.
  remember (length s) as n eqn:Hn. revert s Hn.
  induction n as [n IH] using lt_wf_ind. intros s Hn.
  assert (Hmap : forall (f : jsstring -> jsstring) (t : jsstring),
            length t < n ->
            result_map f (encodeURIComponent t) = Throw e -> e = URIError).
  { intros f t Hlt H.
    destruct (encodeURIComponent t) as [x|e'] eqn:Ht; [discriminate|].
    injection H as <-. exact (IH (length t) Hlt t eq_refl Ht). }
  destruct s as [|c t]; [discriminate|].
  cbn [encodeURIComponent]. simpl in Hn.
  destruct (is_uri_unreserved c); [apply Hmap; lia|].
  destruct (is_low_surrogate c); [intros [= <-]; reflexivity|].
  destruct (is_high_surrogate c); [|apply Hmap; lia].
  destruct t as [|d t']; [intros [= <-]; reflexivity|].
  destruct (is_low_surrogate d); [|intros [= <-]; reflexivity].
  apply Hmap. simpl in Hn. lia.
Qed.

(** X19: a search throws in one case only: the query holds a surrogate
    without its partner; the error is then a [URIError] and no request
    has been issued.  Every failure of a fetch or of a payload is
    absorbed. *)
Theorem search_throws_only_uri_error clean cfg MAX net delay site query e :
  snd (searchFromApi clean cfg MAX net delay site query) = Throw e ->
  e = URIError
  /\ well_formed query = false
  /\ fst (searchFromApi clean cfg MAX net delay site query) = [].
Proof.
  rewrite searchFromApi_outcome. unfold search_outcome.
  destruct (encodeURIComponent query) as [encoded|e'] eqn:Henc.
  - cbn zeta. destruct (page_results clean cfg net site _); [discriminate|].
    destruct (net _) as [| |resp]; try discriminate.
    destruct (Response.json_ resp) as [[|list_ pagecount]|];
      try discriminate.
    destruct (ToNumber (pagecount_or_1 pagecount)); discriminate.
  - intros [= <-]. split; [exact (encodeURIComponent_throws _ _ Henc)|].
    split; [|reflexivity].
    destruct (well_formed query) eqn:Hwf; [|reflexivity].
    apply encodeURIComponent_well_formed in Hwf as [encoded Hok].
    rewrite Hok in Henc. discriminate.
Qed.

Lemma search_throws_only_uri_error_witness :
  URIError = URIError
  /\ well_formed lone_surrogate = false
  /\ fst (searchFromApi sample_clean sample_config 3 sample_net reversed
            sample_site lone_surrogate) = [].
Proof.
  apply (search_throws_only_uri_error sample_clean sample_config 3 sample_net
           reversed sample_site lone_surrogate URIError).
  reflexivity.
Defined.
